(** * Moosync song database (SongDBInstance): a shallow embedding

    The development follows [index.ts] of Moosync, the class
    [SongDBInstance].  Tables are lists of rows in row order, SQL
    statements are the list operations they denote, and [undefined]/[NULL]
    is [None].  A text, in JavaScript or in a column, is the [string] of
    the bytes of its UTF-8 encoding, the form in which SQLite stores and
    compares it; a character is one byte below 128, or a leading byte
    from 192 on followed by continuation bytes 128 .. 191. *)

From Stdlib Require Import String Ascii List Bool Arith Lia Permutation Sorted.
From Stdlib Require Import DecimalString.
Import ListNotations.
Open Scope list_scope.
Open Scope string_scope.

(* ================================================================= *)
(** ** JavaScript and SQLite primitives on strings *)

Module JS.

(** Truthiness of a [string | undefined] value: [undefined], [null] and
    the empty string are falsy. *)
Definition truthy (v : option string) : bool :=
  match v with
  | Some s => negb (s =? "")
  | None => false
  end.

(** The characters [String.prototype.trim] removes are the white space
    and the line terminators of ECMAScript.  Six of them are one byte:
    TAB, LF, VT, FF, CR and SPACE. *)
Definition is_space (c : ascii) : bool :=
  let n := nat_of_ascii c in
  ((9 <=? n)%nat && (n <=? 13)%nat) || (n =? 32)%nat.

(** U+00A0 is the two bytes C2 A0. *)
Definition is_space2 (c1 c2 : ascii) : bool :=
  (nat_of_ascii c1 =? 194)%nat && (nat_of_ascii c2 =? 160)%nat.

(** Three bytes: U+1680 (E1 9A 80), U+2000 .. U+200A (E2 80 80 .. 8A),
    U+2028, U+2029 and U+202F (E2 80 A8, A9, AF), U+205F (E2 81 9F),
    U+3000 (E3 80 80) and U+FEFF (EF BB BF). *)
Definition is_space3 (c1 c2 c3 : ascii) : bool :=
  let n1 := nat_of_ascii c1 in
  let n2 := nat_of_ascii c2 in
  let n3 := nat_of_ascii c3 in
  ((n1 =? 225) && (n2 =? 154) && (n3 =? 128))%nat
  || ((n1 =? 226) && (n2 =? 128)
      && (((128 <=? n3) && (n3 <=? 138)) || (n3 =? 168) || (n3 =? 169)
          || (n3 =? 175)))%nat
  || ((n1 =? 226) && (n2 =? 129) && (n3 =? 159))%nat
  || ((n1 =? 227) && (n2 =? 128) && (n3 =? 128))%nat
  || ((n1 =? 239) && (n2 =? 187) && (n3 =? 191))%nat.

Fixpoint trim_start (s : string) : string :=
  match s with
  | String c1 s1 =>
      if is_space c1 then trim_start s1
      else
        match s1 with
        | String c2 s2 =>
            if is_space2 c1 c2 then trim_start s2
            else
              match s2 with
              | String c3 s3 =>
                  if is_space3 c1 c2 c3 then trim_start s3 else s
              | EmptyString => s
              end
        | EmptyString => s
        end
  | EmptyString => EmptyString
  end.

(** The end of the text is cut where only white space follows. *)
Fixpoint trim_end (s : string) : string :=
  match s with
  | String c s' => if trim_start s =? "" then "" else String c (trim_end s')
  | EmptyString => EmptyString
  end.

Definition trim (s : string) : string := trim_end (trim_start s).

(** [String.prototype.endsWith]: some tail of [s] is [suffix]. *)
Fixpoint endsWith (s suffix : string) : bool :=
  (s =? suffix)
  || match s with
     | String _ s' => endsWith s' suffix
     | EmptyString => false
     end.

(** [Array.prototype.push] of one element. *)
Definition push {A : Type} (l : list A) (x : A) : list A := (l ++ [x])%list.

(** The keys a [for ... in] loop visits on a dense array of length [n]:
    the decimal strings of [0 .. n-1], in order. *)
Definition index_key (i : nat) : string :=
  NilZero.string_of_uint (Nat.to_uint i).

Definition array_keys (n : nat) : list string := map index_key (seq 0 n).

End JS.

Module SQL.

(** SQLite folds only the 26 ASCII upper case letters, both for
    [COLLATE NOCASE] and for [LIKE]. *)
Definition is_upper (c : ascii) : bool :=
  let n := nat_of_ascii c in (65 <=? n)%nat && (n <=? 90)%nat.

Definition to_lower (c : ascii) : ascii :=
  if is_upper c then ascii_of_nat (nat_of_ascii c + 32) else c.

(** [a = b COLLATE NOCASE] *)
Fixpoint nocase_eqb (a b : string) : bool :=
  match a, b with
  | EmptyString, EmptyString => true
  | String x a', String y b' =>
      Ascii.eqb (to_lower x) (to_lower y) && nocase_eqb a' b'
  | _, _ => false
  end.

(** The bytes of a character after its first: SQLite reads a character
    as a byte and, when that byte is 192 or more, the continuation bytes
    that follow it. *)
Definition is_continuation (c : ascii) : bool :=
  let n := nat_of_ascii c in (128 <=? n)%nat && (n <=? 191)%nat.

Definition is_lead (c : ascii) : bool := (192 <=? nat_of_ascii c)%nat.

Fixpoint skip_continuation (text : string) : string :=
  match text with
  | String c text' => if is_continuation c then skip_continuation text' else text
  | EmptyString => EmptyString
  end.

(** [%] before the rest of a pattern: the rest matches what is left of
    the text after some run of characters.  [inside] tells that the
    bytes passed over so far stop within a character, where no run
    ends. *)
Fixpoint like_any (like_rest : string -> bool) (text : string) (inside : bool)
  : bool :=
  match text with
  | String c text' =>
      if inside && is_continuation c then like_any like_rest text' true
      else like_rest text || like_any like_rest text' (is_lead c)
  | EmptyString => like_rest ""
  end.

(** [text LIKE pattern], without ESCAPE: [%] matches any run of
    characters, [_] any one character, any other character itself up to
    ASCII case. *)
Fixpoint like (pattern : string) : string -> bool :=
  match pattern with
  | EmptyString => fun text => text =? ""
  | String p pattern' =>
      if Ascii.eqb p "%" then
        fun text => like_any (like pattern') text false
      else if Ascii.eqb p "_" then
        fun text =>
          match text with
          | String c text' =>
              like pattern' (if is_lead c then skip_continuation text' else text')
          | EmptyString => false
          end
      else
        fun text =>
          match text with
          | String t text' =>
              Ascii.eqb (to_lower p) (to_lower t) && like pattern' text'
          | EmptyString => false
          end
  end.

(** A comparison with a NULL operand is never true. *)
Definition eq_nocase (col : option string) (arg : string) : bool :=
  match col with Some v => nocase_eqb v arg | None => false end.

Definition like_text (col : option string) (arg : string) : bool :=
  match col with Some v => like arg v | None => false end.

(** [ORDER BY col ASC] on a text column with the BINARY collation: NULL
    sorts first, then the order of the bytes.  Rows with equal keys keep
    the order of the scan (SQLite leaves it unspecified). *)
Definition key_leb (a b : option string) : bool :=
  match a, b with
  | None, _ => true
  | Some _, None => false
  | Some x, Some y => String.leb x y
  end.

Section Sort.
Variable Row : Type.
Variable key : Row -> option string.

Fixpoint insert_sorted (r : Row) (l : list Row) : list Row :=
  match l with
  | [] => [r]
  | h :: t =>
      if key_leb (key r) (key h) then r :: l
      else h :: insert_sorted r t
  end.

Definition order_by_asc (l : list Row) : list Row :=
  fold_right insert_sorted [] l.
End Sort.

Arguments insert_sorted {Row} key r l.
Arguments order_by_asc {Row} key l.

End SQL.

(* ================================================================= *)
(** ** Data model *)

(** Objects handed to the store ([Song] and its [Album] of
    [exported.d.ts]); an optional property is an [option].  [artists] is
    the list of artist names [storeArtists] is applied to. *)
Module Doc.

Record Album := {
  album_name : option string;
  album_coverPath_low : option string;
  album_coverPath_high : option string;
  album_artist : option string
}.

Record Song := {
  _id : string;
  path : option string;
  title : string;
  song_coverPath_low : option string;
  song_coverPath_high : option string;
  album : option Album;
  artists : option (list string);
  genre : option (list string)
}.

End Doc.

(** Modelled from the spec: the schema, which [DBUtils] of [./utils]
    declares and this file does not.  Every entity has a unique
    identifier (its primary key), a name, a song-count cache that starts
    at 0 and, for albums and artists, optional cover paths; a bridge row
    is a pair of identifiers and nothing else. *)
Record SongRow := {
  _id : string;
  path : option string;
  title : option string;
  song_coverPath_low : option string;
  song_coverPath_high : option string
}.

Record ArtistRow := {
  artist_id : string;
  artist_name : option string;
  artist_coverPath : option string;
  artist_song_count : nat
}.

Record AlbumRow := {
  album_id : string;
  album_name : option string;
  album_coverPath_low : option string;
  album_coverPath_high : option string;
  album_artist : option string;
  album_song_count : nat
}.

Record GenreRow := {
  genre_id : string;
  genre_name : option string;
  genre_song_count : nat
}.

Record PlaylistRow := {
  playlist_id : string;
  playlist_name : option string;
  playlist_desc : option string;
  playlist_coverPath : option string;
  playlist_song_count : nat
}.

(** A row of [artists_bridge], [album_bridge], [genre_bridge] or
    [playlist_bridge]: column [song] and the column named after the
    entity ([artist], [album], [genre], [playlist]). *)
Record BridgeRow := {
  song : string;
  entity : string
}.

Record DB := {
  allsongs : list SongRow;
  artists : list ArtistRow;
  albums : list AlbumRow;
  genre : list GenreRow;
  playlists : list PlaylistRow;
  artists_bridge : list BridgeRow;
  album_bridge : list BridgeRow;
  genre_bridge : list BridgeRow;
  playlist_bridge : list BridgeRow
}.

Definition set_allsongs (v : list SongRow) (d : DB) : DB :=
  {| allsongs := v; artists := artists d; albums := albums d;
     genre := genre d; playlists := playlists d;
     artists_bridge := artists_bridge d; album_bridge := album_bridge d;
     genre_bridge := genre_bridge d; playlist_bridge := playlist_bridge d |}.

Definition set_artists (v : list ArtistRow) (d : DB) : DB :=
  {| allsongs := allsongs d; artists := v; albums := albums d;
     genre := genre d; playlists := playlists d;
     artists_bridge := artists_bridge d; album_bridge := album_bridge d;
     genre_bridge := genre_bridge d; playlist_bridge := playlist_bridge d |}.

Definition set_albums (v : list AlbumRow) (d : DB) : DB :=
  {| allsongs := allsongs d; artists := artists d; albums := v;
     genre := genre d; playlists := playlists d;
     artists_bridge := artists_bridge d; album_bridge := album_bridge d;
     genre_bridge := genre_bridge d; playlist_bridge := playlist_bridge d |}.

Definition set_genre (v : list GenreRow) (d : DB) : DB :=
  {| allsongs := allsongs d; artists := artists d; albums := albums d;
     genre := v; playlists := playlists d;
     artists_bridge := artists_bridge d; album_bridge := album_bridge d;
     genre_bridge := genre_bridge d; playlist_bridge := playlist_bridge d |}.

Definition set_playlists (v : list PlaylistRow) (d : DB) : DB :=
  {| allsongs := allsongs d; artists := artists d; albums := albums d;
     genre := genre d; playlists := v;
     artists_bridge := artists_bridge d; album_bridge := album_bridge d;
     genre_bridge := genre_bridge d; playlist_bridge := playlist_bridge d |}.

Definition set_artists_bridge (v : list BridgeRow) (d : DB) : DB :=
  {| allsongs := allsongs d; artists := artists d; albums := albums d;
     genre := genre d; playlists := playlists d;
     artists_bridge := v; album_bridge := album_bridge d;
     genre_bridge := genre_bridge d; playlist_bridge := playlist_bridge d |}.

Definition set_album_bridge (v : list BridgeRow) (d : DB) : DB :=
  {| allsongs := allsongs d; artists := artists d; albums := albums d;
     genre := genre d; playlists := playlists d;
     artists_bridge := artists_bridge d; album_bridge := v;
     genre_bridge := genre_bridge d; playlist_bridge := playlist_bridge d |}.

Definition set_genre_bridge (v : list BridgeRow) (d : DB) : DB :=
  {| allsongs := allsongs d; artists := artists d; albums := albums d;
     genre := genre d; playlists := playlists d;
     artists_bridge := artists_bridge d; album_bridge := album_bridge d;
     genre_bridge := v; playlist_bridge := playlist_bridge d |}.

Definition set_playlist_bridge (v : list BridgeRow) (d : DB) : DB :=
  {| allsongs := allsongs d; artists := artists d; albums := albums d;
     genre := genre d; playlists := playlists d;
     artists_bridge := artists_bridge d; album_bridge := album_bridge d;
     genre_bridge := genre_bridge d; playlist_bridge := v |}.

Definition empty_db : DB :=
  {| allsongs := []; artists := []; albums := []; genre := [];
     playlists := []; artists_bridge := []; album_bridge := [];
     genre_bridge := []; playlist_bridge := [] |}.

(** [db.delete(table, { column: value })] removes the rows whose column
    equals the value. *)
Definition delete_where {Row : Type} (col : Row -> string) (value : string)
    (rows : list Row) : list Row :=
  filter (fun r => negb (col r =? value)) rows.

(** [SELECT count(id) FROM bridge WHERE column = ?]; [id] is the bridge
    table's own key, never NULL, so every matching row counts. *)
Definition count_where {Row : Type} (col : Row -> string) (value : string)
    (rows : list Row) : nat :=
  length (filter (fun r => col r =? value) rows).

(* ================================================================= *)
(** ** Query builder *)

(** [sortOptions]: [{ type, asc }]. *)
Record sortOptions := {
  type : string;
  asc : bool
}.

(** A property of a [SongAPIOptions] object: a category object with its
    column predicates, the [sortBy] object or the [inclusive] flag.  The
    options object is the list [Object.entries] yields. *)
Inductive SongValue :=
| SObject (props : list (string * string))
| SSort (sortBy : sortOptions)
| SBool (b : bool).

Definition SongAPIOptions := list (string * SongValue).

(** A property of an [EntityApiOptions] object: [Partial<Entity> | boolean]
    under a category key, a boolean under [inclusive]. *)
Inductive EntityValue :=
| EObject (props : list (string * string))
| EBool (b : bool).

Definition EntityApiOptions := list (string * EntityValue).

Fixpoint lookup {V : Type} (key : string) (o : list (string * V)) : option V :=
  match o with
  | [] => None
  | (k, v) :: rest => if k =? key then Some v else lookup key rest
  end.

(** [options.inclusive] as a condition. *)
Definition song_inclusive (options : SongAPIOptions) : bool :=
  match lookup "inclusive" options with
  | Some (SBool b) => b
  | Some _ => true
  | None => false
  end.

Definition entity_inclusive (options : EntityApiOptions) : bool :=
  match lookup "inclusive" options with
  | Some (EBool b) => b
  | Some _ => true
  | None => false
  end.

(** [options?.sortBy] *)
Definition song_sortBy (options : option SongAPIOptions) : option sortOptions :=
  match options with
  | Some o => match lookup "sortBy" o with
              | Some (SSort s) => Some s
              | _ => None
              end
  | None => None
  end.

(** A value spliced into a template literal. *)
Definition template (v : option string) : string :=
  match v with Some s => s | None => "undefined" end.

Definition getTableByProperty (key : string) : option string :=
  if key =? "song" then Some "allsongs"
  else if key =? "album" then Some "albums"
  else if key =? "artist" then Some "artists"
  else if key =? "genre" then Some "genre"
  else if key =? "playlist" then Some "playlists"
  else None.

Definition getTitleColByProperty (key : string) : option string :=
  if key =? "song" then Some "title"
  else if key =? "album" then Some "album_name"
  else if key =? "artist" then Some "artist_name"
  else if key =? "genre" then Some "genre_name"
  else if key =? "playlist" then Some "playlist_name"
  else None.

(** The closure [addANDorOR]: the connective and the new [isFirst]. *)
Definition addANDorOR (inclusive isFirst : bool) : string * bool :=
  (if negb isFirst then (if inclusive then "AND" else "OR") else "", false).

Record WhereState := {
  isFirst : bool;
  where_clause : string;
  args : list string
}.

(** The inner loop of [populateWhereQuery] over the entries of one
    category object. *)
Fixpoint where_props (inclusive : bool) (tableName : option string)
    (props : list (string * string)) (st : WhereState) : WhereState :=
  match props with
  | [] => st
  | (innerKey, innerValue) :: rest =>
      let (str, first') := addANDorOR inclusive (isFirst st) in
      where_props inclusive tableName rest
        {| isFirst := first';
           where_clause := where_clause st ++ str ++ " " ++ template tableName
                             ++ "." ++ innerKey ++ " LIKE ?";
           args := JS.push (args st) ("%" ++ innerValue ++ "%") |}
  end.

Definition song_entries (v : SongValue) : list (string * string) :=
  match v with SObject props => props | _ => [] end.

(** The outer loop of [populateWhereQuery]. *)
Fixpoint where_keys (inclusive : bool) (entries : SongAPIOptions)
    (st : WhereState) : WhereState :=
  match entries with
  | [] => st
  | (key, value) :: rest =>
      if negb (key =? "inclusive") && negb (key =? "sortBy") then
        where_keys inclusive rest
          (where_props inclusive (getTableByProperty key) (song_entries value) st)
      else where_keys inclusive rest st
  end.

Definition populateWhereQuery (options : option SongAPIOptions)
  : string * list string :=
  match options with
  | Some o =>
      let st := where_keys (song_inclusive o) o
                  {| isFirst := true; where_clause := "WHERE "; args := [] |} in
      if (length (args st) =? 0)%nat then ("", [])
      else (where_clause st, args st)
  | None => ("", [])
  end.

Definition addOrderClause (sortBy : option sortOptions) : string :=
  match sortBy with
  | Some s =>
      "ORDER BY " ++ (if type s =? "name" then "title" else "date_added")
        ++ " " ++ (if asc s then "ASC" else "DESC")
  | None => ""
  end.

Definition newline : string := String (ascii_of_nat 10) "".

Section SongQuery.

(** The clauses built by the methods of [DBUtils], taken as given. *)
Variable addGroupConcatClause : string.
Variable addLeftJoinClause : string.
Variable addExcludeWhereClause : bool -> option (list string) -> string.

(** The statement and the bound arguments [getSongByOptions] hands to
    [db.query]. *)
Definition getSongByOptions_query (options : option SongAPIOptions)
    (exclude : option (list string)) : string * list string :=
  let (where_, args_) := populateWhereQuery options in
  ("SELECT *, " ++ addGroupConcatClause ++ " FROM allsongs" ++ newline
     ++ "      " ++ addLeftJoinClause ++ newline
     ++ "        " ++ where_ ++ newline
     ++ "        "
     ++ addExcludeWhereClause (length args_ =? 0)%nat exclude
     ++ " GROUP BY allsongs._id " ++ addOrderClause (song_sortBy options),
   args_).

End SongQuery.

(** The state of the loop of [getEntityByOptions]: the source's variables,
    and with them the tables and the predicates the text stands for. *)
Record EntityState := {
  e_isFirst : bool;
  query : string;
  e_where : string;
  e_args : list string;
  orderBy : option string;
  from_tables : list string;
  predicates : list (string * string)
}.

Fixpoint entity_props (inclusive : bool) (props : list (string * string))
    (st : EntityState) : EntityState :=
  match props with
  | [] => st
  | (innerKey, innerValue) :: rest =>
      let (str, first') := addANDorOR inclusive (e_isFirst st) in
      entity_props inclusive rest
        {| e_isFirst := first';
           query := query st;
           e_where := e_where st ++ str ++ " " ++ innerKey ++ " LIKE ?";
           e_args := JS.push (e_args st) innerValue;
           orderBy := orderBy st;
           from_tables := from_tables st;
           predicates := JS.push (predicates st) (innerKey, innerValue) |}
  end.

Fixpoint entity_keys (inclusive : bool) (entries : EntityApiOptions)
    (st : EntityState) : EntityState :=
  match entries with
  | [] => st
  | (key, value) :: rest =>
      match getTableByProperty key with
      | Some tableName =>
          let st1 :=
            {| e_isFirst := e_isFirst st;
               query := query st ++ tableName ++ " ";
               e_where := e_where st;
               e_args := e_args st;
               orderBy := Some (tableName ++ "."
                                  ++ template (getTitleColByProperty key));
               from_tables := JS.push (from_tables st) tableName;
               predicates := predicates st |} in
          match value with
          | EBool true => st1
          | EObject props => entity_props inclusive props st1
          | EBool false => entity_keys inclusive rest st1
          end
      | None => entity_keys inclusive rest st
      end
  end.

Definition getEntityByOptions_state (options : EntityApiOptions) : EntityState :=
  entity_keys (entity_inclusive options) options
    {| e_isFirst := true; query := "SELECT * FROM "; e_where := "WHERE ";
       e_args := []; orderBy := None; from_tables := []; predicates := [] |}.

(** The statement and the bound arguments [getEntityByOptions] hands to
    [db.query]. *)
Definition getEntityByOptions_query (options : EntityApiOptions)
  : string * list string :=
  let st := getEntityByOptions_state options in
  (query st ++ " " ++ (if (0 <? length (e_args st))%nat then e_where st else "")
     ++ " ORDER BY " ++ template (orderBy st) ++ " ASC",
   e_args st).

(** Running such a statement on one table: the rows that satisfy the
    LIKE predicates (all of them under AND, one of them under OR, every
    row when there is none), ordered by the title column.  [cell] reads a
    column as text and is [None] for a name that is no column of the
    table; the statement then fails, as it does for a FROM list that is
    not this one table. *)
Definition like_row {Row : Type} (cell : string -> option (Row -> option string))
    (inclusive : bool) (preds : list (string * string)) (r : Row) : bool :=
  let test (p : string * string) :=
    match cell (fst p) with
    | Some col => SQL.like_text (col r) (snd p)
    | None => false
    end in
  match preds with
  | [] => true
  | _ => if inclusive then forallb test preds else existsb test preds
  end.

Definition run_entity_query {Row : Type} (table : string)
    (cell : string -> option (Row -> option string))
    (title_col : Row -> option string)
    (options : EntityApiOptions) (rows : list Row) : option (list Row) :=
  let st := getEntityByOptions_state options in
  match from_tables st with
  | [t] =>
      if (t =? table)
         && forallb (fun p => match cell (fst p) with
                              | Some _ => true | None => false end)
                    (predicates st)
      then Some (SQL.order_by_asc title_col
                   (filter (like_row cell (entity_inclusive options)
                              (predicates st)) rows))
      else None
  | _ => None
  end.

Definition album_cell (column : string) : option (AlbumRow -> option string) :=
  if column =? "album_id" then Some (fun r => Some (album_id r))
  else if column =? "album_name" then Some album_name
  else if column =? "album_coverPath_low" then Some album_coverPath_low
  else if column =? "album_coverPath_high" then Some album_coverPath_high
  else if column =? "album_artist" then Some album_artist
  else if column =? "album_song_count"
       then Some (fun r => Some (JS.index_key (album_song_count r)))
  else None.

Definition artist_cell (column : string) : option (ArtistRow -> option string) :=
  if column =? "artist_id" then Some (fun r => Some (artist_id r))
  else if column =? "artist_name" then Some artist_name
  else if column =? "artist_coverPath" then Some artist_coverPath
  else if column =? "artist_song_count"
       then Some (fun r => Some (JS.index_key (artist_song_count r)))
  else None.

Definition genre_cell (column : string) : option (GenreRow -> option string) :=
  if column =? "genre_id" then Some (fun r => Some (genre_id r))
  else if column =? "genre_name" then Some genre_name
  else if column =? "genre_song_count"
       then Some (fun r => Some (JS.index_key (genre_song_count r)))
  else None.

(** [getEntityByOptions<Album>], [<artists>] and [<Genre>]. *)
Definition getEntityByOptions_albums (options : EntityApiOptions) (d : DB)
  : option (list AlbumRow) :=
  run_entity_query "albums" album_cell album_name options (albums d).

Definition getEntityByOptions_artists (options : EntityApiOptions) (d : DB)
  : option (list ArtistRow) :=
  run_entity_query "artists" artist_cell artist_name options (artists d).

Definition getEntityByOptions_genre (options : EntityApiOptions) (d : DB)
  : option (list GenreRow) :=
  run_entity_query "genre" genre_cell genre_name options (genre d).

(** The LIKE pattern of a substring match on [value]. *)
Definition substring_pattern (value : string) : string := "%" ++ value ++ "%".

(** A value that holds neither wild card of LIKE, and one that begins
    where a character begins, as every text does. *)
Fixpoint no_wildcard (value : string) : bool :=
  match value with
  | String c value' =>
      negb (Ascii.eqb c "%") && negb (Ascii.eqb c "_") && no_wildcard value'
  | EmptyString => true
  end.

Definition starts_character (value : string) : bool :=
  match value with
  | String c _ => negb (SQL.is_continuation c)
  | EmptyString => true
  end.

(** The predicates of an entity query as a reader of the SQL sees them:
    [column LIKE ?] in order, the connective before every one but the
    first. *)
Fixpoint join_entity_predicates (connective : string) (columns : list string)
    (first : bool) : string :=
  match columns with
  | [] => ""
  | column :: rest =>
      (if first then "" else connective) ++ " " ++ column ++ " LIKE ?"
        ++ join_entity_predicates connective rest false
  end.

(** The values a caller gives as predicates: for a song filter those of
    every category object, for an entity filter those of the category
    object the loop stops at. *)
Definition song_predicate_values (options : SongAPIOptions) : list string :=
  flat_map
    (fun e => if negb (fst e =? "inclusive") && negb (fst e =? "sortBy")
              then map snd (song_entries (snd e)) else [])
    options.

Fixpoint entity_predicate_values (options : EntityApiOptions) : list string :=
  match options with
  | [] => []
  | (key, value) :: rest =>
      match getTableByProperty key, value with
      | Some _, EObject props => map snd props
      | Some _, EBool true => []
      | _, _ => entity_predicate_values rest
      end
  end.

(** The four queries of [searchAll]: the statement and arguments of the
    song query, and those of the album, artist and genre queries. *)
Definition searchAll_queries
    (addGroupConcatClause addLeftJoinClause : string)
    (addExcludeWhereClause : bool -> option (list string) -> string)
    (term : string) (exclude : option (list string))
  : list (string * list string) :=
  [ getSongByOptions_query addGroupConcatClause addLeftJoinClause
      addExcludeWhereClause (Some [("song", SObject [("path", term)])]) exclude;
    getEntityByOptions_query [("album", EObject [("album_name", term)])];
    getEntityByOptions_query [("artist", EObject [("artist_name", term)])];
    getEntityByOptions_query [("genre", EObject [("genre_name", term)])] ].

(* ================================================================= *)
(** ** Removing a song *)

(** [db.queryFirstCell]: the cell of the first row, [undefined] when
    there is no row. *)
Definition queryFirstCell {Row : Type} (cell : Row -> option string)
    (rows : list Row) : option string :=
  match rows with
  | r :: _ => cell r
  | [] => None
  end.

(** A row of [SELECT count(id) as count, column FROM bridge WHERE column = ?]. *)
Record CountRow := {
  count : nat;
  counted : string
}.

Definition getCountBySong (bridge : list BridgeRow) (song_id : string)
  : list CountRow :=
  let data := filter (fun r => song r =? song_id) bridge in
  flat_map
    (fun i => [ {| count := count_where entity (entity i) bridge;
                   counted := entity i |} ])
    data.

(** [if (v) pathsToRemove.push(v)] *)
Definition push_if_truthy (pathsToRemove : list string) (v : option string)
  : list string :=
  match v with
  | Some p => if JS.truthy v then JS.push pathsToRemove p else pathsToRemove
  | None => pathsToRemove
  end.

(** [row?.column] *)
Definition opt_chain {Row : Type} (row : option Row) (col : Row -> option string)
  : option string :=
  match row with Some r => col r | None => None end.

(** The loop over [album_ids]; [None] stands for a statement that throws. *)
Fixpoint remove_albums (album_ids : list CountRow) (d : DB)
    (pathsToRemove : list string) : option (DB * list string) :=
  match album_ids with
  | [] => Some (d, pathsToRemove)
  | id :: rest =>
      if (count id =? 1)%nat then
        match getEntityByOptions_albums
                [("album", EObject [("album_id", counted id)])] d with
        | Some found =>
            let album := hd_error found in
            let d' := set_albums (delete_where album_id (counted id) (albums d)) d in
            let paths1 := push_if_truthy pathsToRemove
                            (opt_chain album album_coverPath_low) in
            let paths2 := push_if_truthy paths1
                            (opt_chain album album_coverPath_high) in
            remove_albums rest d' paths2
        | None => None
        end
      else remove_albums rest d pathsToRemove
  end.

(** The loop over [artist_ids]. *)
Fixpoint remove_artists (artist_ids : list CountRow) (d : DB)
    (pathsToRemove : list string) : option (DB * list string) :=
  match artist_ids with
  | [] => Some (d, pathsToRemove)
  | id :: rest =>
      if (count id =? 1)%nat then
        match getEntityByOptions_artists
                [("artist", EObject [("artist_id", counted id)])] d with
        | Some found =>
            let artist := hd_error found in
            let d' := set_artists (delete_where artist_id (counted id) (artists d)) d in
            remove_artists rest d'
              (push_if_truthy pathsToRemove (opt_chain artist artist_coverPath))
        | None => None
        end
      else remove_artists rest d pathsToRemove
  end.

(** What the loops over [album_ids] and [artist_ids] leave of the
    [albums] and [artists] tables. *)
Definition albums_left (album_ids : list CountRow) (rows : list AlbumRow)
  : list AlbumRow :=
  fold_left
    (fun rows id => if (count id =? 1)%nat
                    then delete_where album_id (counted id) rows else rows)
    album_ids rows.

Definition artists_left (artist_ids : list CountRow) (rows : list ArtistRow)
  : list ArtistRow :=
  fold_left
    (fun rows id => if (count id =? 1)%nat
                    then delete_where artist_id (counted id) rows else rows)
    artist_ids rows.

(** The five [db.delete] calls of the transaction. *)
Definition delete_song_rows (song_id : string) (d : DB) : DB :=
  let d1 := set_artists_bridge (delete_where song song_id (artists_bridge d)) d in
  let d2 := set_album_bridge (delete_where song song_id (album_bridge d1)) d1 in
  let d3 := set_genre_bridge (delete_where song song_id (genre_bridge d2)) d2 in
  let d4 := set_playlist_bridge (delete_where song song_id (playlist_bridge d3)) d3 in
  set_allsongs (delete_where _id song_id (allsongs d4)) d4.

(** The transaction of [removeSong]: the new database and
    [pathsToRemove], or [None] when a statement throws and the
    transaction is rolled back. *)
Definition removeSong_transaction (song_id : string) (d : DB)
  : option (DB * list string) :=
  let album_ids := getCountBySong (album_bridge d) song_id in
  let artist_ids := getCountBySong (artists_bridge d) song_id in
  let this_song := filter (fun r => _id r =? song_id) (allsongs d) in
  let songCoverPath_low := queryFirstCell song_coverPath_low this_song in
  let songCoverPath_high := queryFirstCell song_coverPath_high this_song in
  let paths1 := push_if_truthy [] songCoverPath_low in
  let paths2 := push_if_truthy paths1 songCoverPath_high in
  let d1 := delete_song_rows song_id d in
  match remove_albums album_ids d1 paths2 with
  | Some (d2, paths3) => remove_artists artist_ids d2 paths3
  | None => None
  end.

(** [fs.promises.rm(path, { force: true })] is a call into Node.js and the
    operating system, and its outcome is taken as given.  The file system
    is the list of the paths the calls have removed so far, together with
    the answer it gives to the next call after such a list: no error, or
    the error the call is rejected with (the [code] of the error:
    EACCES, EPERM, ENOTDIR, EBUSY, ...).  Which calls fail is left to the
    file system; with [force] Node.js reports no error for a path that
    does not exist. *)
Definition FsError := string.

Record FS := {
  removed : list string;
  rm_result : list string -> string -> option FsError
}.

Definition rm_force (path : string) (fs : FS) : FsError + FS :=
  match rm_result fs (removed fs) path with
  | Some e => inl e
  | None => inr {| removed := JS.push (removed fs) path; rm_result := rm_result fs |}
  end.

(** [for (const path of pathsToRemove) await fsP.rm(path, { force: true })]:
    a rejected [await] leaves the loop and the function. *)
Fixpoint remove_paths (pathsToRemove : list string) (fs : FS) : FsError * FS + FS :=
  match pathsToRemove with
  | [] => inr fs
  | path :: rest =>
      match rm_force path fs with
      | inr fs' => remove_paths rest fs'
      | inl e => inl (e, fs)
      end
  end.

(** The file system after the calls on [done] have succeeded, and the
    condition that they do: each call, after the ones before it, meets
    no error. *)
Definition after (fs : FS) (done : list string) : FS :=
  {| removed := (removed fs ++ done)%list; rm_result := rm_result fs |}.

Definition all_succeed (fs : FS) (paths : list string) : Prop :=
  forall done path rest,
    paths = (done ++ path :: rest)%list ->
    rm_result fs (removed fs ++ done)%list path = None.

Inductive Failure :=
| StatementFailed
| RmFailed (e : FsError).

(** The promise [removeSong] returns, with the database and the file
    system it leaves. *)
Inductive Outcome :=
| Resolved (d : DB) (fs : FS)
| Rejected (why : Failure) (d : DB) (fs : FS).

Definition removeSong (song_id : string) (d : DB) (fs : FS) : Outcome :=
  match removeSong_transaction song_id d with
  | Some (d', pathsToRemove) =>
      match remove_paths pathsToRemove fs with
      | inr fs' => Resolved d' fs'
      | inl (e, fs') => Rejected (RmFailed e) d' fs'
      end
  | None => Rejected StatementFailed d fs
  end.

Definition outcome_db (o : Outcome) : DB :=
  match o with Resolved d _ => d | Rejected _ d _ => d end.

(* ================================================================= *)
(** ** Song counts and playlists *)

(** [UPDATE albums SET album_song_count = n WHERE album_id = ?] *)
Definition set_album_song_count (id : string) (n : nat) (rows : list AlbumRow)
  : list AlbumRow :=
  map (fun r =>
         if album_id r =? id then
           {| album_id := album_id r; album_name := album_name r;
              album_coverPath_low := album_coverPath_low r;
              album_coverPath_high := album_coverPath_high r;
              album_artist := album_artist r; album_song_count := n |}
         else r)
      rows.

Definition updateSongCountAlbum (d : DB) : DB :=
  fold_left
    (fun d' id =>
       set_albums
         (set_album_song_count id (count_where entity id (album_bridge d'))
            (albums d'))
         d')
    (map album_id (albums d)) d.

Definition set_playlist_song_count (id : string) (n : nat)
    (rows : list PlaylistRow) : list PlaylistRow :=
  map (fun r =>
         if playlist_id r =? id then
           {| playlist_id := playlist_id r; playlist_name := playlist_name r;
              playlist_desc := playlist_desc r;
              playlist_coverPath := playlist_coverPath r;
              playlist_song_count := n |}
         else r)
      rows.

Definition updateSongCountPlaylists (d : DB) : DB :=
  fold_left
    (fun d' id =>
       set_playlists
         (set_playlist_song_count id
            (count_where entity id (playlist_bridge d')) (playlists d'))
         d')
    (map playlist_id (playlists d)) d.

(** [db.delete('playlist_bridge', { playlist: playlist, song: s })]; the
    [entity] column of [playlist_bridge] is [playlist]. *)
Definition delete_playlist_song (playlist s : string) (rows : list BridgeRow)
  : list BridgeRow :=
  filter (fun r => negb ((entity r =? playlist) && (song r =? s))) rows.

(** [for (const s in songs)] visits the keys of the array, not its
    elements. *)
Definition removeFromPlaylist (playlist : string) (songs : list string) (d : DB)
  : DB :=
  let d' :=
    fold_left
      (fun d' s =>
         set_playlist_bridge (delete_playlist_song playlist s (playlist_bridge d')) d')
      (JS.array_keys (length songs)) d in
  updateSongCountPlaylists d'.

(* ================================================================= *)
(** ** Storing a song *)

(** The database together with the number of identifiers [v4()] has
    handed out. *)
Record World := {
  db : DB;
  v4_calls : nat
}.

(** Statements run one after the other on the world. *)
Definition M (A : Type) : Type := World -> A * World.

Definition ret {A : Type} (a : A) : M A := fun w => (a, w).

Definition bind {A B : Type} (c : M A) (k : A -> M B) : M B :=
  fun w => let (a, w') := c w in k a w'.

Declare Scope db_scope.
Delimit Scope db_scope with db.
Notation "x <- c ;; k" := (bind c (fun x => k))
  (at level 61, c at next level, right associativity) : db_scope.
Notation "c ;; k" := (bind c (fun _ => k))
  (at level 61, right associativity) : db_scope.

(** A SELECT reads the database, any other statement rewrites it. *)
Definition select {A : Type} (q : DB -> A) : M A := fun w => (q (db w), w).

Definition run (f : DB -> DB) : M unit :=
  fun w => (tt, {| db := f (db w); v4_calls := v4_calls w |}).

(** Modelled from the spec: [marshalSong], inherited from [DBUtils] of
    [./utils], which turns the song into its row of [allsongs]; the row
    carries the song's identifier, path, title and two cover paths. *)
Definition marshalSong (newDoc : Doc.Song) : SongRow :=
  {| _id := Doc._id newDoc;
     path := Doc.path newDoc;
     title := Some (Doc.title newDoc);
     song_coverPath_low := Doc.song_coverPath_low newDoc;
     song_coverPath_high := Doc.song_coverPath_high newDoc |}.

Section Store.

(** The identifiers the successive calls of [v4()] return. *)
Variable uuid : nat -> string.

Definition v4 : M string :=
  fun w => (uuid (v4_calls w), {| db := db w; v4_calls := S (v4_calls w) |}).

(** The loop of [storeArtists]. *)
Fixpoint storeArtists_loop (artists_ : list string) (artistID : list string)
  : M (list string) :=
  match artists_ with
  | [] => ret artistID
  | a :: rest =>
      (id <- select (fun d =>
               queryFirstCell (fun r => Some (artist_id r))
                 (filter (fun r => SQL.eq_nocase (artist_name r) (JS.trim a))
                    (artists d))) ;;
       match id with
       | Some found =>
           if JS.truthy id then storeArtists_loop rest (JS.push artistID found)
           else
             id' <- v4 ;;
             run (fun d => set_artists
                    (JS.push (artists d)
                       {| artist_id := id'; artist_name := Some (JS.trim a);
                          artist_coverPath := None; artist_song_count := 0 |}) d) ;;
             storeArtists_loop rest (JS.push artistID id')
       | None =>
           id' <- v4 ;;
           run (fun d => set_artists
                  (JS.push (artists d)
                     {| artist_id := id'; artist_name := Some (JS.trim a);
                        artist_coverPath := None; artist_song_count := 0 |}) d) ;;
           storeArtists_loop rest (JS.push artistID id')
       end)%db
  end.

Definition storeArtists (artists_ : list string) : M (list string) :=
  storeArtists_loop artists_ [].

(** [INSERT OR REPLACE INTO albums (album_id, album_name,
    album_coverPath_low, album_coverPath_high, album_artist)]: a row
    with the same [album_id], the unique identifier of the album, is
    deleted first, and the song count of the new row is the column's
    default. *)
Definition insert_or_replace_album (id : string) (album : Doc.Album)
    (rows : list AlbumRow) : list AlbumRow :=
  JS.push (delete_where album_id id rows)
    {| album_id := id;
       album_name := Doc.album_name album;
       album_coverPath_low := Doc.album_coverPath_low album;
       album_coverPath_high := Doc.album_coverPath_high album;
       album_artist := Doc.album_artist album;
       album_song_count := 0 |}.

Definition storeAlbum (album : Doc.Album) : M (option string) :=
  match Doc.album_name album with
  | Some name =>
      if JS.truthy (Doc.album_name album) then
        (found <- select (fun d =>
                    queryFirstCell (fun r => Some (album_id r))
                      (filter (fun r => SQL.eq_nocase (album_name r) (JS.trim name))
                         (albums d))) ;;
         id <- (if negb (JS.truthy found) then v4
                else ret (match found with Some i => i | None => "" end)) ;;
         run (fun d => set_albums (insert_or_replace_album id album (albums d)) d) ;;
         ret (Some id))%db
      else ret None
  | None => ret None
  end.

(** The loop of [storeGenre]. *)
Fixpoint storeGenre_loop (genre_ : list string) (genreID : list string)
  : M (list string) :=
  match genre_ with
  | [] => ret genreID
  | a :: rest =>
      (id <- select (fun d =>
               queryFirstCell (fun r => Some (genre_id r))
                 (filter (fun r => SQL.eq_nocase (genre_name r) a) (genre d))) ;;
       match id with
       | Some found =>
           if JS.truthy id then storeGenre_loop rest (JS.push genreID found)
           else
             id' <- v4 ;;
             run (fun d => set_genre
                    (JS.push (genre d)
                       {| genre_id := id'; genre_name := Some a;
                          genre_song_count := 0 |}) d) ;;
             storeGenre_loop rest (JS.push genreID id')
       | None =>
           id' <- v4 ;;
           run (fun d => set_genre
                  (JS.push (genre d)
                     {| genre_id := id'; genre_name := Some a;
                        genre_song_count := 0 |}) d) ;;
           storeGenre_loop rest (JS.push genreID id')
       end)%db
  end.

Definition storeGenre (genre_ : option (list string)) : M (list string) :=
  match genre_ with
  | Some g => storeGenre_loop g []
  | None => ret []
  end.

Definition storeArtistBridge (artistID : list string) (songID : string) : M unit :=
  run (fun d =>
         fold_left
           (fun d' i => set_artists_bridge
                          (JS.push (artists_bridge d') {| song := songID; entity := i |}) d')
           artistID d).

Definition storeGenreBridge (genreID : list string) (songID : string) : M unit :=
  run (fun d =>
         fold_left
           (fun d' i => set_genre_bridge
                          (JS.push (genre_bridge d') {| song := songID; entity := i |}) d')
           genreID d).

Definition storeAlbumBridge (albumID : option string) (songID : string) : M unit :=
  match albumID with
  | Some id =>
      if JS.truthy albumID then
        run (fun d => set_album_bridge
                        (JS.push (album_bridge d) {| song := songID; entity := id |}) d)
      else ret tt
  | None => ret tt
  end.

(** [newDoc.artists ? this.storeArtists(...newDoc.artists) : []] *)
Definition store_artistID (newDoc : Doc.Song) : M (list string) :=
  match Doc.artists newDoc with
  | Some names => storeArtists names
  | None => ret []
  end.

(** [newDoc.album ? this.storeAlbum(newDoc.album) : ''] *)
Definition store_albumID (newDoc : Doc.Song) : M (option string) :=
  match Doc.album newDoc with
  | Some album => storeAlbum album
  | None => ret (Some "")
  end.

Definition store (newDoc : Doc.Song) : M unit :=
  (artistID <- store_artistID newDoc ;;
   albumID <- store_albumID newDoc ;;
   genreID <- storeGenre (Doc.genre newDoc) ;;
   let marshaledSong := marshalSong newDoc in
   existing <- select (fun d => filter (fun r => _id r =? _id marshaledSong)
                                  (allsongs d)) ;;
   if (length existing =? 0)%nat then
     run (fun d => set_allsongs (JS.push (allsongs d) marshaledSong) d) ;;
     storeArtistBridge artistID (_id marshaledSong) ;;
     storeGenreBridge genreID (_id marshaledSong) ;;
     storeAlbumBridge albumID (_id marshaledSong)
   else ret tt)%db.

(** The first three statements of [store], which run whether or not the
    song is already stored. *)
Definition resolve (newDoc : Doc.Song)
  : M (list string * option string * list string) :=
  (artistID <- store_artistID newDoc ;;
   albumID <- store_albumID newDoc ;;
   genreID <- storeGenre (Doc.genre newDoc) ;;
   ret (artistID, albumID, genreID))%db.

End Store.

(** A supply of identifiers in the alphabet of [v4()]: lower case
    hexadecimal digits and hyphens. *)
Definition uuid_of_nat (n : nat) : string :=
  "00000000-0000-4000-8000-" ++ JS.index_key n.

Definition is_uuid_char (c : ascii) : bool :=
  let n := nat_of_ascii c in
  ((48 <=? n)%nat && (n <=? 57)%nat) || ((97 <=? n)%nat && (n <=? 102)%nat)
  || (n =? 45)%nat.

Fixpoint uuid_chars (s : string) : bool :=
  match s with
  | EmptyString => true
  | String c s' => is_uuid_char c && uuid_chars s'
  end.

(* ================================================================= *)
(** ** Sample databases *)

(** Two songs by one artist, the second also by another one. *)
Definition daft_punk : ArtistRow :=
  {| artist_id := "a1"; artist_name := Some "Daft Punk";
     artist_coverPath := Some "/covers/daft.png"; artist_song_count := 2 |}.

Definition db_shared_artist : DB :=
  set_allsongs
    [ {| _id := "s1"; path := Some "/music/one.mp3"; title := Some "One";
         song_coverPath_low := None; song_coverPath_high := None |};
      {| _id := "s2"; path := Some "/music/two.mp3"; title := Some "Two";
         song_coverPath_low := None; song_coverPath_high := None |} ]
    (set_artists
       [ daft_punk;
         {| artist_id := "b2"; artist_name := Some "Air";
            artist_coverPath := None; artist_song_count := 1 |} ]
       (set_artists_bridge
          [ {| song := "s1"; entity := "a1" |};
            {| song := "s2"; entity := "a1" |};
            {| song := "s2"; entity := "b2" |} ]
          empty_db)).

(** A playlist bridge with a row of a real song and two rows whose
    [song] is an array index. *)
Definition db_playlist : DB :=
  set_playlist_bridge
    [ {| song := "s1"; entity := "p" |};
      {| song := "1"; entity := "p" |};
      {| song := "0"; entity := "q" |} ]
    empty_db.

(** One album whose name contains, and is not, "ABC". *)
Definition album_xABCy : AlbumRow :=
  {| album_id := "c3"; album_name := Some "xABCy";
     album_coverPath_low := None; album_coverPath_high := None;
     album_artist := None; album_song_count := 0 |}.

Definition db_xABCy : DB := set_albums [album_xABCy] empty_db.

(** A song filter that asks for a descending sort by name, one with no
    sort specification, and one that asks for an ascending sort by date. *)
Definition filter_by_name_desc : option SongAPIOptions :=
  Some [ ("song", SObject [("title", "love")]);
         ("sortBy", SSort {| type := "name"; asc := false |}) ].

Definition filter_unsorted : option SongAPIOptions :=
  Some [ ("song", SObject [("title", "love")]) ].

Definition filter_by_date_asc : option SongAPIOptions :=
  Some [ ("song", SObject [("title", "love")]);
         ("sortBy", SSort {| type := "date"; asc := true |}) ].

(** A song with two cover files, on a file system that lets both be
    removed and on one where the first may not be unlinked. *)
Definition db_covers : DB :=
  set_allsongs
    [ {| _id := "s9"; path := Some "/music/nine.mp3"; title := Some "Nine";
         song_coverPath_low := Some "/covers/low.png";
         song_coverPath_high := Some "/covers/high.png" |} ]
    empty_db.

Definition fs_open : FS :=
  {| removed := []; rm_result := fun _ _ => None |}.

Definition fs_protected : FS :=
  {| removed := [];
     rm_result := fun _ path =>
                    if path =? "/covers/low.png" then Some "EACCES" else None |}.

(** Names with white space that is not ASCII around them: U+00A0 before
    and U+2003 after "Air", and U+FEFF before "Discovery". *)
Definition nbsp : string := String (ascii_of_nat 194) (String (ascii_of_nat 160) "").

Definition em_space : string :=
  String (ascii_of_nat 226) (String (ascii_of_nat 128) (String (ascii_of_nat 131) "")).

Definition bom : string :=
  String (ascii_of_nat 239) (String (ascii_of_nat 187) (String (ascii_of_nat 191) "")).

Definition air_padded : string := nbsp ++ "Air" ++ em_space.

Definition discovery_bom : string := bom ++ "Discovery".

(** "é", the two bytes C3 A9. *)
Definition e_acute : string :=
  String (ascii_of_nat 195) (String (ascii_of_nat 169) "").

(** An empty library, and songs to store in it: a song, the same
    identifier with another artist, a second song of the same album under
    other details, and a song whose names carry white space. *)
Definition world0 : World := {| db := empty_db; v4_calls := 0 |}.

Definition song_one : Doc.Song :=
  {| Doc._id := "s1"; Doc.path := Some "/music/one.mp3";
     Doc.title := "One More Time";
     Doc.song_coverPath_low := None; Doc.song_coverPath_high := None;
     Doc.album :=
       Some {| Doc.album_name := Some "Discovery";
               Doc.album_coverPath_low := Some "/covers/d_low.png";
               Doc.album_coverPath_high := Some "/covers/d_high.png";
               Doc.album_artist := Some "Daft Punk" |};
     Doc.artists := Some ["Daft Punk"];
     Doc.genre := Some ["House"] |}.

Definition song_one_again : Doc.Song :=
  {| Doc._id := "s1"; Doc.path := Some "/music/one.mp3";
     Doc.title := "One More Time";
     Doc.song_coverPath_low := None; Doc.song_coverPath_high := None;
     Doc.album := Doc.album song_one;
     Doc.artists := Some ["Air"];
     Doc.genre := Some ["House"] |}.

Definition song_two : Doc.Song :=
  {| Doc._id := "s2"; Doc.path := Some "/music/two.mp3";
     Doc.title := "Aerodynamic";
     Doc.song_coverPath_low := None; Doc.song_coverPath_high := None;
     Doc.album :=
       Some {| Doc.album_name := Some "discovery";
               Doc.album_coverPath_low := Some "/covers/new_low.png";
               Doc.album_coverPath_high := None;
               Doc.album_artist := Some "Various" |};
     Doc.artists := Some ["Daft Punk"];
     Doc.genre := Some ["House"] |}.

Definition song_spaced : Doc.Song :=
  {| Doc._id := "s3"; Doc.path := Some "/music/three.mp3";
     Doc.title := "Digital Love";
     Doc.song_coverPath_low := None; Doc.song_coverPath_high := None;
     Doc.album :=
       Some {| Doc.album_name := Some " Discovery";
               Doc.album_coverPath_low := None;
               Doc.album_coverPath_high := None;
               Doc.album_artist := None |};
     Doc.artists := Some ["  daft punk "];
     Doc.genre := Some [" house"] |}.

(** A song whose album name begins with U+00A0. *)
Definition song_nbsp : Doc.Song :=
  {| Doc._id := "s4"; Doc.path := Some "/music/four.mp3";
     Doc.title := "Veridis Quo";
     Doc.song_coverPath_low := None; Doc.song_coverPath_high := None;
     Doc.album :=
       Some {| Doc.album_name := Some (nbsp ++ "Discovery");
               Doc.album_coverPath_low := None;
               Doc.album_coverPath_high := None;
               Doc.album_artist := None |};
     Doc.artists := Some [air_padded];
     Doc.genre := None |}.

(* ================================================================= *)
(** ** The other operations of the class *)

(** [UPDATE artists SET artist_song_count = n WHERE artist_id = ?] *)
Definition set_artist_song_count (id : string) (n : nat) (rows : list ArtistRow)
  : list ArtistRow :=
  map (fun r =>
         if artist_id r =? id then
           {| artist_id := artist_id r; artist_name := artist_name r;
              artist_coverPath := artist_coverPath r; artist_song_count := n |}
         else r)
      rows.

Definition updateSongCountArtists (d : DB) : DB :=
  fold_left
    (fun d' id =>
       set_artists
         (set_artist_song_count id (count_where entity id (artists_bridge d'))
            (artists d'))
         d')
    (map artist_id (artists d)) d.

(** [UPDATE genre SET genre_song_count = n WHERE genre_id = ?] *)
Definition set_genre_song_count (id : string) (n : nat) (rows : list GenreRow)
  : list GenreRow :=
  map (fun r =>
         if genre_id r =? id then
           {| genre_id := genre_id r; genre_name := genre_name r;
              genre_song_count := n |}
         else r)
      rows.

Definition updateSongCountGenre (d : DB) : DB :=
  fold_left
    (fun d' id =>
       set_genre
         (set_genre_song_count id (count_where entity id (genre_bridge d'))
            (genre d'))
         d')
    (map genre_id (genre d)) d.

(** [db.update('allsongs', { song_coverPath_high, song_coverPath_low },
    ['_id = ?', id])] *)
Definition updateSongCover (id coverHigh coverLow : string) (d : DB) : DB :=
  set_allsongs
    (map (fun r =>
            if _id r =? id then
              {| _id := _id r; path := path r; title := title r;
                 song_coverPath_low := Some coverLow;
                 song_coverPath_high := Some coverHigh |}
            else r)
       (allsongs d))
    d.

(** [db.update('albums', { album_coverPath_high: v }, ['album_id = ?', id])]
    and the same for the low resolution cover. *)
Definition set_album_coverPath_high (id v : string) (rows : list AlbumRow)
  : list AlbumRow :=
  map (fun r =>
         if album_id r =? id then
           {| album_id := album_id r; album_name := album_name r;
              album_coverPath_low := album_coverPath_low r;
              album_coverPath_high := Some v;
              album_artist := album_artist r;
              album_song_count := album_song_count r |}
         else r)
      rows.

Definition set_album_coverPath_low (id v : string) (rows : list AlbumRow)
  : list AlbumRow :=
  map (fun r =>
         if album_id r =? id then
           {| album_id := album_id r; album_name := album_name r;
              album_coverPath_low := Some v;
              album_coverPath_high := album_coverPath_high r;
              album_artist := album_artist r;
              album_song_count := album_song_count r |}
         else r)
      rows.

(** The transaction of [updateAlbumCovers].  [db.queryFirstRowObject]
    yields the first row, or an object without properties when there is
    none, so that [album_id], [high] and [low] are then [undefined]. *)
Definition updateAlbumCovers (songid coverHigh coverLow : string) (d : DB) : DB :=
  let album_id_ :=
    queryFirstCell (fun r => Some (entity r))
      (filter (fun r => song r =? songid) (album_bridge d)) in
  match album_id_ with
  | Some id =>
      if JS.truthy album_id_ then
        let row := hd_error (filter (fun r => album_id r =? id) (albums d)) in
        let high := opt_chain row album_coverPath_high in
        let low := opt_chain row album_coverPath_low in
        let d1 := if negb (JS.truthy high)
                  then set_albums (set_album_coverPath_high id coverHigh (albums d)) d
                  else d in
        if negb (JS.truthy low)
        then set_albums (set_album_coverPath_low id coverLow (albums d1)) d1
        else d1
      else d
  | None => d
  end.

(** The nested statement of [getDefaultCoverByArtist]: a subquery used as
    a value is its first row, NULL when it has none, and a comparison
    with NULL selects nothing. *)
Definition getDefaultCoverByArtist (id : string) (d : DB) : option string :=
  let song_ :=
    queryFirstCell (fun r => Some (song r))
      (filter (fun r => entity r =? id) (artists_bridge d)) in
  let album_ :=
    match song_ with
    | Some s => queryFirstCell (fun r => Some (entity r))
                  (filter (fun r => song r =? s) (album_bridge d))
    | None => None
    end in
  let row :=
    match album_ with
    | Some a => hd_error (filter (fun r => album_id r =? a) (albums d))
    | None => None
    end in
  opt_chain row album_coverPath_high.

(** [db.update('playlists', { playlist_coverPath: coverPath },
    ['playlist_id = ?', playlist_id])] *)
Definition updatePlaylistCoverPath (id coverPath : string) (d : DB) : DB :=
  set_playlists
    (map (fun r =>
            if playlist_id r =? id then
              {| playlist_id := playlist_id r; playlist_name := playlist_name r;
                 playlist_desc := playlist_desc r;
                 playlist_coverPath := Some coverPath;
                 playlist_song_count := playlist_song_count r |}
            else r)
       (playlists d))
    d.

(** [isPlaylistCoverExists]: [None] stands for the TypeError of reading
    [playlist_coverPath] of [undefined], when no playlist has the
    identifier. *)
Definition isPlaylistCoverExists (id : string) (d : DB) : option bool :=
  match filter (fun r => playlist_id r =? id) (playlists d) with
  | r :: _ => Some (match playlist_coverPath r with
                    | Some _ => true
                    | None => false
                    end)
  | [] => None
  end.

(** One turn of the loop of [addToPlaylist]. *)
Definition addToPlaylist_step (id : string) (coverExists : bool)
    (d : DB) (s : Doc.Song) : DB :=
  let cover := opt_chain (Doc.album s) Doc.album_coverPath_high in
  let d1 :=
    if negb coverExists then
      match cover with
      | Some c => if JS.truthy cover then updatePlaylistCoverPath id c d else d
      | None => d
      end
    else d in
  set_playlist_bridge
    (JS.push (playlist_bridge d1) {| song := Doc._id s; entity := id |}) d1.

(** [addToPlaylist]: [None] when [isPlaylistCoverExists] throws, before
    any statement has changed the database. *)
Definition addToPlaylist (id : string) (songs : list Doc.Song) (d : DB)
  : option DB :=
  match isPlaylistCoverExists id d with
  | Some coverExists =>
      Some (updateSongCountPlaylists
              (fold_left (addToPlaylist_step id coverExists) songs d))
  | None => None
  end.

Definition removePlaylist (id : string) (d : DB) : DB :=
  let d1 := set_playlist_bridge (delete_where entity id (playlist_bridge d)) d in
  set_playlists (delete_where playlist_id id (playlists d1)) d1.

Definition createPlaylist (uuid : nat -> string) (name desc imgSrc : string)
  : M string :=
  (id <- v4 uuid ;;
   run (fun d => set_playlists
          (JS.push (playlists d)
             {| playlist_id := id; playlist_name := Some name;
                playlist_desc := Some desc; playlist_coverPath := Some imgSrc;
                playlist_song_count := 0 |}) d) ;;
   ret id)%db.

(** The cover [addToPlaylist] leaves on a playlist that had none: that of
    the last song whose album has a high resolution cover. *)
Definition last_album_cover (songs : list Doc.Song) : option string :=
  fold_left
    (fun acc s =>
       let cover := opt_chain (Doc.album s) Doc.album_coverPath_high in
       if JS.truthy cover then cover else acc)
    songs None.

(** The WHERE clause as a reader of the SQL sees it: the predicates
    [table.column LIKE ?] in order, the connective before every one but
    the first. *)
Definition song_predicates (options : SongAPIOptions) : list (option string * string) :=
  flat_map
    (fun e => if negb (fst e =? "inclusive") && negb (fst e =? "sortBy")
              then map (fun p => (getTableByProperty (fst e), fst p))
                     (song_entries (snd e))
              else [])
    options.

Fixpoint join_predicates (connective : string)
    (preds : list (option string * string)) (first : bool) : string :=
  match preds with
  | [] => ""
  | (table, column) :: rest =>
      (if first then "" else connective) ++ " " ++ template table ++ "."
        ++ column ++ " LIKE ?" ++ join_predicates connective rest false
  end.

(** The WHERE clause of a song query and of an entity query on the
    properties [props] of its category object; the clause is left out
    when there is no predicate. *)
Definition song_where (options : SongAPIOptions) : string :=
  match song_predicates options with
  | [] => ""
  | _ => "WHERE "
           ++ join_predicates (if song_inclusive options then "AND" else "OR")
                (song_predicates options) true
  end.

Definition entity_where (inclusive : bool) (props : list (string * string))
  : string :=
  match props with
  | [] => ""
  | _ => "WHERE "
           ++ join_entity_predicates (if inclusive then "AND" else "OR")
                (map fst props) true
  end.

(** Names that no two rows share, up to ASCII case; a NULL name is shared
    with none. *)
Definition same_name (a b : option string) : bool :=
  match b with
  | Some v => SQL.eq_nocase a v
  | None => false
  end.

(** A cover recorded in the database. *)
Definition album_cover_in (d : DB) (p : string) : Prop :=
  exists r, In r (albums d)
            /\ (album_coverPath_low r = Some p \/ album_coverPath_high r = Some p).

Definition artist_cover_in (d : DB) (p : string) : Prop :=
  exists r, In r (artists d) /\ artist_coverPath r = Some p.

(** The identifier [storeAlbumBridge] links, if any. *)
Definition linked_album (albumID : option string) : list string :=
  match albumID with
  | Some id => if JS.truthy albumID then [id] else []
  | None => []
  end.

(** A library with a playlist that has no cover, for the examples. *)
Definition db_with_playlist : DB :=
  set_playlists
    [ {| playlist_id := "p1"; playlist_name := Some "Favourites";
         playlist_desc := None; playlist_coverPath := None;
         playlist_song_count := 0 |} ]
    (db (snd (store uuid_of_nat song_two
                (snd (store uuid_of_nat song_one world0))))).

(** The album row of [db_with_playlist]: it has a low resolution cover
    and no high resolution one. *)
Definition album_discovery : AlbumRow :=
  {| album_id := uuid_of_nat 1; album_name := Some "discovery";
     album_coverPath_low := Some "/covers/new_low.png";
     album_coverPath_high := None;
     album_artist := Some "Various"; album_song_count := 0 |}.

(** The dedup invariant of the [artists] table: no two rows share a name
    up to ASCII case, and no row has an empty identifier. *)
Definition artists_deduplicated (rows : list ArtistRow) : Prop :=
  ForallOrdPairs
    (fun r1 r2 => same_name (artist_name r1) (artist_name r2) = false) rows
  /\ Forall (fun r => artist_id r <> "") rows.

(** The rows of [albums] that [storeAlbum] finds for a name carry one
    identifier, which is not empty. *)
Definition album_name_settled (name : string) (rows : list AlbumRow) : Prop :=
  forall r r',
    In r rows -> In r' rows ->
    SQL.eq_nocase (album_name r) (JS.trim name) = true ->
    SQL.eq_nocase (album_name r') (JS.trim name) = true ->
    album_id r <> "" /\ album_id r' = album_id r.

(** The libraries on which a second [store] of a song changes nothing:
    identifiers of artists and genres are not empty, and the album name
    of the song, if it has one, has no white space around it and is
    settled. *)
Definition ready_for (newDoc : Doc.Song) (d : DB) : Prop :=
  Forall (fun r => artist_id r <> "") (artists d)
  /\ Forall (fun r => genre_id r <> "") (genre d)
  /\ match opt_chain (Doc.album newDoc) Doc.album_name with
     | Some name => JS.trim name = name /\ album_name_settled name (albums d)
     | None => True
     end.

(* ================================================================= *)
(** ** Basic facts about the primitives *)

Example trim_daft_punk : JS.trim "  daft punk " = "daft punk".
Proof. reflexivity. Qed.

Example trim_inner_space : JS.trim "a b " = "a b".
Proof. reflexivity. Qed.

(** White space outside ASCII is removed as well, at both ends. *)
Example trim_air_padded : JS.trim air_padded = "Air".
Proof. reflexivity. Qed.

Example trim_discovery_bom : JS.trim discovery_bom = "Discovery".
Proof. reflexivity. Qed.

Example trim_keeps_letters : JS.trim (e_acute ++ " ") = e_acute.
Proof. reflexivity. Qed.

Example nocase_daft_punk : SQL.nocase_eqb "Daft Punk" "daft punk" = true.
Proof. reflexivity. Qed.

Example like_substring : SQL.like "%ABC%" "xabcy" = true.
Proof. reflexivity. Qed.

Example like_whole_column : SQL.like "ABC" "xABCy" = false.
Proof. reflexivity. Qed.

Example like_one_character : SQL.like "a_c" "abc" = true.
Proof. reflexivity. Qed.

(** [_] stands for a character, not for a byte, and the run of [%] does
    not end within a character. *)
Example like_one_letter : SQL.like "caf_" ("caf" ++ e_acute) = true.
Proof. reflexivity. Qed.

Example like_two_letters : SQL.like "%__" e_acute = false.
Proof. reflexivity. Qed.

Example array_keys_3 : JS.array_keys 3 = ["0"; "1"; "2"].
Proof. reflexivity. Qed.

Example entity_query_text :
  getEntityByOptions_query
    [("album", EObject [("album_name", "x"); ("album_id", "y")]);
     ("inclusive", EBool true)]
  = ("SELECT * FROM albums  WHERE  album_name LIKE ?AND album_id LIKE ? ORDER BY albums.album_name ASC",
     ["x"; "y"]).
Proof. reflexivity. Qed.

Example where_query_text :
  populateWhereQuery
    (Some [("song", SObject [("title", "love")]);
           ("artist", SObject [("artist_name", "Bob")])])
  = ("WHERE  allsongs.title LIKE ?OR artists.artist_name LIKE ?",
     ["%love%"; "%Bob%"]).
Proof. reflexivity. Qed.

Lemma count_where_delete_where {Row : Type} (col : Row -> string) v rows :
  count_where col v (delete_where col v rows) = 0.
Proof.
  unfold count_where, delete_where.
  induction rows as [|r rows IH]; simpl; [reflexivity|].
  destruct (col r =? v) eqn:E; simpl; [exact IH|].
  rewrite E. exact IH.
Qed.

Lemma filter_filter_comm {A : Type} (p q : A -> bool) l :
  filter p (filter q l) = filter q (filter p l).
Proof.
  induction l as [|x l IH]; simpl; [reflexivity|].
  destruct (q x) eqn:Q, (p x) eqn:P; simpl; rewrite ?Q, ?P, ?IH; reflexivity.
Qed.

Lemma In_push {A : Type} (l : list A) x y : In y l -> In y (JS.push l x).
Proof. unfold JS.push. intros H. apply in_or_app. left. exact H. Qed.

Lemma In_push_if_truthy paths v y :
  In y paths -> In y (push_if_truthy paths v).
Proof.
  unfold push_if_truthy. intros H.
  destruct v as [p|]; [|exact H].
  destruct (JS.truthy (Some p)); [apply In_push|]; exact H.
Qed.

Lemma In_push_if_truthy_new paths p :
  p <> "" -> In p (push_if_truthy paths (Some p)).
Proof.
  intros H. unfold push_if_truthy, JS.truthy.
  apply String.eqb_neq in H. rewrite H. simpl.
  unfold JS.push. apply in_or_app. right. left. reflexivity.
Qed.

(* ================================================================= *)
(** ** The entity lookups of [removeSong] *)

Lemma albums_by_id (x : string) (d : DB) :
  getEntityByOptions_albums [("album", EObject [("album_id", x)])] d
  = Some (SQL.order_by_asc album_name
            (filter (fun r => SQL.like x (album_id r)) (albums d))).
Proof.
  unfold getEntityByOptions_albums, run_entity_query. cbn.
  f_equal. f_equal. apply filter_ext. intros r. apply orb_false_r.
Qed.

Lemma artists_by_id (x : string) (d : DB) :
  getEntityByOptions_artists [("artist", EObject [("artist_id", x)])] d
  = Some (SQL.order_by_asc artist_name
            (filter (fun r => SQL.like x (artist_id r)) (artists d))).
Proof.
  unfold getEntityByOptions_artists, run_entity_query. cbn.
  f_equal. f_equal. apply filter_ext. intros r. apply orb_false_r.
Qed.

Lemma remove_albums_total album_ids : forall d paths,
  exists paths',
    remove_albums album_ids d paths
    = Some (set_albums (albums_left album_ids (albums d)) d, paths')
    /\ (forall p, In p paths -> In p paths').
Proof.
  induction album_ids as [|id rest IH]; intros d paths; cbn [remove_albums].
  - exists paths. split; [destruct d; reflexivity | auto].
  - unfold albums_left. cbn [fold_left]. fold (albums_left rest).
    destruct (count id =? 1)%nat.
    + rewrite albums_by_id.
      match goal with |- context [remove_albums rest ?d1 ?p1] =>
        destruct (IH d1 p1) as (paths' & E & Hin) end.
      exists paths'. split.
      * rewrite E. destruct d; reflexivity.
      * intros p Hp. apply Hin. do 2 apply In_push_if_truthy. exact Hp.
    + apply IH.
Qed.

Lemma remove_artists_total artist_ids : forall d paths,
  exists paths',
    remove_artists artist_ids d paths
    = Some (set_artists (artists_left artist_ids (artists d)) d, paths')
    /\ (forall p, In p paths -> In p paths').
Proof.
  induction artist_ids as [|id rest IH]; intros d paths; cbn [remove_artists].
  - exists paths. split; [destruct d; reflexivity | auto].
  - unfold artists_left. cbn [fold_left]. fold (artists_left rest).
    destruct (count id =? 1)%nat.
    + rewrite artists_by_id.
      match goal with |- context [remove_artists rest ?d1 ?p1] =>
        destruct (IH d1 p1) as (paths' & E & Hin) end.
      exists paths'. split.
      * rewrite E. destruct d; reflexivity.
      * intros p Hp. apply Hin. apply In_push_if_truthy. exact Hp.
    + apply IH.
Qed.

(** The transaction never throws, and its database is the one the five
    deletions and the two loops describe. *)
Lemma removeSong_transaction_total song_id d :
  exists paths,
    removeSong_transaction song_id d
    = Some (set_artists
              (artists_left (getCountBySong (artists_bridge d) song_id) (artists d))
              (set_albums
                 (albums_left (getCountBySong (album_bridge d) song_id) (albums d))
                 (delete_song_rows song_id d)),
            paths).
Proof.
  unfold removeSong_transaction.
  match goal with |- context [remove_albums ?ids ?d1 ?p1] =>
    destruct (remove_albums_total ids d1 p1) as (p2 & E2 & _) end.
  rewrite E2.
  match goal with |- context [remove_artists ?ids ?d1 ?p1] =>
    destruct (remove_artists_total ids d1 p1) as (p3 & E3 & _) end.
  rewrite E3. exists p3. reflexivity.
Qed.

Lemma removeSong_outcome_db song_id d fs :
  outcome_db (removeSong song_id d fs)
  = set_artists
      (artists_left (getCountBySong (artists_bridge d) song_id) (artists d))
      (set_albums
         (albums_left (getCountBySong (album_bridge d) song_id) (albums d))
         (delete_song_rows song_id d)).
Proof.
  unfold removeSong.
  destruct (removeSong_transaction_total song_id d) as (paths & E).
  rewrite E. destruct (remove_paths paths fs) as [[e fs']|fs']; reflexivity.
Qed.

(** C5: after [removeSong(id)], whether or not the clean-up of the files
    succeeded, none of the four bridge tables ([artists_bridge],
    [album_bridge], [genre_bridge], [playlist_bridge]) has a row whose
    [song] column is [id]. *)
Theorem removeSong_no_dangling_bridges (song_id : string) (d : DB) (fs : FS) :
  let d' := outcome_db (removeSong song_id d fs) in
  count_where song song_id (artists_bridge d') = 0
  /\ count_where song song_id (album_bridge d') = 0
  /\ count_where song song_id (genre_bridge d') = 0
  /\ count_where song song_id (playlist_bridge d') = 0.
Proof.
  cbv zeta. rewrite removeSong_outcome_db. simpl.
  repeat split; apply count_where_delete_where.
Qed.

(* ================================================================= *)
(** ** Song counts *)

Lemma recount_all (bridge : list BridgeRow) ids : forall rows,
  Forall (fun r => album_song_count r = count_where entity (album_id r) bridge
                   \/ In (album_id r) ids) rows ->
  Forall (fun r => album_song_count r = count_where entity (album_id r) bridge)
    (fold_left
       (fun rows id =>
          set_album_song_count id (count_where entity id bridge) rows)
       ids rows).
Proof.
  induction ids as [|id rest IH]; intros rows H; simpl.
  - eapply Forall_impl; [|exact H]. intros r [Hr|[]]. exact Hr.
  - apply IH. unfold set_album_song_count.
    apply Forall_map. eapply Forall_impl; [|exact H].
    intros r Hr. simpl in Hr.
    destruct (album_id r =? id) eqn:E.
    + left. apply String.eqb_eq in E. subst id. reflexivity.
    + destruct Hr as [Hr|[Hr|Hr]]; [left; exact Hr | | right; exact Hr].
      subst id. rewrite String.eqb_refl in E. discriminate.
Qed.

Lemma updateSongCountAlbum_fold ids : forall d,
  let d' := fold_left
              (fun d' id =>
                 set_albums
                   (set_album_song_count id
                      (count_where entity id (album_bridge d')) (albums d'))
                   d')
              ids d in
  album_bridge d' = album_bridge d
  /\ albums d'
     = fold_left
         (fun rows id =>
            set_album_song_count id (count_where entity id (album_bridge d)) rows)
         ids (albums d).
Proof.
  induction ids as [|id rest IH]; intros d; simpl.
  - split; reflexivity.
  - match goal with |- context [fold_left _ rest ?d1] =>
      destruct (IH d1) as [Hb Ha] end.
    simpl in Hb, Ha. split; [exact Hb | exact Ha].
Qed.

(** A loop of updates, one per key of the table, is one pass over the
    rows. *)
Lemma recount_map {Row : Type} (key : Row -> string) (set : nat -> Row -> Row)
    (c : string -> nat) ids :
  (forall n r, key (set n r) = key r) ->
  (forall n m r, set n (set m r) = set n r) ->
  forall rows,
    fold_left
      (fun rows id => map (fun r => if key r =? id then set (c id) r else r) rows)
      ids rows
    = map (fun r => if existsb (String.eqb (key r)) ids
                    then set (c (key r)) r else r)
        rows.
Proof.
  intros Hkey Hset. induction ids as [|id rest IH]; intros rows.
  - simpl. symmetry. apply map_id.
  - cbn [fold_left]. rewrite IH, map_map. apply map_ext. intros r.
    cbn [existsb]. destruct (key r =? id) eqn:E.
    + apply String.eqb_eq in E. subst id. rewrite Hkey, Hset. cbn [orb].
      destruct (existsb (String.eqb (key r)) rest); reflexivity.
    + reflexivity.
Qed.

Lemma recount_every {Row : Type} (key : Row -> string) (set : nat -> Row -> Row)
    (c : string -> nat) (rows : list Row) :
  (forall n r, key (set n r) = key r) ->
  (forall n m r, set n (set m r) = set n r) ->
  fold_left
    (fun rows id => map (fun r => if key r =? id then set (c id) r else r) rows)
    (map key rows) rows
  = map (fun r => set (c (key r)) r) rows.
Proof.
  intros Hkey Hset. rewrite (recount_map key set c (map key rows) Hkey Hset).
  apply map_ext_in. intros r Hr.
  assert (E : existsb (String.eqb (key r)) (map key rows) = true).
  { apply existsb_exists. exists (key r). split.
    - apply in_map. exact Hr.
    - apply String.eqb_refl. }
  rewrite E. reflexivity.
Qed.

Lemma updateSongCountAlbum_frame ids : forall d,
  let d' := fold_left
              (fun d' id =>
                 set_albums
                   (set_album_song_count id
                      (count_where entity id (album_bridge d')) (albums d'))
                   d')
              ids d in
  d' = set_albums (albums d') d.
Proof.
  induction ids as [|id rest IH]; intros d; simpl.
  - destruct d; reflexivity.
  - rewrite IH at 1. destruct d; reflexivity.
Qed.

(** C9: after [updateSongCountAlbum], every row of [albums] has
    [album_song_count] equal to the number of rows of [album_bridge]
    whose [album] column is the row's [album_id].  The rows are those of
    before, in their order, with nothing but the count rewritten, and no
    other table has changed. *)
Theorem updateSongCountAlbum_counts (d : DB) :
  let d' := updateSongCountAlbum d in
  Forall
    (fun r => album_song_count r
              = count_where entity (album_id r) (album_bridge d'))
    (albums d')
  /\ albums d'
     = map (fun r =>
              {| album_id := album_id r; album_name := album_name r;
                 album_coverPath_low := album_coverPath_low r;
                 album_coverPath_high := album_coverPath_high r;
                 album_artist := album_artist r;
                 album_song_count :=
                   count_where entity (album_id r) (album_bridge d) |})
         (albums d)
  /\ d' = set_albums (albums d') d.
Proof.
  cbv zeta. unfold updateSongCountAlbum. split; [|split].
  - destruct (updateSongCountAlbum_fold (map album_id (albums d)) d) as [Hb Ha].
    cbv zeta in Hb, Ha. rewrite Hb, Ha.
    apply recount_all.
    apply Forall_forall. intros r Hr. right. apply in_map. exact Hr.
  - destruct (updateSongCountAlbum_fold (map album_id (albums d)) d) as [_ Ha].
    cbv zeta in Ha. rewrite Ha.
    apply (recount_every album_id
             (fun n r =>
                {| album_id := album_id r; album_name := album_name r;
                   album_coverPath_low := album_coverPath_low r;
                   album_coverPath_high := album_coverPath_high r;
                   album_artist := album_artist r; album_song_count := n |})
             (fun id => count_where entity id (album_bridge d)));
      reflexivity.
  - apply (updateSongCountAlbum_frame (map album_id (albums d)) d).
Qed.

(* ================================================================= *)
(** ** Playlists *)

Lemma updateSongCountPlaylists_bridge (d : DB) :
  playlist_bridge (updateSongCountPlaylists d) = playlist_bridge d.
Proof.
  unfold updateSongCountPlaylists.
  generalize (map playlist_id (playlists d)). intros ids. revert d.
  induction ids as [|id rest IH]; intros d; simpl; [reflexivity|].
  rewrite IH. reflexivity.
Qed.

Lemma delete_index_keys playlist keys : forall d,
  playlist_bridge
    (fold_left
       (fun d' s =>
          set_playlist_bridge
            (delete_playlist_song playlist s (playlist_bridge d')) d')
       keys d)
  = filter
      (fun r => negb ((entity r =? playlist)
                      && existsb (String.eqb (song r)) keys))
      (playlist_bridge d).
Proof.
  induction keys as [|k rest IH]; intros d; simpl.
  - symmetry. rewrite <- (filter_ext (fun _ => true)).
    + induction (playlist_bridge d) as [|r l IHl]; simpl; [|rewrite IHl];
        reflexivity.
    + intros r. rewrite andb_false_r. reflexivity.
  - rewrite IH. simpl. unfold delete_playlist_song.
    induction (playlist_bridge d) as [|r l IHl]; simpl; [reflexivity|].
    destruct (entity r =? playlist) eqn:Ep, (song r =? k) eqn:Ek,
      (existsb (String.eqb (song r)) rest) eqn:Ex;
      simpl; rewrite ?Ep, ?Ek, ?Ex; simpl; rewrite ?IHl; reflexivity.
Qed.

(** C10: [removeFromPlaylist(playlist, s1, ..., sn)] deletes from
    [playlist_bridge] exactly the rows of that playlist whose [song]
    column is one of the index strings "0" ... "n-1"; the rows that link
    a given song which is no such index string to the playlist stay as
    they were. *)
Theorem removeFromPlaylist_deletes_index_keys
    (playlist : string) (songs : list string) (d : DB) :
  playlist_bridge (removeFromPlaylist playlist songs d)
  = filter
      (fun r => negb ((entity r =? playlist)
                      && existsb (String.eqb (song r))
                           (JS.array_keys (length songs))))
      (playlist_bridge d)
  /\ (forall s,
        In s songs -> ~ In s (JS.array_keys (length songs)) ->
        filter (fun r => (entity r =? playlist) && (song r =? s))
          (playlist_bridge (removeFromPlaylist playlist songs d))
        = filter (fun r => (entity r =? playlist) && (song r =? s))
            (playlist_bridge d)).
Proof.
  assert (E : playlist_bridge (removeFromPlaylist playlist songs d)
              = filter
                  (fun r => negb ((entity r =? playlist)
                                  && existsb (String.eqb (song r))
                                       (JS.array_keys (length songs))))
                  (playlist_bridge d)).
  { unfold removeFromPlaylist. rewrite updateSongCountPlaylists_bridge.
    apply delete_index_keys. }
  split; [exact E|].
  intros s _ Hs. rewrite E. clear E. rewrite filter_filter_comm.
  induction (playlist_bridge d) as [|r l IHl]; simpl; [reflexivity|].
  destruct (entity r =? playlist) eqn:Ep; simpl; [|exact IHl].
  destruct (song r =? s) eqn:Es; simpl; [|exact IHl].
  apply String.eqb_eq in Es.
  assert (X : existsb (String.eqb (song r)) (JS.array_keys (length songs)) = false).
  { destruct (existsb (String.eqb (song r)) (JS.array_keys (length songs))) eqn:X;
      [|reflexivity].
    apply existsb_exists in X. destruct X as (k & Hk & Ek).
    apply String.eqb_eq in Ek. exfalso. apply Hs. congruence. }
  rewrite Ep, X. simpl. rewrite IHl. reflexivity.
Qed.

Lemma removeFromPlaylist_deletes_index_keys_witness :
  filter (fun r => (entity r =? "p") && (song r =? "s1"))
    (playlist_bridge (removeFromPlaylist "p" ["s1"; "s2"] db_playlist))
  = filter (fun r => (entity r =? "p") && (song r =? "s1"))
      (playlist_bridge db_playlist).
Proof.
  apply (proj2 (removeFromPlaylist_deletes_index_keys "p" ["s1"; "s2"] db_playlist)
           "s1").
  - left. reflexivity.
  - vm_compute. intuition discriminate.
Defined.

Example removeFromPlaylist_sample :
  playlist_bridge (removeFromPlaylist "p" ["s1"; "s2"] db_playlist)
  = [ {| song := "s1"; entity := "p" |}; {| song := "0"; entity := "q" |} ].
Proof. reflexivity. Qed.

(* ================================================================= *)
(** ** Identifiers under LIKE *)

Lemma uuid_char_plain (c : ascii) :
  is_uuid_char c = true ->
  Ascii.eqb c "%" = false /\ Ascii.eqb c "_" = false /\ SQL.to_lower c = c.
Proof.
  destruct c as [[] [] [] [] [] [] [] []]; intros H;
    try discriminate H; repeat split.
Qed.

(** On identifiers in the alphabet of [v4()], LIKE is equality. *)
Lemma like_uuid (p : string) : forall t,
  uuid_chars p = true -> uuid_chars t = true -> SQL.like p t = (t =? p).
Proof.
  induction p as [|c p IH]; intros t Hp Ht.
  - reflexivity.
  - simpl in Hp. apply andb_prop in Hp. destruct Hp as [Hc Hp].
    destruct (uuid_char_plain c Hc) as (E1 & E2 & E3).
    cbn [SQL.like]. rewrite E1, E2.
    destruct t as [|x t]; [reflexivity|].
    simpl in Ht. apply andb_prop in Ht. destruct Ht as [Hx Ht].
    destruct (uuid_char_plain x Hx) as (_ & _ & E4).
    rewrite E3, E4, (IH t Hp Ht). simpl. rewrite Ascii.eqb_sym. reflexivity.
Qed.

Lemma filter_key_unique {Row : Type} (key : Row -> string) (x : Row) rows :
  NoDup (map key rows) -> In x rows ->
  filter (fun r => key r =? key x) rows = [x].
Proof.
  induction rows as [|r rows IH]; intros Hnd Hin; [destruct Hin|].
  simpl in Hnd. inversion Hnd as [|k ks Hk Hnd']; subst. simpl.
  destruct Hin as [->|Hin].
  - rewrite String.eqb_refl. f_equal.
    clear IH Hnd Hnd'. induction rows as [|y rows IHr]; simpl; [reflexivity|].
    destruct (key y =? key x) eqn:E.
    + exfalso. apply Hk. apply String.eqb_eq in E. rewrite <- E.
      left. reflexivity.
    + apply IHr. intros H. apply Hk. right. exact H.
  - destruct (key r =? key x) eqn:E.
    + exfalso. apply Hk. apply String.eqb_eq in E. rewrite E.
      apply in_map. exact Hin.
    + apply IH; assumption.
Qed.

(* ================================================================= *)
(** ** The cascade on a shared artist *)

Lemma filter_delete_where_other {Row : Type} (key : Row -> string) a b rows :
  a <> b ->
  filter (fun r => key r =? a) (delete_where key b rows)
  = filter (fun r => key r =? a) rows.
Proof.
  intros Hab. unfold delete_where.
  induction rows as [|r rows IH]; simpl; [reflexivity|].
  destruct (key r =? b) eqn:Eb; simpl.
  - apply String.eqb_eq in Eb.
    destruct (key r =? a) eqn:Ea; [|exact IH].
    apply String.eqb_eq in Ea. congruence.
  - rewrite IH. reflexivity.
Qed.

Lemma artists_left_incl ids : forall rows r,
  In r (artists_left ids rows) -> In r rows.
Proof.
  induction ids as [|id rest IH]; intros rows r H; simpl in H; [exact H|].
  apply IH in H. destruct (count id =? 1)%nat; [|exact H].
  unfold delete_where in H. apply filter_In in H. tauto.
Qed.

(** An artist that no row of [artist_ids] names with count 1 keeps its
    rows. *)
Lemma artists_left_keeps a ids : forall rows,
  (forall id, In id ids -> counted id = a -> count id <> 1) ->
  filter (fun r => artist_id r =? a) (artists_left ids rows)
  = filter (fun r => artist_id r =? a) rows.
Proof.
  induction ids as [|id rest IH]; intros rows H; simpl; [reflexivity|].
  rewrite IH by (intros; apply H; [right|]; assumption).
  destruct (count id =? 1)%nat eqn:E; [|reflexivity].
  apply filter_delete_where_other.
  intros Ha. apply Nat.eqb_eq in E. symmetry in Ha.
  exact (H id (or_introl eq_refl) Ha E).
Qed.

Lemma artists_left_stays_deleted a ids : forall rows,
  count_where artist_id a rows = 0 ->
  count_where artist_id a (artists_left ids rows) = 0.
Proof.
  induction ids as [|id rest IH]; intros rows H; simpl; [exact H|].
  apply IH. destruct (count id =? 1)%nat; [|exact H].
  unfold count_where, delete_where in *.
  rewrite filter_filter_comm. apply length_zero_iff_nil in H. rewrite H.
  reflexivity.
Qed.

(** An artist that [artist_ids] names with count 1 loses its rows. *)
Lemma artists_left_deletes a ids : forall rows,
  In {| count := 1; counted := a |} ids ->
  count_where artist_id a (artists_left ids rows) = 0.
Proof.
  induction ids as [|id rest IH]; intros rows H; [destruct H|].
  simpl. destruct H as [->|H]; [|apply IH; exact H].
  simpl. apply artists_left_stays_deleted. apply count_where_delete_where.
Qed.

(** ... and its cover path is pushed when the lookup by identifier finds
    its row alone. *)
Lemma remove_artists_collects a ar cover ids : forall d paths d' paths',
  In {| count := 1; counted := a |} ids ->
  filter (fun r => SQL.like a (artist_id r)) (artists d) = [ar] ->
  artist_id ar = a ->
  artist_coverPath ar = Some cover -> cover <> "" ->
  remove_artists ids d paths = Some (d', paths') ->
  In cover paths'.
Proof.
  induction ids as [|id rest IH]; intros d paths d' paths' Hin Hfound Hid Hc Hne E;
    [destruct Hin|].
  cbn [remove_artists] in E.
  destruct (count id =? 1)%nat eqn:E1.
  - rewrite artists_by_id in E.
    destruct (counted id =? a) eqn:Ea.
    + apply String.eqb_eq in Ea. rewrite Ea, Hfound in E. simpl in E.
      rewrite Hc in E.
      match type of E with remove_artists rest ?d1 ?p1 = _ =>
        destruct (remove_artists_total rest d1 p1) as (p2 & E2 & Hmono) end.
      rewrite E2 in E. inversion E; subst.
      apply Hmono. apply In_push_if_truthy_new. exact Hne.
    + apply String.eqb_neq in Ea.
      destruct Hin as [Hin|Hin]; [subst id; simpl in Ea; congruence|].
      eapply IH; [exact Hin | | exact Hid | exact Hc | exact Hne | exact E].
      simpl. unfold delete_where. rewrite filter_filter_comm, Hfound. simpl.
      rewrite Hid. destruct (a =? counted id) eqn:X; [|reflexivity].
      apply String.eqb_eq in X. congruence.
  - destruct Hin as [Hin|Hin]; [subst id; simpl in E1; discriminate|].
    eapply IH; eassumption.
Qed.

Lemma map_song_delete_where s rows :
  map song (delete_where song s rows)
  = filter (fun x => negb (x =? s)) (map song rows).
Proof.
  unfold delete_where. induction rows as [|r rows IH]; simpl; [reflexivity|].
  destruct (song r =? s); simpl; rewrite IH; reflexivity.
Qed.

(** The rows [getCountBySong] returns. *)
Lemma getCountBySong_In bridge song_id id :
  In id (getCountBySong bridge song_id) <->
  exists i, In i bridge /\ song i = song_id
            /\ id = {| count := count_where entity (entity i) bridge;
                       counted := entity i |}.
Proof.
  unfold getCountBySong. rewrite in_flat_map. split.
  - intros (i & Hi & [<-|[]]). apply filter_In in Hi. destruct Hi as [Hi Hs].
    apply String.eqb_eq in Hs. exists i. auto.
  - intros (i & Hi & Hs & ->). exists i. split; [|left; reflexivity].
    apply filter_In. split; [exact Hi|]. apply String.eqb_eq. exact Hs.
Qed.

Lemma removeSong_transaction_outcome song_id d d' paths fs :
  removeSong_transaction song_id d = Some (d', paths) ->
  outcome_db (removeSong song_id d fs) = d'.
Proof.
  intros E. unfold removeSong. rewrite E.
  destruct (remove_paths paths fs) as [[e fs']|fs']; reflexivity.
Qed.

Lemma removeSong_transaction_artists song_id d d' paths' :
  removeSong_transaction song_id d = Some (d', paths') ->
  exists dm p2,
    artists dm = artists d
    /\ remove_artists (getCountBySong (artists_bridge d) song_id) dm p2
       = Some (d', paths').
Proof.
  unfold removeSong_transaction.
  match goal with |- context [remove_albums ?ids ?d0 ?p0] =>
    destruct (remove_albums_total ids d0 p0) as (p2 & E2 & _) end.
  rewrite E2. intros E. eexists _, p2. split; [|exact E]. reflexivity.
Qed.

(** C1: let two songs [s1] and [s2] share the artist of row [ar], each
    linked to it by one row of [artists_bridge] and no other song linked
    to it, in a database whose artist identifiers are distinct and made
    of the characters of [v4()].  Then [removeSong(s1)] leaves the row
    [ar], cover path included, as it was, and [removeSong(s2)] after it
    deletes the row and collects the cover path of [ar] among the paths
    to remove. *)
Theorem removeSong_shared_artist
    (d : DB) (s1 s2 : string) (ar : ArtistRow) :
  s1 <> s2 ->
  Permutation [s1; s2]
    (map song (filter (fun r => entity r =? artist_id ar) (artists_bridge d))) ->
  In ar (artists d) ->
  NoDup (map artist_id (artists d)) ->
  Forall (fun r => uuid_chars (artist_id r) = true) (artists d) ->
  exists d1 paths1 d2 paths2,
    removeSong_transaction s1 d = Some (d1, paths1)
    /\ removeSong_transaction s2 d1 = Some (d2, paths2)
    /\ (forall fs, outcome_db (removeSong s1 d fs) = d1)
    /\ (forall fs, outcome_db (removeSong s2 d1 fs) = d2)
    /\ filter (fun r => artist_id r =? artist_id ar) (artists d1) = [ar]
    /\ count_where artist_id (artist_id ar) (artists d2) = 0
    /\ (forall cover,
          artist_coverPath ar = Some cover -> cover <> "" -> In cover paths2).
Proof.
  intros Hne Hlinks Hrow Hkey Hids.
  set (a := artist_id ar) in *.
  set (B := artists_bridge d) in *.
  (* the two bridge rows of the artist *)
  assert (Hcount : count_where entity a B = 2).
  { unfold count_where. rewrite <- (length_map song).
    rewrite <- (Permutation_length Hlinks). reflexivity. }
  assert (Hleft : map song (filter (fun r => entity r =? a)
                              (delete_where song s1 B)) = [s2]).
  { unfold delete_where at 1. rewrite filter_filter_comm.
    fold (delete_where song s1 (filter (fun r => entity r =? a) B)).
    rewrite map_song_delete_where.
    apply Permutation_length_2_inv in Hlinks.
    assert (X1 : (s1 =? s1) = true) by apply String.eqb_refl.
    assert (X2 : (s2 =? s1) = false)
      by (apply String.eqb_neq; congruence).
    destruct Hlinks as [-> | ->]; simpl; rewrite X1, X2; reflexivity. }
  (* first removal *)
  destruct (removeSong_transaction_total s1 d) as (paths1 & E1).
  match type of E1 with _ = Some (?x, _) => set (d1 := x) in * end.
  assert (Hart1 : filter (fun r => artist_id r =? a) (artists d1) = [ar]).
  { unfold d1. cbn [artists set_artists]. rewrite artists_left_keeps.
    - apply (filter_key_unique artist_id ar); assumption.
    - intros id Hid Ha Hc. apply getCountBySong_In in Hid.
      destruct Hid as (i & _ & _ & ->). simpl in Ha, Hc.
      fold B in Hc. rewrite Ha in Hc. rewrite Hcount in Hc. discriminate. }
  assert (HB1 : artists_bridge d1 = delete_where song s1 B) by reflexivity.
  (* second removal *)
  assert (Htarget : In {| count := 1; counted := a |}
                      (getCountBySong (artists_bridge d1) s2)).
  { rewrite HB1. apply getCountBySong_In.
    assert (Hs2 : In s2 (map song (filter (fun r => entity r =? a)
                                      (delete_where song s1 B))))
      by (rewrite Hleft; left; reflexivity).
    apply in_map_iff in Hs2. destruct Hs2 as (i & Hs & Hi).
    apply filter_In in Hi. destruct Hi as [Hi Ha].
    apply String.eqb_eq in Ha. exists i. repeat split; try assumption.
    rewrite Ha. f_equal. unfold count_where.
    rewrite <- (length_map song), Hleft. reflexivity. }
  assert (Hlike : filter (fun r => SQL.like a (artist_id r)) (artists d1) = [ar]).
  { rewrite <- Hart1. apply filter_ext_in. intros r Hr.
    assert (Hr0 : In r (artists d))
      by (unfold d1 in Hr; cbn [artists set_artists] in Hr;
          apply artists_left_incl in Hr; exact Hr).
    rewrite Forall_forall in Hids.
    apply like_uuid; [apply (Hids ar Hrow) | apply (Hids r Hr0)]. }
  destruct (removeSong_transaction_total s2 d1) as (paths2 & E).
  match type of E with _ = Some (?x, _) => set (d2 := x) in * end.
  destruct (removeSong_transaction_artists _ _ _ _ E) as (dm & p2 & Hdm & E3).
  exists d1, paths1, d2, paths2.
  split; [exact E1|]. split; [exact E|].
  split; [intros fs; apply (removeSong_transaction_outcome _ _ _ _ fs E1)|].
  split; [intros fs; apply (removeSong_transaction_outcome _ _ _ _ fs E)|].
  split; [exact Hart1|]. split.
  - unfold d2. cbn [artists set_artists]. apply artists_left_deletes.
    exact Htarget.
  - intros cover Hc Hnonempty.
    eapply (remove_artists_collects a ar cover);
      [exact Htarget | | reflexivity | exact Hc | exact Hnonempty | exact E3].
    rewrite Hdm. exact Hlike.
Qed.

Lemma removeSong_shared_artist_witness :
  exists d1 paths1 d2 paths2,
    removeSong_transaction "s1" db_shared_artist = Some (d1, paths1)
    /\ removeSong_transaction "s2" d1 = Some (d2, paths2)
    /\ (forall fs, outcome_db (removeSong "s1" db_shared_artist fs) = d1)
    /\ (forall fs, outcome_db (removeSong "s2" d1 fs) = d2)
    /\ filter (fun r => artist_id r =? "a1") (artists d1) = [daft_punk]
    /\ count_where artist_id "a1" (artists d2) = 0
    /\ (forall cover,
          Some "/covers/daft.png" = Some cover -> cover <> "" -> In cover paths2).
Proof.
  apply (removeSong_shared_artist db_shared_artist "s1" "s2" daft_punk).
  - discriminate.
  - apply Permutation_refl.
  - left. reflexivity.
  - repeat constructor; simpl; intuition discriminate.
  - repeat constructor.
Defined.

(* ================================================================= *)
(** ** The query builder *)

Lemma endsWith_refl s : JS.endsWith s s = true.
Proof. destruct s; simpl; rewrite ?Ascii.eqb_refl, ?String.eqb_refl; reflexivity. Qed.

Lemma endsWith_append p : forall s suffix,
  JS.endsWith s suffix = true -> JS.endsWith (p ++ s) suffix = true.
Proof.
  induction p as [|c p IH]; intros s suffix H; [exact H|].
  cbn [append JS.endsWith]. rewrite (IH s suffix H). apply orb_true_r.
Qed.

Lemma append_assoc (a b c : string) : (a ++ b) ++ c = a ++ b ++ c.
Proof. induction a as [|x a IH]; simpl; [|rewrite IH]; reflexivity. Qed.

Lemma where_props_args inclusive tableName props : forall st,
  args (where_props inclusive tableName props st)
  = (args st ++ map substring_pattern (map snd props))%list.
Proof.
  induction props as [|[k v] props IH]; intros st; simpl.
  - symmetry. apply app_nil_r.
  - rewrite IH. simpl. unfold JS.push. rewrite <- app_assoc. reflexivity.
Qed.

Lemma where_keys_args inclusive entries : forall st,
  args (where_keys inclusive entries st)
  = (args st ++ map substring_pattern (song_predicate_values entries))%list.
Proof.
  induction entries as [|[key value] rest IH]; intros st; simpl.
  - symmetry. apply app_nil_r.
  - destruct (negb (key =? "inclusive") && negb (key =? "sortBy")).
    + rewrite IH, where_props_args, map_app, app_assoc. reflexivity.
    + apply IH.
Qed.

Lemma populateWhereQuery_args options :
  snd (populateWhereQuery (Some options))
  = map substring_pattern (song_predicate_values options).
Proof.
  unfold populateWhereQuery.
  pose proof (where_keys_args (song_inclusive options) options
                {| isFirst := true; where_clause := "WHERE "; args := [] |}) as H.
  simpl in H. rewrite <- H.
  destruct (args _) eqn:E; reflexivity.
Qed.

Lemma entity_props_fields inclusive props : forall st,
  let st' := entity_props inclusive props st in
  e_args st' = (e_args st ++ map snd props)%list
  /\ predicates st' = (predicates st ++ props)%list
  /\ orderBy st' = orderBy st
  /\ from_tables st' = from_tables st
  /\ query st' = query st.
Proof.
  induction props as [|[k v] props IH]; intros st; simpl.
  - rewrite !app_nil_r. repeat split.
  - destruct (IH {| e_isFirst := false; query := query st;
                    e_where := e_where st
                               ++ (if negb (e_isFirst st)
                                   then if inclusive then "AND" else "OR" else "")
                               ++ " " ++ k ++ " LIKE ?";
                    e_args := JS.push (e_args st) v; orderBy := orderBy st;
                    from_tables := from_tables st;
                    predicates := JS.push (predicates st) (k, v) |})
      as (H1 & H2 & H3 & H4 & H5).
    simpl in *. unfold JS.push in *.
    rewrite H1, H2, H3, H4, H5, <- !app_assoc. repeat split.
Qed.

Lemma entity_keys_args inclusive options : forall st,
  e_args (entity_keys inclusive options st)
  = (e_args st ++ entity_predicate_values options)%list.
Proof.
  induction options as [|[key value] rest IH]; intros st; simpl.
  - symmetry. apply app_nil_r.
  - destruct (getTableByProperty key) as [tableName|]; [|apply IH].
    destruct value as [props|[|]].
    + match goal with |- context [entity_props _ _ ?st1] =>
        destruct (entity_props_fields inclusive props st1) as (H & _) end.
      exact H.
    + symmetry. apply app_nil_r.
    + rewrite IH. reflexivity.
Qed.

(** An entity predicate is no substring match: the album query for "ABC"
    binds "ABC" and does not find the album "xABCy", which the wrapped
    pattern matches. *)
Lemma entity_predicate_not_wrapped :
  snd (getEntityByOptions_query [("album", EObject [("album_name", "ABC")])])
  <> ["%ABC%"]
  /\ getEntityByOptions_albums [("album", EObject [("album_name", "ABC")])] db_xABCy
     = Some []
  /\ getEntityByOptions_albums [("album", EObject [("album_name", "%ABC%")])] db_xABCy
     = Some [album_xABCy].
Proof. repeat split. discriminate. Qed.

Lemma entity_keys_skip inclusive pre : forall rest st,
  Forall (fun e : string * EntityValue => getTableByProperty (fst e) = None) pre ->
  entity_keys inclusive (pre ++ rest)%list st = entity_keys inclusive rest st.
Proof.
  induction pre as [|[k v] pre IH]; intros rest st H; [reflexivity|].
  inversion H as [|x l Hk Hpre]; subst. simpl in Hk. simpl. rewrite Hk.
  apply IH. exact Hpre.
Qed.

Lemma entity_keys_orderBy inclusive key value rest st :
  In key ["album"; "artist"; "genre"; "playlist"] ->
  value <> EBool false ->
  orderBy (entity_keys inclusive ((key, value) :: rest) st)
  = Some (template (getTableByProperty key) ++ "."
            ++ template (getTitleColByProperty key)).
Proof.
  intros Hkey Hvalue.
  assert (exists t, getTableByProperty key = Some t) as (t & Ht).
  { simpl in Hkey. destruct Hkey as [<-|[<-|[<-|[<-|[]]]]]; eexists; reflexivity. }
  cbn [entity_keys]. rewrite Ht.
  destruct value as [props|[|]]; [ | reflexivity | congruence].
  match goal with |- context [entity_props _ _ ?st1] =>
    destruct (entity_props_fields inclusive props st1) as (_ & _ & H & _) end.
  rewrite H. reflexivity.
Qed.

Lemma key_leb_total a b : SQL.key_leb a b = false -> SQL.key_leb b a = true.
Proof.
  destruct a as [x|], b as [y|]; simpl; try reflexivity; try discriminate.
  intros H. destruct (String.leb_total x y) as [E|E]; congruence.
Qed.

(** [ORDER BY ... ASC] returns the rows in ascending order of the key. *)
Lemma order_by_asc_sorted {Row : Type} (key : Row -> option string) rows :
  Sorted (fun a b => SQL.key_leb (key a) (key b) = true)
    (SQL.order_by_asc key rows).
Proof.
  induction rows as [|r rows IH]; simpl; [constructor|].
  revert IH. generalize (SQL.order_by_asc key rows). intros l.
  induction l as [|h t IHt]; intros Hs; simpl.
  - repeat constructor.
  - destruct (SQL.key_leb (key r) (key h)) eqn:E.
    + constructor; [exact Hs|]. constructor. exact E.
    + inversion Hs as [|x l Ht Hhd]; subst.
      constructor; [apply IHt; exact Ht|].
      destruct t as [|h' t']; simpl.
      * constructor. apply key_leb_total. exact E.
      * destruct (SQL.key_leb (key r) (key h')).
        -- constructor. apply key_leb_total. exact E.
        -- inversion Hhd; subst. constructor. assumption.
Qed.

Lemma run_entity_query_sorted {Row : Type} table cell
    (title_col : Row -> option string) options rows found :
  run_entity_query table cell title_col options rows = Some found ->
  Sorted (fun a b => SQL.key_leb (title_col a) (title_col b) = true) found.
Proof.
  unfold run_entity_query.
  destruct (from_tables _) as [|t [|? ?]]; try discriminate.
  destruct (_ && _); [|discriminate].
  intros H. inversion H. apply order_by_asc_sorted.
Qed.

(** C8 (as the code has it): a song query with a sort specification ends
    in [ORDER BY title] when the specification's type is 'name' and in
    [ORDER BY date_added] for any other type, with [ASC] when it asks for
    ascending order and [DESC] otherwise; a song query without one ends
    at [GROUP BY allsongs._id], with no ORDER BY.  An entity query takes
    no sort specification: it always ends in [ORDER BY] the title column
    of its category (album_name, artist_name, genre_name, playlist_name)
    [ASC], and the rows come back in ascending order of that column. *)
Theorem order_clauses :
  (forall gc lj ex options exclude s,
      song_sortBy options = Some s ->
      JS.endsWith (fst (getSongByOptions_query gc lj ex options exclude))
        (" GROUP BY allsongs._id ORDER BY "
           ++ (if type s =? "name" then "title" else "date_added")
           ++ " " ++ (if asc s then "ASC" else "DESC")) = true)
  /\ (forall gc lj ex options exclude,
        song_sortBy options = None ->
        JS.endsWith (fst (getSongByOptions_query gc lj ex options exclude))
          " GROUP BY allsongs._id " = true)
  /\ (forall pre key value rest,
        Forall (fun e => getTableByProperty (fst e) = None) pre ->
        In key ["album"; "artist"; "genre"; "playlist"] ->
        value <> EBool false ->
        JS.endsWith (fst (getEntityByOptions_query (pre ++ (key, value) :: rest)%list))
          (" ORDER BY " ++ template (getTableByProperty key) ++ "."
             ++ template (getTitleColByProperty key) ++ " ASC") = true)
  /\ (forall options d found,
        getEntityByOptions_artists options d = Some found ->
        Sorted (fun a b => SQL.key_leb (artist_name a) (artist_name b) = true)
          found)
  /\ (forall options d found,
        getEntityByOptions_albums options d = Some found ->
        Sorted (fun a b => SQL.key_leb (album_name a) (album_name b) = true)
          found).
Proof.
  split; [|split; [|split; [|split]]].
  - intros gc lj ex options exclude s Hs. unfold getSongByOptions_query.
    destruct (populateWhereQuery options) as [w a]. cbn [fst]. rewrite Hs.
    cbn [addOrderClause].
    repeat (apply endsWith_refl || apply endsWith_append).
  - intros gc lj ex options exclude Hs. unfold getSongByOptions_query.
    destruct (populateWhereQuery options) as [w a]. cbn [fst]. rewrite Hs.
    cbn [addOrderClause].
    repeat (exact (endsWith_refl " GROUP BY allsongs._id ")
            || apply endsWith_append).
  - intros pre key value rest Hpre Hkey Hvalue.
    unfold getEntityByOptions_query, getEntityByOptions_state. cbn [fst].
    rewrite entity_keys_skip by exact Hpre.
    rewrite entity_keys_orderBy by assumption.
    cbn [template]. rewrite !append_assoc.
    do 3 apply endsWith_append. apply endsWith_refl.
  - intros options d found. apply run_entity_query_sorted.
  - intros options d found. apply run_entity_query_sorted.
Qed.

Lemma order_clauses_witness :
  JS.endsWith
    (fst (getSongByOptions_query "" "" (fun _ _ => "") filter_by_name_desc None))
    " GROUP BY allsongs._id ORDER BY title DESC" = true
  /\ JS.endsWith
       (fst (getSongByOptions_query "" "" (fun _ _ => "") filter_unsorted None))
       " GROUP BY allsongs._id " = true
  /\ JS.endsWith
       (fst (getEntityByOptions_query
               [("inclusive", EBool true); ("genre", EBool true)]))
       " ORDER BY genre.genre_name ASC" = true
  /\ Sorted (fun a b => SQL.key_leb (artist_name a) (artist_name b) = true)
       [ {| artist_id := "b2"; artist_name := Some "Air";
            artist_coverPath := None; artist_song_count := 1 |};
         daft_punk ]
  /\ Sorted (fun a b => SQL.key_leb (album_name a) (album_name b) = true)
       [album_xABCy].
Proof.
  destruct order_clauses as (H1 & H2 & H3 & H4 & H5).
  split; [|split; [|split; [|split]]].
  - exact (H1 "" "" (fun _ _ => "") filter_by_name_desc None
             {| type := "name"; asc := false |} eq_refl).
  - exact (H2 "" "" (fun _ _ => "") filter_unsorted None eq_refl).
  - apply (H3 [("inclusive", EBool true)] "genre" (EBool true) []).
    + repeat constructor.
    + simpl. tauto.
    + discriminate.
  - exact (H4 [("artist", EBool true)] db_shared_artist _ eq_refl).
  - exact (H5 [("album", EObject [("album_name", "%ABC%")])] db_xABCy _ eq_refl).
Defined.

(** A sort specification of another type than 'name' orders a song query
    by [date_added], not by the title column; and an entity query, which
    has no sort specification, carries an ORDER BY all the same. *)
Lemma sort_by_date_not_title :
  JS.endsWith
    (fst (getSongByOptions_query "" "" (fun _ _ => "") filter_by_date_asc None))
    "ORDER BY date_added ASC" = true
  /\ JS.endsWith
       (fst (getSongByOptions_query "" "" (fun _ _ => "") filter_by_date_asc None))
       "ORDER BY title ASC" = false
  /\ JS.endsWith (fst (getEntityByOptions_query [("artist", EBool true)]))
       " ORDER BY artists.artist_name ASC" = true.
Proof. repeat split. Qed.

(* ================================================================= *)
(** ** Removing the cover files *)

Lemma after_nil (fs : FS) : after fs [] = fs.
Proof. destruct fs as [log answer]. unfold after. simpl. rewrite app_nil_r. reflexivity. Qed.

Lemma all_succeed_tail (fs : FS) path rest :
  all_succeed fs (path :: rest) ->
  rm_force path fs = inr (after fs [path]) /\ all_succeed (after fs [path]) rest.
Proof.
  intros H. split.
  - unfold rm_force. pose proof (H [] path rest eq_refl) as E.
    rewrite app_nil_r in E. rewrite E. reflexivity.
  - intros done p rest' Hrest. unfold after. cbn [removed rm_result].
    rewrite <- app_assoc. apply (H (path :: done) p rest'). rewrite Hrest. reflexivity.
Qed.

Lemma after_after (fs : FS) l1 l2 : after (after fs l1) l2 = after fs (l1 ++ l2).
Proof. unfold after. cbn [removed rm_result]. rewrite app_assoc. reflexivity. Qed.

Lemma remove_paths_succeed paths : forall fs,
  all_succeed fs paths -> remove_paths paths fs = inr (after fs paths).
Proof.
  induction paths as [|path rest IH]; intros fs H.
  - simpl. rewrite after_nil. reflexivity.
  - destruct (all_succeed_tail fs path rest H) as [E Hrest].
    cbn [remove_paths]. rewrite E, (IH _ Hrest), after_after. reflexivity.
Qed.

Lemma remove_paths_fails done : forall fs path rest e,
  all_succeed fs done ->
  rm_result fs (removed fs ++ done)%list path = Some e ->
  remove_paths (done ++ path :: rest) fs = inl (e, after fs done).
Proof.
  induction done as [|p done IH]; intros fs path rest e Hdone He.
  - cbn [app remove_paths]. unfold rm_force.
    rewrite app_nil_r in He. rewrite He, after_nil. reflexivity.
  - destruct (all_succeed_tail fs p done Hdone) as [E Hrest].
    cbn [app remove_paths]. rewrite E.
    rewrite (IH (after fs [p]) path rest e Hrest).
    + rewrite after_after. reflexivity.
    + unfold after. cbn [removed rm_result]. rewrite <- app_assoc. exact He.
Qed.

Lemma all_succeed_or_not (fs : FS) paths :
  all_succeed fs paths
  \/ exists done path rest e,
       paths = (done ++ path :: rest)%list
       /\ all_succeed fs done
       /\ rm_result fs (removed fs ++ done)%list path = Some e.
Proof.
  induction paths as [|p paths IH] using rev_ind.
  - left. intros done path rest H. destruct done; discriminate.
  - destruct IH as [Hall|(done & path & rest & e & -> & Hdone & He)].
    + destruct (rm_result fs (removed fs ++ paths)%list p) as [e|] eqn:E.
      * right. exists paths, p, [], e. repeat split; assumption.
      * left. intros done path rest H.
        destruct rest as [|r rest _] using rev_ind.
        -- apply app_inj_tail in H. destruct H as [-> ->]. exact E.
        -- rewrite app_comm_cons, app_assoc in H.
           apply app_inj_tail in H. destruct H as [-> _].
           apply (Hall done path rest eq_refl).
    + right. exists done, path, (rest ++ [p])%list, e.
      rewrite <- app_assoc. repeat split; assumption.
Qed.

(** C7 (as the code has it): after the transaction has committed,
    [fs.promises.rm] is called on the captured paths one after the
    other.  When every call succeeds, [removeSong] resolves, all the
    paths having been removed.  The first call that fails, whatever the
    error, rejects the promise [removeSong] returned with that error and
    ends the loop: the paths before it have been removed, the paths after
    it are never passed to [rm], and the database stays committed.  One
    of the two is always the case. *)
Theorem removeSong_cleanup (song_id : string) (d d' : DB)
    (paths : list string) (fs : FS) :
  removeSong_transaction song_id d = Some (d', paths) ->
  (all_succeed fs paths ->
   removeSong song_id d fs = Resolved d' (after fs paths))
  /\ (forall done path rest e,
        paths = (done ++ path :: rest)%list ->
        all_succeed fs done ->
        rm_result fs (removed fs ++ done)%list path = Some e ->
        removeSong song_id d fs = Rejected (RmFailed e) d' (after fs done))
  /\ (all_succeed fs paths
      \/ exists done path rest e,
           paths = (done ++ path :: rest)%list
           /\ all_succeed fs done
           /\ rm_result fs (removed fs ++ done)%list path = Some e).
Proof.
  intros E. unfold removeSong. rewrite E. split; [|split].
  - intros H. rewrite (remove_paths_succeed paths fs H). reflexivity.
  - intros done path rest e -> Hdone He.
    rewrite (remove_paths_fails done fs path rest e Hdone He). reflexivity.
  - apply all_succeed_or_not.
Qed.

Lemma removeSong_cleanup_witness :
  removeSong "s9" db_covers fs_open
  = Resolved empty_db (after fs_open ["/covers/low.png"; "/covers/high.png"])
  /\ removeSong "s9" db_covers fs_protected
     = Rejected (RmFailed "EACCES") empty_db (after fs_protected []).
Proof.
  split.
  - apply (proj1 (removeSong_cleanup "s9" db_covers empty_db
                    ["/covers/low.png"; "/covers/high.png"] fs_open eq_refl)).
    intros done path rest _. reflexivity.
  - apply (proj1 (proj2 (removeSong_cleanup "s9" db_covers empty_db
                           ["/covers/low.png"; "/covers/high.png"] fs_protected
                           eq_refl))
             [] "/covers/low.png" ["/covers/high.png"] "EACCES" eq_refl).
    + intros done path rest H. destruct done; discriminate H.
    + reflexivity.
Defined.

(** A cover file that may not be unlinked: the error reaches the caller
    of [removeSong], and the second file is not removed. *)
Lemma removeSong_rejects_on_rm_failure :
  removeSong "s9" db_covers fs_protected
  = Rejected (RmFailed "EACCES") empty_db fs_protected
  /\ removed fs_protected = [].
Proof. split; reflexivity. Qed.

(* ================================================================= *)
(** ** Storing a song: what the entity resolvers leave alone *)

Lemma storeArtists_loop_frame uuid names : forall acc w,
  db (snd (storeArtists_loop uuid names acc w))
  = set_artists (artists (db (snd (storeArtists_loop uuid names acc w)))) (db w).
Proof.
  induction names as [|a rest IH]; intros acc w; cbn [storeArtists_loop].
  - destruct w as [[] n]; reflexivity.
  - unfold bind, select, v4, run.
    destruct (queryFirstCell _ _) as [found|];
      [destruct (JS.truthy (Some found))|];
      rewrite IH at 1; cbn [db]; try reflexivity;
      destruct (db w); reflexivity.
Qed.

Lemma storeGenre_loop_frame uuid names : forall acc w,
  db (snd (storeGenre_loop uuid names acc w))
  = set_genre (genre (db (snd (storeGenre_loop uuid names acc w)))) (db w).
Proof.
  induction names as [|a rest IH]; intros acc w; cbn [storeGenre_loop].
  - destruct w as [[] n]; reflexivity.
  - unfold bind, select, v4, run.
    destruct (queryFirstCell _ _) as [found|];
      [destruct (JS.truthy (Some found))|];
      rewrite IH at 1; cbn [db]; try reflexivity;
      destruct (db w); reflexivity.
Qed.

Lemma storeAlbum_frame uuid album w :
  db (snd (storeAlbum uuid album w))
  = set_albums (albums (db (snd (storeAlbum uuid album w)))) (db w).
Proof.
  unfold storeAlbum.
  destruct (Doc.album_name album) as [name|]; [|destruct w as [[] n]; reflexivity].
  destruct (JS.truthy (Some name)); [|destruct w as [[] n]; reflexivity].
  unfold bind, select, v4, run, ret.
  destruct (negb (JS.truthy _)); cbn [db snd]; destruct (db w); reflexivity.
Qed.

Lemma store_resolve uuid newDoc w :
  store uuid newDoc w
  = let '(artistID, albumID, genreID, w') := resolve uuid newDoc w in
    if (count_where _id (Doc._id newDoc) (allsongs (db w')) =? 0)%nat then
      (storeArtistBridge artistID (Doc._id newDoc) ;;
       storeGenreBridge genreID (Doc._id newDoc) ;;
       storeAlbumBridge albumID (Doc._id newDoc))%db
        {| db := set_allsongs (JS.push (allsongs (db w')) (marshalSong newDoc))
                   (db w');
           v4_calls := v4_calls w' |}
    else (tt, w').
Proof.
  unfold store, resolve, bind, select, ret, run, count_where.
  destruct (store_artistID uuid newDoc w) as [artistID w1].
  destruct (store_albumID uuid newDoc w1) as [albumID w2].
  destruct (storeGenre uuid (Doc.genre newDoc) w2) as [genreID w3].
  cbn [marshalSong _id]. destruct (_ =? 0)%nat; reflexivity.
Qed.

Lemma resolve_frame uuid newDoc w :
  let d' := db (snd (resolve uuid newDoc w)) in
  allsongs d' = allsongs (db w)
  /\ artists_bridge d' = artists_bridge (db w)
  /\ album_bridge d' = album_bridge (db w)
  /\ genre_bridge d' = genre_bridge (db w)
  /\ playlist_bridge d' = playlist_bridge (db w).
Proof.
  unfold resolve, bind, ret.
  destruct (store_artistID uuid newDoc w) as [artistID w1] eqn:E1.
  destruct (store_albumID uuid newDoc w1) as [albumID w2] eqn:E2.
  destruct (storeGenre uuid (Doc.genre newDoc) w2) as [genreID w3] eqn:E3.
  cbn [snd].
  assert (H1 : db w1 = set_artists (artists (db w1)) (db w)).
  { unfold store_artistID in E1. destruct (Doc.artists newDoc) as [names|].
    - pose proof (storeArtists_loop_frame uuid names [] w) as H.
      unfold storeArtists in E1. rewrite E1 in H. exact H.
    - inversion E1; subst. destruct (db w1); reflexivity. }
  assert (H2 : db w2 = set_albums (albums (db w2)) (db w1)).
  { unfold store_albumID in E2. destruct (Doc.album newDoc) as [album|].
    - pose proof (storeAlbum_frame uuid album w1) as H.
      rewrite E2 in H. exact H.
    - inversion E2; subst. destruct (db w2); reflexivity. }
  assert (H3 : db w3 = set_genre (genre (db w3)) (db w2)).
  { unfold storeGenre in E3. destruct (Doc.genre newDoc) as [names|].
    - pose proof (storeGenre_loop_frame uuid names [] w2) as H.
      rewrite E3 in H. exact H.
    - inversion E3; subst. destruct (db w3); reflexivity. }
  rewrite H3, H2, H1. repeat split.
Qed.

Lemma storeArtistBridge_frame ids songID w :
  db (snd (storeArtistBridge ids songID w))
  = set_artists_bridge
      (artists_bridge (db (snd (storeArtistBridge ids songID w)))) (db w).
Proof.
  unfold storeArtistBridge, run. cbn [snd db].
  assert (H : forall d,
             let f := fun d' i =>
                        set_artists_bridge
                          (JS.push (artists_bridge d') {| song := songID; entity := i |})
                          d' in
             fold_left f ids d = set_artists_bridge (artists_bridge (fold_left f ids d)) d).
  { induction ids as [|i ids IH]; intros d; simpl.
    - destruct d; reflexivity.
    - rewrite IH at 1. destruct d; reflexivity. }
  apply H.
Qed.

Lemma storeGenreBridge_frame ids songID w :
  db (snd (storeGenreBridge ids songID w))
  = set_genre_bridge
      (genre_bridge (db (snd (storeGenreBridge ids songID w)))) (db w).
Proof.
  unfold storeGenreBridge, run. cbn [snd db].
  assert (H : forall d,
             let f := fun d' i =>
                        set_genre_bridge
                          (JS.push (genre_bridge d') {| song := songID; entity := i |})
                          d' in
             fold_left f ids d = set_genre_bridge (genre_bridge (fold_left f ids d)) d).
  { induction ids as [|i ids IH]; intros d; simpl.
    - destruct d; reflexivity.
    - rewrite IH at 1. destruct d; reflexivity. }
  apply H.
Qed.

Lemma storeAlbumBridge_frame id songID w :
  db (snd (storeAlbumBridge id songID w))
  = set_album_bridge
      (album_bridge (db (snd (storeAlbumBridge id songID w)))) (db w).
Proof.
  unfold storeAlbumBridge, run, ret.
  destruct id as [i|]; [destruct (JS.truthy (Some i))|];
    cbn [snd db]; destruct (db w); reflexivity.
Qed.

(** The three bridge insertions of [store] change no other table. *)
Lemma bridges_frame artistID albumID genreID songID w :
  let d' := db (snd ((storeArtistBridge artistID songID ;;
                      storeGenreBridge genreID songID ;;
                      storeAlbumBridge albumID songID)%db w)) in
  allsongs d' = allsongs (db w)
  /\ artists d' = artists (db w)
  /\ albums d' = albums (db w)
  /\ genre d' = genre (db w).
Proof.
  unfold bind.
  destruct (storeArtistBridge artistID songID w) as [u1 wa] eqn:Ea.
  destruct (storeGenreBridge genreID songID wa) as [u2 wg] eqn:Eg.
  pose proof (storeAlbumBridge_frame albumID songID wg) as Hl.
  pose proof (storeGenreBridge_frame genreID songID wa) as Hg.
  pose proof (storeArtistBridge_frame artistID songID w) as Ha.
  rewrite Eg in Hg. rewrite Ea in Ha. cbn [snd] in *.
  cbv zeta. rewrite Hl, Hg, Ha. repeat split.
Qed.

(** [store] adds the song's row when no row has its identifier, and
    otherwise leaves [allsongs] and the bridge tables as they are. *)
Lemma store_allsongs uuid newDoc w :
  let d' := db (snd (store uuid newDoc w)) in
  (count_where _id (Doc._id newDoc) (allsongs (db w)) = 0 ->
   allsongs d' = JS.push (allsongs (db w)) (marshalSong newDoc))
  /\ (count_where _id (Doc._id newDoc) (allsongs (db w)) <> 0 ->
      allsongs d' = allsongs (db w)
      /\ artists_bridge d' = artists_bridge (db w)
      /\ album_bridge d' = album_bridge (db w)
      /\ genre_bridge d' = genre_bridge (db w)
      /\ playlist_bridge d' = playlist_bridge (db w)).
Proof.
  cbv zeta. rewrite store_resolve.
  pose proof (resolve_frame uuid newDoc w) as F. cbv zeta in F.
  destruct (resolve uuid newDoc w) as [[[artistID albumID] genreID] w'].
  cbn [snd] in F. destruct F as (Fs & Fa & Fl & Fg & Fp).
  cbv beta iota. rewrite Fs.
  split; intros H.
  - rewrite H. cbn [Nat.eqb].
    match goal with |- context [snd (?c ?w0)] =>
      destruct (bridges_frame artistID albumID genreID (Doc._id newDoc) w0)
        as (Hs & _) end.
    rewrite Hs. reflexivity.
  - apply Nat.eqb_neq in H. rewrite H. cbn [snd]. auto.
Qed.

(* ================================================================= *)
(** ** Storing a song twice *)

Lemma count_where_push {Row : Type} (col : Row -> string) v rows r :
  count_where col v (JS.push rows r)
  = count_where col v rows + (if col r =? v then 1 else 0).
Proof.
  unfold count_where, JS.push. rewrite filter_app, length_app. simpl.
  destruct (col r =? v); reflexivity.
Qed.

(** C3 (as the code has it): when [store] is called a second time with a
    song of the same identifier, the second call adds no song row and no
    bridge row: [allsongs] and the four bridge tables stay as the first
    call left them, and a library that had at most one row of that
    identifier has exactly one.  (The entity tables are not part of the
    guarantee: the artists, album and genres of the second song are
    resolved before the identifier is looked up.) *)
Theorem store_twice (uuid : nat -> string) (w : World) (s s' : Doc.Song) :
  Doc._id s' = Doc._id s ->
  let w1 := snd (store uuid s w) in
  let w2 := snd (store uuid s' w1) in
  allsongs (db w2) = allsongs (db w1)
  /\ artists_bridge (db w2) = artists_bridge (db w1)
  /\ album_bridge (db w2) = album_bridge (db w1)
  /\ genre_bridge (db w2) = genre_bridge (db w1)
  /\ playlist_bridge (db w2) = playlist_bridge (db w1)
  /\ (count_where _id (Doc._id s) (allsongs (db w)) <= 1 ->
      count_where _id (Doc._id s) (allsongs (db w2)) = 1).
Proof.
  intros Hid w1 w2.
  destruct (store_allsongs uuid s w) as [Hnew Hold]. fold w1 in Hnew, Hold.
  assert (Hcount : count_where _id (Doc._id s) (allsongs (db w1)) <> 0
                   /\ (count_where _id (Doc._id s) (allsongs (db w)) <= 1 ->
                       count_where _id (Doc._id s) (allsongs (db w1)) = 1)).
  { destruct (count_where _id (Doc._id s) (allsongs (db w))) as [|n] eqn:E.
    - rewrite (Hnew eq_refl), count_where_push, E.
      cbn [marshalSong _id]. rewrite String.eqb_refl. split; [discriminate|auto].
    - destruct (Hold (Nat.neq_succ_0 n)) as (Hs & _). rewrite Hs, E.
      split; [discriminate | lia]. }
  destruct Hcount as [Hstored Hone].
  destruct (store_allsongs uuid s' w1) as [_ Hsame]. fold w2 in Hsame.
  rewrite Hid in Hsame. destruct (Hsame Hstored) as (H1 & H2 & H3 & H4 & H5).
  repeat split; try assumption.
  intros Hle. rewrite H1. apply Hone. exact Hle.
Qed.

Lemma store_twice_witness :
  let w1 := snd (store uuid_of_nat song_one world0) in
  let w2 := snd (store uuid_of_nat song_one_again w1) in
  allsongs (db w2) = allsongs (db w1)
  /\ artists_bridge (db w2) = artists_bridge (db w1)
  /\ album_bridge (db w2) = album_bridge (db w1)
  /\ genre_bridge (db w2) = genre_bridge (db w1)
  /\ playlist_bridge (db w2) = playlist_bridge (db w1)
  /\ (count_where _id "s1" (allsongs (db world0)) <= 1 ->
      count_where _id "s1" (allsongs (db w2)) = 1).
Proof.
  apply (store_twice uuid_of_nat world0 song_one song_one_again). reflexivity.
Defined.

(** The second call is no no-op: it inserts the artist of the second
    song, which the library did not have; and a song stored twice as it
    is, whose album name begins with a space, gets a second album row. *)
Lemma second_store_changes_entities :
  db (snd (store uuid_of_nat song_one_again
             (snd (store uuid_of_nat song_one world0))))
  <> db (snd (store uuid_of_nat song_one world0))
  /\ db (snd (store uuid_of_nat song_spaced
                (snd (store uuid_of_nat song_spaced world0))))
     <> db (snd (store uuid_of_nat song_spaced world0)).
Proof.
  split; intros H.
  - apply (f_equal (fun d => length (artists d))) in H. vm_compute in H.
    discriminate H.
  - apply (f_equal (fun d => length (albums d))) in H. vm_compute in H.
    discriminate H.
Qed.

(* ================================================================= *)
(** ** Storing a song of an album that exists *)

Lemma storeAlbum_found uuid album name r0 others w :
  Doc.album_name album = Some name -> name <> "" ->
  filter (fun r => SQL.eq_nocase (album_name r) (JS.trim name)) (albums (db w))
  = r0 :: others ->
  album_id r0 <> "" ->
  storeAlbum uuid album w
  = (Some (album_id r0),
     {| db := set_albums
                (insert_or_replace_album (album_id r0) album (albums (db w)))
                (db w);
        v4_calls := v4_calls w |}).
Proof.
  intros Hname Hne Hfound Hid. unfold storeAlbum. rewrite Hname.
  unfold JS.truthy at 1. apply String.eqb_neq in Hne. rewrite Hne. cbn [negb].
  unfold bind, select, ret, run. rewrite Hfound. cbn [queryFirstCell].
  unfold JS.truthy. apply String.eqb_neq in Hid. rewrite Hid. reflexivity.
Qed.

(** C4 (as the code has it): when the album name of a stored song, once
    trimmed, equals up to case the name of a row of [albums], the row
    keeps its [album_id] and is replaced: its name, both cover paths and
    [album_artist] become those of the incoming song's album, and its
    song count restarts at the default. *)
Theorem store_replaces_album_details (uuid : nat -> string) (w : World)
    (newDoc : Doc.Song) (album : Doc.Album) (name : string)
    (r0 : AlbumRow) (others : list AlbumRow) :
  Doc.album newDoc = Some album ->
  Doc.album_name album = Some name -> name <> "" ->
  filter (fun r => SQL.eq_nocase (album_name r) (JS.trim name)) (albums (db w))
  = r0 :: others ->
  album_id r0 <> "" ->
  albums (db (snd (store uuid newDoc w)))
  = JS.push (delete_where album_id (album_id r0) (albums (db w)))
      {| album_id := album_id r0;
         album_name := Some name;
         album_coverPath_low := Doc.album_coverPath_low album;
         album_coverPath_high := Doc.album_coverPath_high album;
         album_artist := Doc.album_artist album;
         album_song_count := 0 |}.
Proof.
  intros Halbum Hname Hne Hfound Hid.
  assert (R : exists artistID genreID w3,
             resolve uuid newDoc w = (artistID, Some (album_id r0), genreID, w3)
             /\ albums (db w3)
                = insert_or_replace_album (album_id r0) album (albums (db w))).
  { unfold resolve, bind, ret.
    destruct (store_artistID uuid newDoc w) as [artistID w1] eqn:E1.
    assert (H1 : albums (db w1) = albums (db w)).
    { unfold store_artistID in E1. destruct (Doc.artists newDoc) as [names|].
      - pose proof (storeArtists_loop_frame uuid names [] w) as H.
        unfold storeArtists in E1. rewrite E1 in H. cbn [snd] in H.
        rewrite H. reflexivity.
      - inversion E1; subst. reflexivity. }
    unfold store_albumID. rewrite Halbum.
    rewrite (storeAlbum_found uuid album name r0 others w1 Hname Hne)
      by (rewrite ?H1; assumption).
    match goal with |- context [storeGenre uuid ?g ?w2] =>
      destruct (storeGenre uuid g w2) as [genreID w3] eqn:E3 end.
    exists artistID, genreID, w3. split; [reflexivity|].
    unfold storeGenre in E3. destruct (Doc.genre newDoc) as [names|].
    - match type of E3 with storeGenre_loop _ _ _ ?w2 = _ =>
        pose proof (storeGenre_loop_frame uuid names [] w2) as H end.
      rewrite E3 in H. cbn [snd] in H. rewrite H. cbn. rewrite H1. reflexivity.
    - inversion E3; subst. cbn. rewrite H1. reflexivity. }
  destruct R as (artistID & genreID & w3 & R & H3).
  rewrite store_resolve, R.
  assert (Hgoal : insert_or_replace_album (album_id r0) album (albums (db w))
                  = JS.push (delete_where album_id (album_id r0) (albums (db w)))
                      {| album_id := album_id r0;
                         album_name := Some name;
                         album_coverPath_low := Doc.album_coverPath_low album;
                         album_coverPath_high := Doc.album_coverPath_high album;
                         album_artist := Doc.album_artist album;
                         album_song_count := 0 |}).
  { unfold insert_or_replace_album. rewrite Hname. reflexivity. }
  rewrite <- Hgoal, <- H3.
  destruct (_ =? 0)%nat; [|reflexivity].
  match goal with |- context [snd (?c ?w0)] =>
    destruct (bridges_frame artistID (Some (album_id r0)) genreID
                (Doc._id newDoc) w0) as (_ & _ & Hl & _) end.
  rewrite Hl. reflexivity.
Qed.

Lemma store_replaces_album_details_witness :
  albums (db (snd (store uuid_of_nat song_two
                     (snd (store uuid_of_nat song_one world0)))))
  = JS.push (delete_where album_id "00000000-0000-4000-8000-1"
               (albums (db (snd (store uuid_of_nat song_one world0)))))
      {| album_id := "00000000-0000-4000-8000-1";
         album_name := Some "discovery";
         album_coverPath_low := Some "/covers/new_low.png";
         album_coverPath_high := None;
         album_artist := Some "Various";
         album_song_count := 0 |}.
Proof.
  apply (store_replaces_album_details uuid_of_nat
           (snd (store uuid_of_nat song_one world0)) song_two
           {| Doc.album_name := Some "discovery";
              Doc.album_coverPath_low := Some "/covers/new_low.png";
              Doc.album_coverPath_high := None;
              Doc.album_artist := Some "Various" |}
           "discovery"
           {| album_id := "00000000-0000-4000-8000-1";
              album_name := Some "Discovery";
              album_coverPath_low := Some "/covers/d_low.png";
              album_coverPath_high := Some "/covers/d_high.png";
              album_artist := Some "Daft Punk";
              album_song_count := 0 |}
           []).
  - reflexivity.
  - reflexivity.
  - discriminate.
  - reflexivity.
  - discriminate.
Defined.

(** The album "Discovery" exists with its covers and album artist; a
    second song of the album "discovery" overwrites all three. *)
Lemma store_overwrites_album_details :
  let w1 := snd (store uuid_of_nat song_one world0) in
  let w2 := snd (store uuid_of_nat song_two w1) in
  map album_id (albums (db w2)) = map album_id (albums (db w1))
  /\ map album_coverPath_low (albums (db w1)) = [Some "/covers/d_low.png"]
  /\ map album_coverPath_low (albums (db w2)) = [Some "/covers/new_low.png"]
  /\ map album_coverPath_high (albums (db w1)) = [Some "/covers/d_high.png"]
  /\ map album_coverPath_high (albums (db w2)) = [None]
  /\ map album_artist (albums (db w1)) = [Some "Daft Punk"]
  /\ map album_artist (albums (db w2)) = [Some "Various"].
Proof. repeat split. Qed.

(* ================================================================= *)
(** ** Resolving names that differ in case and white space *)

Lemma nocase_eqb_right a : forall b x,
  SQL.nocase_eqb a b = true -> SQL.nocase_eqb x a = SQL.nocase_eqb x b.
Proof.
  induction a as [|c a IH]; intros [|d b] [|y x] H; simpl in *;
    try reflexivity; try discriminate.
  apply andb_prop in H. destruct H as [Hc Ha].
  apply Ascii.eqb_eq in Hc. rewrite Hc, (IH b x Ha). reflexivity.
Qed.

Lemma nocase_eqb_refl a : SQL.nocase_eqb a a = true.
Proof.
  induction a as [|c a IH]; simpl; [reflexivity|].
  rewrite Ascii.eqb_refl. exact IH.
Qed.

Lemma storeArtists_one_found uuid n w r rest :
  filter (fun r => SQL.eq_nocase (artist_name r) (JS.trim n)) (artists (db w))
  = r :: rest ->
  artist_id r <> "" ->
  storeArtists uuid [n] w = ([artist_id r], w).
Proof.
  intros E Hid. unfold storeArtists. cbn [storeArtists_loop].
  unfold bind, select. rewrite E. cbn [queryFirstCell].
  unfold JS.truthy. apply String.eqb_neq in Hid. rewrite Hid. reflexivity.
Qed.

Lemma storeArtists_one_new uuid n w :
  filter (fun r => SQL.eq_nocase (artist_name r) (JS.trim n)) (artists (db w))
  = [] ->
  storeArtists uuid [n] w
  = ([uuid (v4_calls w)],
     {| db := set_artists
                (JS.push (artists (db w))
                   {| artist_id := uuid (v4_calls w);
                      artist_name := Some (JS.trim n);
                      artist_coverPath := None; artist_song_count := 0 |})
                (db w);
        v4_calls := S (v4_calls w) |}).
Proof.
  intros E. unfold storeArtists. cbn [storeArtists_loop].
  unfold bind, select. rewrite E. reflexivity.
Qed.

(** X19: artist names that are equal after trimming and case folding
    resolve to one identifier and to at most one new row, in a table
    whose identifiers are not empty and with a [v4()] that returns
    none. *)
Lemma storeArtists_same_identifier (uuid : nat -> string) (w : World)
    (n1 n2 : string) :
  SQL.nocase_eqb (JS.trim n1) (JS.trim n2) = true ->
  Forall (fun r => artist_id r <> "") (artists (db w)) ->
  (forall n, uuid n <> "") ->
  let r1 := storeArtists uuid [n1] w in
  let r2 := storeArtists uuid [n2] (snd r1) in
  fst r1 = fst r2
  /\ length (fst r1) = 1
  /\ length (artists (db (snd r2))) <= S (length (artists (db w))).
Proof.
  intros Heq Hids Huuid.
  assert (Hsame : forall rows,
            filter (fun r => SQL.eq_nocase (artist_name r) (JS.trim n2)) rows
            = filter (fun r => SQL.eq_nocase (artist_name r) (JS.trim n1)) rows).
  { intros rows. apply filter_ext. intros r. unfold SQL.eq_nocase.
    destruct (artist_name r) as [v|]; [|reflexivity].
    symmetry. apply nocase_eqb_right. exact Heq. }
  destruct (filter (fun r => SQL.eq_nocase (artist_name r) (JS.trim n1))
              (artists (db w))) as [|r rest] eqn:E.
  - rewrite (storeArtists_one_new uuid n1 w E). cbn [snd fst].
    rewrite (storeArtists_one_found uuid n2 _
               {| artist_id := uuid (v4_calls w);
                  artist_name := Some (JS.trim n1);
                  artist_coverPath := None; artist_song_count := 0 |} []).
    + cbn. unfold JS.push. rewrite length_app. simpl. repeat split. lia.
    + rewrite Hsame. cbn [db artists set_artists]. unfold JS.push.
      rewrite filter_app, E. cbn [filter app SQL.eq_nocase artist_name].
      rewrite nocase_eqb_refl. reflexivity.
    + apply Huuid.
  - assert (Hr : artist_id r <> "").
    { rewrite Forall_forall in Hids. apply Hids.
      assert (X : In r (r :: rest)) by (left; reflexivity).
      rewrite <- E in X. apply filter_In in X. tauto. }
    rewrite (storeArtists_one_found uuid n1 w r rest E Hr). cbn [snd fst].
    rewrite (storeArtists_one_found uuid n2 w r rest) by (rewrite ?Hsame; assumption).
    cbn. repeat split. lia.
Qed.

(** C2, on the library in which [song_spaced] and then [song_one] are
    stored: the two artist names share one row and one identifier; the
    album names " Discovery" and "Discovery", and the genre names
    " house" and "House", equal after trimming and case folding, each get
    two rows and two identifiers. *)
Theorem album_and_genre_names_not_deduplicated :
  let w1 := snd (store uuid_of_nat song_spaced world0) in
  let w2 := snd (store uuid_of_nat song_one w1) in
  SQL.nocase_eqb (JS.trim " Discovery") (JS.trim "Discovery") = true
  /\ SQL.nocase_eqb (JS.trim " house") (JS.trim "House") = true
  /\ map artist_name (artists (db w2)) = [Some "daft punk"]
  /\ map entity (artists_bridge (db w2))
     = [uuid_of_nat 0; uuid_of_nat 0]
  /\ map album_name (albums (db w2)) = [Some " Discovery"; Some "Discovery"]
  /\ map entity (album_bridge (db w2))
     = [uuid_of_nat 1; uuid_of_nat 3]
  /\ map genre_name (genre (db w2)) = [Some " house"; Some "House"]
  /\ map entity (genre_bridge (db w2))
     = [uuid_of_nat 2; uuid_of_nat 4].
Proof. repeat split. Qed.

(* ================================================================= *)
(** ** Song counts of artists, genres and playlists *)

Lemma recount_rows {Row : Type} (key : Row -> string) (cnt : Row -> nat)
    (set : nat -> Row -> Row) (bridge : list BridgeRow) ids :
  (forall n r, key (set n r) = key r) ->
  (forall n r, cnt (set n r) = n) ->
  forall rows,
    Forall (fun r => cnt r = count_where entity (key r) bridge
                     \/ In (key r) ids) rows ->
    Forall (fun r => cnt r = count_where entity (key r) bridge)
      (fold_left
         (fun rows id =>
            map (fun r => if key r =? id
                          then set (count_where entity id bridge) r else r)
              rows)
         ids rows).
Proof.
  intros Hkey Hcnt. induction ids as [|id rest IH]; intros rows H; simpl.
  - eapply Forall_impl; [|exact H]. intros r [Hr|[]]. exact Hr.
  - apply IH. apply Forall_map. eapply Forall_impl; [|exact H].
    intros r Hr. simpl in Hr.
    destruct (key r =? id) eqn:E.
    + left. apply String.eqb_eq in E. subst id. rewrite Hcnt, Hkey. reflexivity.
    + destruct Hr as [Hr|[Hr|Hr]]; [left; exact Hr | | right; exact Hr].
      subst id. rewrite String.eqb_refl in E. discriminate.
Qed.

Lemma updateSongCountPlaylists_fold ids : forall d,
  let d' := fold_left
              (fun d' id =>
                 set_playlists
                   (set_playlist_song_count id
                      (count_where entity id (playlist_bridge d')) (playlists d'))
                   d')
              ids d in
  d' = set_playlists
         (fold_left
            (fun rows id =>
               set_playlist_song_count id
                 (count_where entity id (playlist_bridge d)) rows)
            ids (playlists d))
         d.
Proof.
  induction ids as [|id rest IH]; intros d; simpl.
  - destruct d; reflexivity.
  - rewrite IH. destruct d; reflexivity.
Qed.

Lemma updateSongCountArtists_fold ids : forall d,
  let d' := fold_left
              (fun d' id =>
                 set_artists
                   (set_artist_song_count id
                      (count_where entity id (artists_bridge d')) (artists d'))
                   d')
              ids d in
  d' = set_artists
         (fold_left
            (fun rows id =>
               set_artist_song_count id
                 (count_where entity id (artists_bridge d)) rows)
            ids (artists d))
         d.
Proof.
  induction ids as [|id rest IH]; intros d; simpl.
  - destruct d; reflexivity.
  - rewrite IH. destruct d; reflexivity.
Qed.

Lemma updateSongCountGenre_fold ids : forall d,
  let d' := fold_left
              (fun d' id =>
                 set_genre
                   (set_genre_song_count id
                      (count_where entity id (genre_bridge d')) (genre d'))
                   d')
              ids d in
  d' = set_genre
         (fold_left
            (fun rows id =>
               set_genre_song_count id
                 (count_where entity id (genre_bridge d)) rows)
            ids (genre d))
         d.
Proof.
  induction ids as [|id rest IH]; intros d; simpl.
  - destruct d; reflexivity.
  - rewrite IH. destruct d; reflexivity.
Qed.

Lemma playlists_recounted (d : DB) :
  Forall
    (fun r => playlist_song_count r
              = count_where entity (playlist_id r)
                  (playlist_bridge (updateSongCountPlaylists d)))
    (playlists (updateSongCountPlaylists d)).
Proof.
  unfold updateSongCountPlaylists.
  rewrite (updateSongCountPlaylists_fold (map playlist_id (playlists d)) d).
  cbn [playlists playlist_bridge set_playlists].
  apply (recount_rows playlist_id playlist_song_count
           (fun n r =>
              {| playlist_id := playlist_id r; playlist_name := playlist_name r;
                 playlist_desc := playlist_desc r;
                 playlist_coverPath := playlist_coverPath r;
                 playlist_song_count := n |})
           (playlist_bridge d)); try reflexivity.
  apply Forall_forall. intros r Hr. right. apply in_map. exact Hr.
Qed.

Lemma updateSongCountPlaylists_frame (d : DB) :
  let d' := updateSongCountPlaylists d in
  d' = set_playlists (playlists d') d
  /\ map playlist_id (playlists d') = map playlist_id (playlists d)
  /\ map playlist_coverPath (playlists d') = map playlist_coverPath (playlists d).
Proof.
  cbv zeta. unfold updateSongCountPlaylists.
  rewrite (updateSongCountPlaylists_fold (map playlist_id (playlists d)) d).
  cbn [playlists playlist_bridge set_playlists].
  split; [destruct d; reflexivity|].
  assert (H : forall ids rows,
             let rows' :=
               fold_left
                 (fun rows id =>
                    set_playlist_song_count id
                      (count_where entity id (playlist_bridge d)) rows)
                 ids rows in
             map playlist_id rows' = map playlist_id rows
             /\ map playlist_coverPath rows' = map playlist_coverPath rows).
  { induction ids as [|id rest IH]; intros rows; simpl; [split; reflexivity|].
    destruct (IH (set_playlist_song_count id
                    (count_where entity id (playlist_bridge d)) rows))
      as [H1 H2].
    rewrite H1, H2. unfold set_playlist_song_count. rewrite !map_map.
    split; apply map_ext; intros r; destruct (playlist_id r =? id);
      reflexivity. }
  apply H.
Qed.

(** X1: after [updateSongCountPlaylists] every playlist row carries the
    number of rows of [playlist_bridge] that name it; no other table has
    changed, and no playlist has changed its identifier or its cover. *)
Theorem updateSongCountPlaylists_counts (d : DB) :
  let d' := updateSongCountPlaylists d in
  Forall
    (fun r => playlist_song_count r
              = count_where entity (playlist_id r) (playlist_bridge d'))
    (playlists d')
  /\ d' = set_playlists (playlists d') d
  /\ map playlist_id (playlists d') = map playlist_id (playlists d)
  /\ map playlist_coverPath (playlists d') = map playlist_coverPath (playlists d).
Proof.
  cbv zeta. split.
  - apply playlists_recounted.
  - apply updateSongCountPlaylists_frame.
Qed.

(** X2: after [updateSongCountArtists] every artist row carries the
    number of rows of [artists_bridge] that name it.  The rows are those
    of before, in their order, with nothing but the count rewritten, and
    no other table has changed. *)
Theorem updateSongCountArtists_counts (d : DB) :
  let d' := updateSongCountArtists d in
  Forall
    (fun r => artist_song_count r
              = count_where entity (artist_id r) (artists_bridge d'))
    (artists d')
  /\ artists d'
     = map (fun r =>
              {| artist_id := artist_id r; artist_name := artist_name r;
                 artist_coverPath := artist_coverPath r;
                 artist_song_count :=
                   count_where entity (artist_id r) (artists_bridge d) |})
         (artists d)
  /\ d' = set_artists (artists d') d.
Proof.
  cbv zeta. unfold updateSongCountArtists.
  rewrite (updateSongCountArtists_fold (map artist_id (artists d)) d).
  cbn [artists artists_bridge set_artists].
  split; [|split; [|destruct d; reflexivity]].
  - apply (recount_rows artist_id artist_song_count
             (fun n r =>
                {| artist_id := artist_id r; artist_name := artist_name r;
                   artist_coverPath := artist_coverPath r;
                   artist_song_count := n |})
             (artists_bridge d)); try reflexivity.
    apply Forall_forall. intros r Hr. right. apply in_map. exact Hr.
  - apply (recount_every artist_id
             (fun n r =>
                {| artist_id := artist_id r; artist_name := artist_name r;
                   artist_coverPath := artist_coverPath r;
                   artist_song_count := n |})
             (fun id => count_where entity id (artists_bridge d)));
      reflexivity.
Qed.

(** X3: after [updateSongCountGenre] every genre row carries the number
    of rows of [genre_bridge] that name it.  The rows are those of
    before, in their order, with nothing but the count rewritten, and no
    other table has changed. *)
Theorem updateSongCountGenre_counts (d : DB) :
  let d' := updateSongCountGenre d in
  Forall
    (fun r => genre_song_count r
              = count_where entity (genre_id r) (genre_bridge d'))
    (genre d')
  /\ genre d'
     = map (fun r =>
              {| genre_id := genre_id r; genre_name := genre_name r;
                 genre_song_count :=
                   count_where entity (genre_id r) (genre_bridge d) |})
         (genre d)
  /\ d' = set_genre (genre d') d.
Proof.
  cbv zeta. unfold updateSongCountGenre.
  rewrite (updateSongCountGenre_fold (map genre_id (genre d)) d).
  cbn [genre genre_bridge set_genre].
  split; [|split; [|destruct d; reflexivity]].
  - apply (recount_rows genre_id genre_song_count
             (fun n r =>
                {| genre_id := genre_id r; genre_name := genre_name r;
                   genre_song_count := n |})
             (genre_bridge d)); try reflexivity.
    apply Forall_forall. intros r Hr. right. apply in_map. exact Hr.
  - apply (recount_every genre_id
             (fun n r =>
                {| genre_id := genre_id r; genre_name := genre_name r;
                   genre_song_count := n |})
             (fun id => count_where entity id (genre_bridge d)));
      reflexivity.
Qed.

(* ================================================================= *)
(** ** Playlists: creation, removal and membership *)

Lemma delete_where_absent {Row : Type} (col : Row -> string) v rows :
  count_where col v rows = 0 -> delete_where col v rows = rows.
Proof.
  unfold count_where, delete_where.
  induction rows as [|r rows IH]; simpl; [reflexivity|].
  destruct (col r =? v); simpl; [discriminate|].
  intros H. rewrite (IH H). reflexivity.
Qed.

Lemma delete_where_push_same {Row : Type} (col : Row -> string) v rows r :
  col r = v -> delete_where col v (JS.push rows r) = delete_where col v rows.
Proof.
  intros E. unfold delete_where, JS.push. rewrite filter_app. simpl.
  rewrite E, String.eqb_refl. simpl. apply app_nil_r.
Qed.

Lemma filter_delete_where_same {Row : Type} (key : Row -> string) a rows :
  filter (fun r => key r =? a) (delete_where key a rows) = [].
Proof.
  pose proof (count_where_delete_where key a rows) as H.
  unfold count_where in H. apply length_zero_iff_nil in H. exact H.
Qed.

(** X4: [removePlaylist] deletes the rows of the playlist and the rows of
    [playlist_bridge] that name it; the rows of every other playlist and
    every other table, the songs among them, stay as they are. *)
Theorem removePlaylist_only_that_playlist (id : string) (d : DB) :
  let d' := removePlaylist id d in
  count_where playlist_id id (playlists d') = 0
  /\ count_where entity id (playlist_bridge d') = 0
  /\ (forall other, other <> id ->
        filter (fun r => playlist_id r =? other) (playlists d')
        = filter (fun r => playlist_id r =? other) (playlists d)
        /\ filter (fun r => entity r =? other) (playlist_bridge d')
           = filter (fun r => entity r =? other) (playlist_bridge d))
  /\ d' = set_playlists (playlists d') (set_playlist_bridge (playlist_bridge d') d).
Proof.
  cbv zeta. unfold removePlaylist. cbn [playlists playlist_bridge
    set_playlists set_playlist_bridge].
  split; [apply count_where_delete_where|].
  split; [apply count_where_delete_where|].
  split; [|destruct d; reflexivity].
  intros other Hne. split; apply filter_delete_where_other; exact Hne.
Qed.

Lemma removePlaylist_only_that_playlist_witness :
  filter (fun r => playlist_id r =? "p1")
    (playlists (removePlaylist "p9" db_with_playlist))
  = filter (fun r => playlist_id r =? "p1") (playlists db_with_playlist)
  /\ filter (fun r => entity r =? "p1")
       (playlist_bridge (removePlaylist "p9" db_with_playlist))
     = filter (fun r => entity r =? "p1") (playlist_bridge db_with_playlist).
Proof.
  apply (proj1 (proj2 (proj2
           (removePlaylist_only_that_playlist "p9" db_with_playlist))) "p1").
  discriminate.
Defined.

(** X5: [createPlaylist] returns the identifier [v4()] gave and inserts
    one row that carries it with the name, the description and the
    cover; when no playlist row and no bridge row had that identifier,
    [removePlaylist] of it gives the database back as it was. *)
Theorem createPlaylist_removePlaylist (uuid : nat -> string)
    (name desc imgSrc : string) (w : World) :
  let id := fst (createPlaylist uuid name desc imgSrc w) in
  let d1 := db (snd (createPlaylist uuid name desc imgSrc w)) in
  id = uuid (v4_calls w)
  /\ playlists d1
     = JS.push (playlists (db w))
         {| playlist_id := id; playlist_name := Some name;
            playlist_desc := Some desc; playlist_coverPath := Some imgSrc;
            playlist_song_count := 0 |}
  /\ (count_where playlist_id id (playlists (db w)) = 0 ->
      count_where entity id (playlist_bridge (db w)) = 0 ->
      removePlaylist id d1 = db w).
Proof.
  cbv zeta. unfold createPlaylist, bind, v4, run, ret. cbn [fst snd db].
  split; [reflexivity|]. split; [reflexivity|].
  intros Hp Hb. unfold removePlaylist.
  cbn [playlists playlist_bridge set_playlists set_playlist_bridge].
  rewrite delete_where_push_same by reflexivity.
  rewrite (delete_where_absent _ _ _ Hp), (delete_where_absent _ _ _ Hb).
  destruct (db w); reflexivity.
Qed.

Lemma createPlaylist_removePlaylist_witness :
  removePlaylist (fst (createPlaylist uuid_of_nat "Mix" "for the road" "/covers/mix.png"
                         {| db := db_with_playlist; v4_calls := 5 |}))
    (db (snd (createPlaylist uuid_of_nat "Mix" "for the road" "/covers/mix.png"
                {| db := db_with_playlist; v4_calls := 5 |})))
  = db_with_playlist.
Proof.
  apply (proj2 (proj2 (createPlaylist_removePlaylist uuid_of_nat
                         "Mix" "for the road" "/covers/mix.png"
                         {| db := db_with_playlist; v4_calls := 5 |})));
    reflexivity.
Defined.

(* ================================================================= *)
(** ** Adding songs to a playlist *)

(** The cover the statements of the loop have set so far, applied. *)
Lemma last_album_cover_from songs : forall acc,
  fold_left
    (fun acc s =>
       let cover := opt_chain (Doc.album s) Doc.album_coverPath_high in
       if JS.truthy cover then cover else acc)
    songs acc
  = match last_album_cover songs with
    | Some c => Some c
    | None => acc
    end.
Proof.
  induction songs as [|s rest IH]; intros acc; [reflexivity|].
  assert (E : last_album_cover (s :: rest)
              = match last_album_cover rest with
                | Some c => Some c
                | None =>
                    if JS.truthy (opt_chain (Doc.album s) Doc.album_coverPath_high)
                    then opt_chain (Doc.album s) Doc.album_coverPath_high
                    else None
                end).
  { unfold last_album_cover at 1. cbn [fold_left]. apply IH. }
  rewrite E. cbn [fold_left]. rewrite IH.
  destruct (last_album_cover rest); [reflexivity|].
  destruct (opt_chain (Doc.album s) Doc.album_coverPath_high) as [c|];
    [destruct (JS.truthy (Some c))|]; reflexivity.
Qed.

Lemma updatePlaylistCoverPath_twice id c1 c2 d :
  updatePlaylistCoverPath id c2 (updatePlaylistCoverPath id c1 d)
  = updatePlaylistCoverPath id c2 d.
Proof.
  unfold updatePlaylistCoverPath. cbn [playlists set_playlists].
  rewrite map_map.
  replace (map _ (playlists d))
    with (map (fun r =>
                 if playlist_id r =? id then
                   {| playlist_id := playlist_id r;
                      playlist_name := playlist_name r;
                      playlist_desc := playlist_desc r;
                      playlist_coverPath := Some c2;
                      playlist_song_count := playlist_song_count r |}
                 else r) (playlists d)).
  - destruct d; reflexivity.
  - apply map_ext. intros r. destruct (playlist_id r =? id) eqn:E; simpl;
      rewrite E; reflexivity.
Qed.

Lemma last_album_cover_cons s rest :
  last_album_cover (s :: rest)
  = match last_album_cover rest with
    | Some c => Some c
    | None =>
        if JS.truthy (opt_chain (Doc.album s) Doc.album_coverPath_high)
        then opt_chain (Doc.album s) Doc.album_coverPath_high
        else None
    end.
Proof.
  unfold last_album_cover at 1. cbn [fold_left]. apply last_album_cover_from.
Qed.

Lemma addToPlaylist_loop_cover id songs : forall d,
  fold_left (addToPlaylist_step id true) songs d
  = set_playlist_bridge
      (playlist_bridge d
         ++ map (fun s => {| song := Doc._id s; entity := id |}) songs)%list
      d.
Proof.
  induction songs as [|s rest IH]; intros d.
  - simpl. rewrite app_nil_r. destruct d; reflexivity.
  - cbn [fold_left map]. rewrite IH. unfold addToPlaylist_step. cbn [negb].
    cbn [playlist_bridge set_playlist_bridge]. unfold JS.push.
    rewrite <- app_assoc. destruct d; reflexivity.
Qed.

Lemma updatePlaylistCoverPath_bridge id c b d :
  updatePlaylistCoverPath id c (set_playlist_bridge b d)
  = set_playlist_bridge b (updatePlaylistCoverPath id c d).
Proof. destruct d; reflexivity. Qed.

Lemma set_playlist_bridge_twice b1 b2 d :
  set_playlist_bridge b2 (set_playlist_bridge b1 d) = set_playlist_bridge b2 d.
Proof. destruct d; reflexivity. Qed.

Lemma addToPlaylist_loop_no_cover id songs : forall d,
  fold_left (addToPlaylist_step id false) songs d
  = set_playlist_bridge
      (playlist_bridge d
         ++ map (fun s => {| song := Doc._id s; entity := id |}) songs)%list
      (match last_album_cover songs with
       | Some c => updatePlaylistCoverPath id c d
       | None => d
       end).
Proof.
  induction songs as [|s rest IH]; intros d.
  - simpl. rewrite app_nil_r. destruct d; reflexivity.
  - cbn [fold_left map]. rewrite IH, last_album_cover_cons.
    unfold addToPlaylist_step. cbn [negb].
    destruct (last_album_cover rest) as [c'|];
      destruct (opt_chain (Doc.album s) Doc.album_coverPath_high) as [c|];
      try destruct (JS.truthy (Some c));
      cbn [JS.truthy];
      rewrite ?updatePlaylistCoverPath_bridge, ?set_playlist_bridge_twice,
        ?updatePlaylistCoverPath_twice;
      cbn [playlist_bridge set_playlist_bridge updatePlaylistCoverPath
           set_playlists];
      unfold JS.push; rewrite <- app_assoc; reflexivity.
Qed.

(** What the loop of [addToPlaylist] has done when it ends. *)
Lemma addToPlaylist_loop id coverExists songs d :
  fold_left (addToPlaylist_step id coverExists) songs d
  = set_playlist_bridge
      (playlist_bridge d
         ++ map (fun s => {| song := Doc._id s; entity := id |}) songs)%list
      (if coverExists then d
       else match last_album_cover songs with
            | Some c => updatePlaylistCoverPath id c d
            | None => d
            end).
Proof.
  destruct coverExists;
    [apply addToPlaylist_loop_cover | apply addToPlaylist_loop_no_cover].
Qed.

Lemma isPlaylistCoverExists_none id d :
  count_where playlist_id id (playlists d) = 0 ->
  isPlaylistCoverExists id d = None.
Proof.
  unfold count_where, isPlaylistCoverExists. intros H.
  apply length_zero_iff_nil in H. rewrite H. reflexivity.
Qed.

Lemma isPlaylistCoverExists_some id d :
  count_where playlist_id id (playlists d) <> 0 ->
  exists b, isPlaylistCoverExists id d = Some b.
Proof.
  unfold count_where, isPlaylistCoverExists. intros H.
  destruct (filter _ (playlists d)) as [|r rest]; [contradiction|].
  eexists. reflexivity.
Qed.

(** X6: [addToPlaylist] on an identifier that no playlist has fails
    before it has changed anything.  On a playlist that exists it appends
    to [playlist_bridge] one row per given song, in the order given and
    without looking for rows that are there already, leaves every table
    but [playlists] and [playlist_bridge] as it was, and ends with every
    playlist's song count equal to its number of bridge rows. *)
Theorem addToPlaylist_links (id : string) (songs : list Doc.Song) (d : DB) :
  (count_where playlist_id id (playlists d) = 0 ->
   addToPlaylist id songs d = None)
  /\ (count_where playlist_id id (playlists d) <> 0 ->
      exists d',
        addToPlaylist id songs d = Some d'
        /\ playlist_bridge d'
           = (playlist_bridge d
                ++ map (fun s => {| song := Doc._id s; entity := id |}) songs)%list
        /\ Forall
             (fun r => playlist_song_count r
                       = count_where entity (playlist_id r) (playlist_bridge d'))
             (playlists d')
        /\ map playlist_id (playlists d') = map playlist_id (playlists d)
        /\ d' = set_playlists (playlists d')
                  (set_playlist_bridge (playlist_bridge d') d)).
Proof.
  split; intros H.
  - unfold addToPlaylist. rewrite (isPlaylistCoverExists_none id d H).
    reflexivity.
  - destruct (isPlaylistCoverExists_some id d H) as (b & E).
    unfold addToPlaylist. rewrite E. eexists. split; [reflexivity|].
    destruct (updateSongCountPlaylists_frame
                (fold_left (addToPlaylist_step id b) songs d)) as (F1 & F2 & _).
    cbv zeta in F1, F2.
    split; [|split; [apply playlists_recounted|split]].
    + rewrite updateSongCountPlaylists_bridge, addToPlaylist_loop.
      reflexivity.
    + rewrite F2, addToPlaylist_loop.
      destruct b; [reflexivity|].
      destruct (last_album_cover songs) as [c|]; [|reflexivity].
      cbn [playlists set_playlist_bridge updatePlaylistCoverPath set_playlists].
      rewrite map_map. apply map_ext. intros r.
      destruct (playlist_id r =? id); reflexivity.
    + rewrite F1 at 1. rewrite updateSongCountPlaylists_bridge.
      rewrite addToPlaylist_loop.
      destruct b; [destruct d; reflexivity|].
      destruct (last_album_cover songs) as [c|]; destruct d; reflexivity.
Qed.

Lemma addToPlaylist_links_witness :
  addToPlaylist "p9" [song_one] db_with_playlist = None
  /\ exists d',
       addToPlaylist "p1" [song_one; song_two] db_with_playlist = Some d'
       /\ playlist_bridge d'
          = (playlist_bridge db_with_playlist
               ++ map (fun s => {| song := Doc._id s; entity := "p1" |})
                    [song_one; song_two])%list
       /\ Forall
            (fun r => playlist_song_count r
                      = count_where entity (playlist_id r) (playlist_bridge d'))
            (playlists d')
       /\ map playlist_id (playlists d') = map playlist_id (playlists db_with_playlist)
       /\ d' = set_playlists (playlists d')
                 (set_playlist_bridge (playlist_bridge d') db_with_playlist).
Proof.
  split.
  - apply (proj1 (addToPlaylist_links "p9" [song_one] db_with_playlist)).
    reflexivity.
  - apply (proj2 (addToPlaylist_links "p1" [song_one; song_two] db_with_playlist)).
    discriminate.
Defined.

(** X7: the cover of the playlist under [addToPlaylist].  When the first
    row of the playlist has a cover, no cover changes.  When it has none,
    every row of the playlist takes the high resolution album cover of
    the last given song that has one, and keeps what it had when no given
    song has one. *)
Theorem addToPlaylist_cover (id : string) (songs : list Doc.Song) (d d' : DB)
    (r0 : PlaylistRow) (others : list PlaylistRow) :
  filter (fun r => playlist_id r =? id) (playlists d) = r0 :: others ->
  addToPlaylist id songs d = Some d' ->
  map playlist_coverPath (playlists d')
  = map (fun r =>
           match playlist_coverPath r0, last_album_cover songs with
           | None, Some c => if playlist_id r =? id then Some c
                             else playlist_coverPath r
           | _, _ => playlist_coverPath r
           end)
      (playlists d).
Proof.
  intros Hrow Hadd. unfold addToPlaylist, isPlaylistCoverExists in Hadd.
  rewrite Hrow in Hadd. inversion Hadd as [E]. clear Hadd E.
  destruct (updateSongCountPlaylists_frame
              (fold_left
                 (addToPlaylist_step id
                    match playlist_coverPath r0 with
                    | Some _ => true | None => false end) songs d))
    as (_ & _ & F3).
  cbv zeta in F3. rewrite F3, addToPlaylist_loop.
  destruct (playlist_coverPath r0) as [c0|].
  - cbn [playlists set_playlist_bridge]. symmetry.
    rewrite <- (map_id (map playlist_coverPath (playlists d))) at 1.
    rewrite !map_map.
    apply map_ext. intros r. destruct (last_album_cover songs); reflexivity.
  - destruct (last_album_cover songs) as [c|].
    + cbn [playlists set_playlist_bridge updatePlaylistCoverPath set_playlists].
      rewrite map_map. apply map_ext. intros r.
      destruct (playlist_id r =? id); reflexivity.
    + reflexivity.
Qed.

Lemma addToPlaylist_cover_witness :
  map playlist_coverPath
    (playlists (updateSongCountPlaylists
                  (fold_left (addToPlaylist_step "p1" false)
                     [song_one; song_two] db_with_playlist)))
  = [Some "/covers/d_high.png"].
Proof.
  apply (addToPlaylist_cover "p1" [song_one; song_two] db_with_playlist _
           {| playlist_id := "p1"; playlist_name := Some "Favourites";
              playlist_desc := None; playlist_coverPath := None;
              playlist_song_count := 0 |} []);
    reflexivity.
Defined.

(** X8: songs added to a playlist are not taken out again by
    [removeFromPlaylist] of their identifiers, because its loop visits
    the indices of its arguments: the bridge row of every added song
    whose identifier is no index string "0" ... "n-1" is still there. *)
Theorem addToPlaylist_removeFromPlaylist (id : string) (songs : list Doc.Song)
    (d d1 : DB) (s : Doc.Song) :
  addToPlaylist id songs d = Some d1 ->
  In s songs ->
  ~ In (Doc._id s) (JS.array_keys (length songs)) ->
  In {| song := Doc._id s; entity := id |}
    (playlist_bridge (removeFromPlaylist id (map Doc._id songs) d1)).
Proof.
  intros Hadd Hs Hkey. unfold addToPlaylist in Hadd.
  destruct (isPlaylistCoverExists id d) as [b|]; [|discriminate].
  inversion Hadd as [E]. clear Hadd. unfold removeFromPlaylist.
  rewrite updateSongCountPlaylists_bridge, delete_index_keys.
  rewrite length_map. apply filter_In. split.
  - rewrite updateSongCountPlaylists_bridge, addToPlaylist_loop.
    cbn [playlist_bridge set_playlist_bridge]. apply in_or_app. right.
    apply (in_map (fun s => {| song := Doc._id s; entity := id |})). exact Hs.
  - cbn [song entity].
    destruct (existsb (String.eqb (Doc._id s)) (JS.array_keys (length songs)))
      eqn:X; [|rewrite andb_false_r; reflexivity].
    apply existsb_exists in X. destruct X as (k & Hk & Ek).
    apply String.eqb_eq in Ek. exfalso. apply Hkey. rewrite Ek. exact Hk.
Qed.

Lemma addToPlaylist_removeFromPlaylist_witness :
  In {| song := "s1"; entity := "p1" |}
    (playlist_bridge
       (removeFromPlaylist "p1" (map Doc._id [song_one; song_two])
          (updateSongCountPlaylists
             (fold_left (addToPlaylist_step "p1" false)
                [song_one; song_two] db_with_playlist)))).
Proof.
  apply (addToPlaylist_removeFromPlaylist "p1" [song_one; song_two]
           db_with_playlist _ song_one eq_refl).
  - left. reflexivity.
  - vm_compute. intuition discriminate.
Defined.

(* ================================================================= *)
(** ** More on [removeSong] *)

(** X9: whatever the outcome of the file removals, [removeSong] deletes
    the rows of the song from [allsongs] and from the four bridge tables
    and no row of another song; it never touches the [genre] and
    [playlists] tables, so a genre whose last song goes stays. *)
Theorem removeSong_leaves_other_rows (song_id : string) (d : DB) (fs : FS) :
  let d' := outcome_db (removeSong song_id d fs) in
  allsongs d' = delete_where _id song_id (allsongs d)
  /\ artists_bridge d' = delete_where song song_id (artists_bridge d)
  /\ album_bridge d' = delete_where song song_id (album_bridge d)
  /\ genre_bridge d' = delete_where song song_id (genre_bridge d)
  /\ playlist_bridge d' = delete_where song song_id (playlist_bridge d)
  /\ genre d' = genre d
  /\ playlists d' = playlists d.
Proof.
  cbv zeta. rewrite removeSong_outcome_db. repeat split.
Qed.

Lemma getCountBySong_unlinked bridge song_id :
  count_where song song_id bridge = 0 -> getCountBySong bridge song_id = [].
Proof.
  unfold count_where, getCountBySong. intros H.
  apply length_zero_iff_nil in H. rewrite H. reflexivity.
Qed.

(** X10: [removeSong] of an identifier that no song row and no bridge row
    carries changes neither the database nor the file system, and
    resolves. *)
Theorem removeSong_unknown_song (song_id : string) (d : DB) (fs : FS) :
  count_where _id song_id (allsongs d) = 0 ->
  count_where song song_id (artists_bridge d) = 0 ->
  count_where song song_id (album_bridge d) = 0 ->
  count_where song song_id (genre_bridge d) = 0 ->
  count_where song song_id (playlist_bridge d) = 0 ->
  removeSong_transaction song_id d = Some (d, [])
  /\ removeSong song_id d fs = Resolved d fs.
Proof.
  intros Hs Ha Hl Hg Hp.
  assert (E : removeSong_transaction song_id d = Some (d, [])).
  { unfold removeSong_transaction.
    rewrite (getCountBySong_unlinked _ _ Ha), (getCountBySong_unlinked _ _ Hl).
    assert (Hrow : filter (fun r => _id r =? song_id) (allsongs d) = [])
      by (apply length_zero_iff_nil; exact Hs).
    rewrite Hrow. cbn [queryFirstCell push_if_truthy remove_albums remove_artists].
    unfold delete_song_rows.
    cbn [artists_bridge album_bridge genre_bridge playlist_bridge allsongs
         set_artists_bridge set_album_bridge set_genre_bridge
         set_playlist_bridge set_allsongs].
    rewrite (delete_where_absent _ _ _ Hs), (delete_where_absent _ _ _ Ha),
      (delete_where_absent _ _ _ Hl), (delete_where_absent _ _ _ Hg),
      (delete_where_absent _ _ _ Hp).
    destruct d; reflexivity. }
  split; [exact E|]. unfold removeSong. rewrite E. reflexivity.
Qed.

Lemma removeSong_unknown_song_witness :
  removeSong_transaction "s7" db_shared_artist = Some (db_shared_artist, [])
  /\ removeSong "s7" db_shared_artist fs_open = Resolved db_shared_artist fs_open.
Proof.
  apply (removeSong_unknown_song "s7" db_shared_artist fs_open); reflexivity.
Defined.

(** The loops of [removeSong] on a table with key [key]. *)
Lemma cascade_keeps {Row : Type} (key : Row -> string) a ids : forall rows,
  (forall id, In id ids -> counted id = a -> count id <> 1) ->
  filter (fun r => key r =? a)
    (fold_left
       (fun rows id => if (count id =? 1)%nat
                       then delete_where key (counted id) rows else rows)
       ids rows)
  = filter (fun r => key r =? a) rows.
Proof.
  induction ids as [|id rest IH]; intros rows H; simpl; [reflexivity|].
  rewrite IH by (intros; apply H; [right|]; assumption).
  destruct (count id =? 1)%nat eqn:E; [|reflexivity].
  apply filter_delete_where_other.
  intros Ha. apply Nat.eqb_eq in E. symmetry in Ha.
  exact (H id (or_introl eq_refl) Ha E).
Qed.

Lemma cascade_deletes {Row : Type} (key : Row -> string) a ids : forall rows,
  In {| count := 1; counted := a |} ids ->
  filter (fun r => key r =? a)
    (fold_left
       (fun rows id => if (count id =? 1)%nat
                       then delete_where key (counted id) rows else rows)
       ids rows)
  = [].
Proof.
  assert (Hstay : forall ids rows,
            filter (fun r => key r =? a) rows = [] ->
            filter (fun r => key r =? a)
              (fold_left
                 (fun rows id => if (count id =? 1)%nat
                                 then delete_where key (counted id) rows
                                 else rows)
                 ids rows) = []).
  { clear ids. induction ids as [|id rest IH]; intros rows H; simpl; [exact H|].
    apply IH. destruct (count id =? 1)%nat; [|exact H].
    unfold delete_where. rewrite filter_filter_comm, H. reflexivity. }
  induction ids as [|id rest IH]; intros rows H; [destruct H|].
  simpl. destruct H as [->|H]; [|apply IH; exact H].
  simpl. apply Hstay. apply filter_delete_where_same.
Qed.

Lemma cascade_rule {Row : Type} (key : Row -> string) a bridge song_id rows :
  filter (fun r => key r =? a)
    (fold_left
       (fun rows id => if (count id =? 1)%nat
                       then delete_where key (counted id) rows else rows)
       (getCountBySong bridge song_id) rows)
  = if existsb (fun r => (song r =? song_id) && (entity r =? a)) bridge
       && (count_where entity a bridge =? 1)%nat
    then [] else filter (fun r => key r =? a) rows.
Proof.
  destruct (existsb _ bridge) eqn:Elink; cbn [andb].
  - destruct (count_where entity a bridge =? 1)%nat eqn:Ecount.
    + apply cascade_deletes. apply getCountBySong_In.
      apply existsb_exists in Elink. destruct Elink as (i & Hi & Hb).
      apply andb_prop in Hb. destruct Hb as [Hs He].
      apply String.eqb_eq in Hs, He. apply Nat.eqb_eq in Ecount.
      exists i. repeat split; try assumption. rewrite He, Ecount. reflexivity.
    + apply cascade_keeps. intros id Hid Ha Hc.
      apply getCountBySong_In in Hid. destruct Hid as (i & _ & _ & ->).
      simpl in Ha, Hc. rewrite Ha in Hc. apply Nat.eqb_neq in Ecount.
      contradiction.
  - apply cascade_keeps. intros id Hid Ha _.
    apply getCountBySong_In in Hid. destruct Hid as (i & Hi & Hs & ->).
    simpl in Ha.
    assert (X : existsb (fun r => (song r =? song_id) && (entity r =? a)) bridge
                = true).
    { apply existsb_exists. exists i. split; [exact Hi|].
      rewrite Hs, Ha, !String.eqb_refl. reflexivity. }
    rewrite X in Elink. discriminate.
Qed.

(** X11: the cascade rule of [removeSong].  The rows of an album, and
    likewise of an artist, are deleted exactly when the song is linked to
    it and one bridge row in all names it; in every other case, also when
    the song held several rows to it and no other song any, they stay as
    they are. *)
Theorem removeSong_cascade_rule (song_id : string) (d : DB) (fs : FS)
    (a : string) :
  let d' := outcome_db (removeSong song_id d fs) in
  filter (fun r => album_id r =? a) (albums d')
  = (if existsb (fun r => (song r =? song_id) && (entity r =? a)) (album_bridge d)
        && (count_where entity a (album_bridge d) =? 1)%nat
     then [] else filter (fun r => album_id r =? a) (albums d))
  /\ filter (fun r => artist_id r =? a) (artists d')
     = (if existsb (fun r => (song r =? song_id) && (entity r =? a))
             (artists_bridge d)
           && (count_where entity a (artists_bridge d) =? 1)%nat
        then [] else filter (fun r => artist_id r =? a) (artists d)).
Proof.
  cbv zeta. rewrite removeSong_outcome_db.
  cbn [albums artists set_artists set_albums]. split.
  - apply (cascade_rule album_id).
  - apply (cascade_rule artist_id).
Qed.

Example removeSong_cascade_sample :
  map artist_id (artists (outcome_db (removeSong "s2" db_shared_artist fs_open)))
  = ["a1"].
Proof. reflexivity. Qed.

(* ================================================================= *)
(** ** The paths [removeSong] collects *)

Lemma push_if_truthy_app paths v :
  push_if_truthy paths v = (paths ++ push_if_truthy [] v)%list.
Proof.
  unfold push_if_truthy. destruct v as [p|]; [|symmetry; apply app_nil_r].
  destruct (JS.truthy (Some p)); [reflexivity | symmetry; apply app_nil_r].
Qed.

Lemma In_push_if_truthy_inv paths v p :
  In p (push_if_truthy paths v) -> In p paths \/ v = Some p.
Proof.
  unfold push_if_truthy. destruct v as [q|]; [|auto].
  destruct (JS.truthy (Some q)); [|auto].
  unfold JS.push. intros H. apply in_app_or in H.
  destruct H as [H|[->|[]]]; auto.
Qed.

Lemma insert_sorted_perm {Row : Type} (key : Row -> option string) r l :
  Permutation (SQL.insert_sorted key r l) (r :: l).
Proof.
  induction l as [|h t IH]; simpl; [reflexivity|].
  destruct (SQL.key_leb (key r) (key h)); [reflexivity|].
  rewrite IH. apply perm_swap.
Qed.

(** [ORDER BY] returns the rows it was given, each as often. *)
Lemma order_by_asc_perm {Row : Type} (key : Row -> option string) rows :
  Permutation (SQL.order_by_asc key rows) rows.
Proof.
  induction rows as [|r rows IH]; simpl; [reflexivity|].
  rewrite insert_sorted_perm, IH. reflexivity.
Qed.

Lemma hd_error_order_by_In {Row : Type} (key : Row -> option string)
    (f : Row -> bool) rows r :
  hd_error (SQL.order_by_asc key (filter f rows)) = Some r -> In r rows.
Proof.
  intros H.
  assert (X : In r (SQL.order_by_asc key (filter f rows))).
  { destruct (SQL.order_by_asc key (filter f rows)); [discriminate|].
    inversion H. left. reflexivity. }
  apply (Permutation_in _ (order_by_asc_perm key _)) in X.
  apply filter_In in X. tauto.
Qed.

Lemma remove_albums_sound d0 ids : forall d paths d' paths',
  (forall r, In r (albums d) -> In r (albums d0)) ->
  remove_albums ids d paths = Some (d', paths') ->
  forall p, In p paths' -> In p paths \/ album_cover_in d0 p.
Proof.
  induction ids as [|id rest IH]; intros d paths d' paths' Hsub E p Hp;
    cbn [remove_albums] in E.
  - inversion E; subst. left. exact Hp.
  - destruct (count id =? 1)%nat.
    + rewrite albums_by_id in E.
      eapply IH in E; [| | exact Hp].
      * destruct E as [E|E]; [|right; exact E].
        apply In_push_if_truthy_inv in E. destruct E as [E|E].
        -- apply In_push_if_truthy_inv in E. destruct E as [E|E]; [left; exact E|].
           right. destruct (hd_error _) as [r|] eqn:Hr; [|discriminate].
           exists r. split; [|left; exact E].
           apply Hsub. apply (hd_error_order_by_In _ _ _ _ Hr).
        -- right. destruct (hd_error _) as [r|] eqn:Hr; [|discriminate].
           exists r. split; [|right; exact E].
           apply Hsub. apply (hd_error_order_by_In _ _ _ _ Hr).
      * intros r Hr. apply Hsub. cbn [albums set_albums] in Hr.
        unfold delete_where in Hr. apply filter_In in Hr. tauto.
    + eapply IH; eassumption.
Qed.

Lemma remove_artists_sound d0 ids : forall d paths d' paths',
  (forall r, In r (artists d) -> In r (artists d0)) ->
  remove_artists ids d paths = Some (d', paths') ->
  forall p, In p paths' -> In p paths \/ artist_cover_in d0 p.
Proof.
  induction ids as [|id rest IH]; intros d paths d' paths' Hsub E p Hp;
    cbn [remove_artists] in E.
  - inversion E; subst. left. exact Hp.
  - destruct (count id =? 1)%nat.
    + rewrite artists_by_id in E.
      eapply IH in E; [| | exact Hp].
      * destruct E as [E|E]; [|right; exact E].
        apply In_push_if_truthy_inv in E. destruct E as [E|E]; [left; exact E|].
        right. destruct (hd_error _) as [r|] eqn:Hr; [|discriminate].
        exists r. split; [|exact E].
        apply Hsub. apply (hd_error_order_by_In _ _ _ _ Hr).
      * intros r Hr. apply Hsub. cbn [artists set_artists] in Hr.
        unfold delete_where in Hr. apply filter_In in Hr. tauto.
    + eapply IH; eassumption.
Qed.

(** X12: every path [removeSong] collects for removal is a cover path
    recorded in the database before the call: one of the two covers of
    the first row of the song, a cover of an album row or the cover of an
    artist row. *)
Theorem removeSong_collects_only_covers (song_id : string) (d : DB) :
  exists d' paths,
    removeSong_transaction song_id d = Some (d', paths)
    /\ Forall
         (fun p =>
            (exists r rest,
                filter (fun r => _id r =? song_id) (allsongs d) = r :: rest
                /\ (song_coverPath_low r = Some p \/ song_coverPath_high r = Some p))
            \/ album_cover_in d p
            \/ artist_cover_in d p)
         paths.
Proof.
  destruct (removeSong_transaction_total song_id d) as (paths & E).
  eexists _, paths. split; [exact E|].
  apply Forall_forall. intros p Hp.
  unfold removeSong_transaction in E.
  destruct (remove_albums _ _ _) as [[d2 paths3]|] eqn:E2; [|discriminate].
  eapply remove_artists_sound with (d0 := d) in E; [| |exact Hp].
  - destruct E as [E|E]; [|right; right; exact E].
    eapply remove_albums_sound with (d0 := d) in E2; [| |exact E].
    + destruct E2 as [H|H]; [|right; left; exact H].
      left. destruct (filter _ (allsongs d)) as [|r rest]; [destruct H|].
      exists r, rest. split; [reflexivity|]. cbn [queryFirstCell] in H.
      apply In_push_if_truthy_inv in H. destruct H as [H|H]; [|right; exact H].
      apply In_push_if_truthy_inv in H. destruct H as [[]|H]. left. exact H.
    + intros r Hr. exact Hr.
  - intros r Hr.
    destruct (remove_albums_total
                (getCountBySong (album_bridge d) song_id)
                (delete_song_rows song_id d)
                (push_if_truthy
                   (push_if_truthy []
                      (queryFirstCell song_coverPath_low
                         (filter (fun r => _id r =? song_id) (allsongs d))))
                   (queryFirstCell song_coverPath_high
                      (filter (fun r => _id r =? song_id) (allsongs d)))))
      as (p2 & E2' & _).
    rewrite E2' in E2. inversion E2; subst. exact Hr.
Qed.

Lemma remove_albums_extends ids : forall d paths d' paths',
  remove_albums ids d paths = Some (d', paths') ->
  exists more, paths' = (paths ++ more)%list.
Proof.
  induction ids as [|id rest IH]; intros d paths d' paths' E;
    cbn [remove_albums] in E.
  - inversion E; subst. exists []. symmetry. apply app_nil_r.
  - destruct (count id =? 1)%nat; [|eapply IH; exact E].
    rewrite albums_by_id in E. apply IH in E. destruct E as (more & ->).
    rewrite (push_if_truthy_app (push_if_truthy _ _)), (push_if_truthy_app paths).
    rewrite <- !app_assoc. eexists. reflexivity.
Qed.

Lemma remove_artists_extends ids : forall d paths d' paths',
  remove_artists ids d paths = Some (d', paths') ->
  exists more, paths' = (paths ++ more)%list.
Proof.
  induction ids as [|id rest IH]; intros d paths d' paths' E;
    cbn [remove_artists] in E.
  - inversion E; subst. exists []. symmetry. apply app_nil_r.
  - destruct (count id =? 1)%nat; [|eapply IH; exact E].
    rewrite artists_by_id in E. apply IH in E. destruct E as (more & ->).
    rewrite (push_if_truthy_app paths). rewrite <- !app_assoc.
    eexists. reflexivity.
Qed.

Lemma removeSong_transaction_own_covers song_id d r rest :
  filter (fun r => _id r =? song_id) (allsongs d) = r :: rest ->
  exists d' more,
    removeSong_transaction song_id d
    = Some (d', (push_if_truthy (push_if_truthy [] (song_coverPath_low r))
                   (song_coverPath_high r) ++ more)%list).
Proof.
  intros Hrow.
  destruct (removeSong_transaction_total song_id d) as (paths & E).
  pose proof E as E0. unfold removeSong_transaction in E. rewrite Hrow in E.
  cbn [queryFirstCell] in E.
  destruct (remove_albums _ _ _) as [[d2 paths3]|] eqn:E2; [|discriminate].
  apply remove_albums_extends in E2. destruct E2 as (m1 & ->).
  apply remove_artists_extends in E. destruct E as (m2 & ->).
  eexists _, (m1 ++ m2)%list. rewrite E0, app_assoc. reflexivity.
Qed.

(** X13: [removeSong] collects the covers of the song before it deletes
    its row: the list of paths begins with the low resolution cover of
    the song's row and then the high resolution one, each when it is
    neither NULL nor empty. *)
Theorem removeSong_collects_song_covers (song_id : string) (d : DB)
    (r : SongRow) (rest : list SongRow) :
  filter (fun r => _id r =? song_id) (allsongs d) = r :: rest ->
  exists d' more,
    removeSong_transaction song_id d
    = Some (d', ((if JS.truthy (song_coverPath_low r)
                  then [template (song_coverPath_low r)] else [])
                 ++ (if JS.truthy (song_coverPath_high r)
                     then [template (song_coverPath_high r)] else [])
                 ++ more)%list).
Proof.
  intros Hrow.
  destruct (removeSong_transaction_own_covers song_id d r rest Hrow)
    as (d' & more & E).
  exists d', more. rewrite E. f_equal. f_equal. rewrite app_assoc. f_equal.
  rewrite push_if_truthy_app. unfold push_if_truthy.
  destruct (song_coverPath_low r) as [l|], (song_coverPath_high r) as [h|];
    cbn [template]; try destruct (JS.truthy (Some l));
    try destruct (JS.truthy (Some h)); reflexivity.
Qed.

Lemma removeSong_collects_song_covers_witness :
  exists d' more,
    removeSong_transaction "s9" db_covers
    = Some (d', (["/covers/low.png"] ++ ["/covers/high.png"] ++ more)%list).
Proof.
  apply (removeSong_collects_song_covers "s9" db_covers
           {| _id := "s9"; path := Some "/music/nine.mp3"; title := Some "Nine";
              song_coverPath_low := Some "/covers/low.png";
              song_coverPath_high := Some "/covers/high.png" |} []).
  reflexivity.
Defined.

Lemma filter_updateSongCover id coverHigh coverLow rows :
  filter (fun r => _id r =? id)
    (map (fun r =>
            if _id r =? id then
              {| _id := _id r; path := path r; title := title r;
                 song_coverPath_low := Some coverLow;
                 song_coverPath_high := Some coverHigh |}
            else r) rows)
  = map (fun r =>
           {| _id := _id r; path := path r; title := title r;
              song_coverPath_low := Some coverLow;
              song_coverPath_high := Some coverHigh |})
      (filter (fun r => _id r =? id) rows).
Proof.
  induction rows as [|r rows IH]; simpl; [reflexivity|].
  destruct (_id r =? id) eqn:E; simpl; rewrite E, IH; reflexivity.
Qed.

(** X14: [updateSongCover] writes both covers on the rows of the song and
    leaves every other row as it is; a [removeSong] that follows collects
    the new covers, low resolution first. *)
Theorem updateSongCover_then_removeSong (id coverHigh coverLow : string) (d : DB) :
  let d1 := updateSongCover id coverHigh coverLow d in
  map _id (allsongs d1) = map _id (allsongs d)
  /\ delete_where _id id (allsongs d1) = delete_where _id id (allsongs d)
  /\ Forall (fun r => song_coverPath_low r = Some coverLow
                      /\ song_coverPath_high r = Some coverHigh)
       (filter (fun r => _id r =? id) (allsongs d1))
  /\ d1 = set_allsongs (allsongs d1) d
  /\ (count_where _id id (allsongs d) <> 0 ->
      coverHigh <> "" -> coverLow <> "" ->
      exists d' more,
        removeSong_transaction id d1 = Some (d', coverLow :: coverHigh :: more)).
Proof.
  cbv zeta. unfold updateSongCover at 1 2 3 4. cbn [allsongs set_allsongs].
  split; [|split; [|split; [|split]]].
  - rewrite map_map. apply map_ext. intros r. destruct (_id r =? id); reflexivity.
  - unfold delete_where.
    induction (allsongs d) as [|r rows IH]; simpl; [reflexivity|].
    destruct (_id r =? id) eqn:E; simpl; rewrite E; simpl; rewrite IH; reflexivity.
  - rewrite filter_updateSongCover. apply Forall_map.
    apply Forall_forall. intros r _. split; reflexivity.
  - destruct d; reflexivity.
  - intros Hcount Hh Hl.
    assert (Hrow : exists r rest,
               filter (fun r => _id r =? id)
                 (allsongs (updateSongCover id coverHigh coverLow d))
               = {| _id := _id r; path := path r; title := title r;
                    song_coverPath_low := Some coverLow;
                    song_coverPath_high := Some coverHigh |} :: rest).
    { unfold updateSongCover. cbn [allsongs set_allsongs].
      rewrite filter_updateSongCover. unfold count_where in Hcount.
      destruct (filter _ (allsongs d)) as [|r rest]; [contradiction|].
      eexists r, _. reflexivity. }
    destruct Hrow as (r & rest & Hrow).
    destruct (removeSong_transaction_own_covers id _ _ _ Hrow)
      as (d' & more & E).
    exists d', more. rewrite E. f_equal. f_equal.
    cbn [song_coverPath_low song_coverPath_high].
    unfold push_if_truthy, JS.truthy.
    apply String.eqb_neq in Hh, Hl. rewrite Hh, Hl. reflexivity.
Qed.

Lemma updateSongCover_then_removeSong_witness :
  exists d' more,
    removeSong_transaction "s1"
      (updateSongCover "s1" "/covers/one_high.png" "/covers/one_low.png"
         db_shared_artist)
    = Some (d', "/covers/one_low.png" :: "/covers/one_high.png" :: more).
Proof.
  apply (proj2 (proj2 (proj2 (proj2
           (updateSongCover_then_removeSong "s1" "/covers/one_high.png"
              "/covers/one_low.png" db_shared_artist))))); discriminate.
Defined.

(* ================================================================= *)
(** ** Album covers *)

Lemma key_unique {Row : Type} (key : Row -> string) rows x y :
  NoDup (map key rows) -> In x rows -> In y rows -> key y = key x -> y = x.
Proof.
  intros Hnd Hx Hy E.
  assert (H : In y (filter (fun r => key r =? key x) rows)).
  { apply filter_In. split; [exact Hy|]. apply String.eqb_eq. exact E. }
  rewrite (filter_key_unique key x rows Hnd Hx) in H.
  destruct H as [<-|[]]. reflexivity.
Qed.

(** X15: [updateAlbumCovers] fills and never overwrites.  In a table
    keyed by [album_id], the album of the song's first bridge row gets
    the new low and high resolution cover where its own is NULL or
    empty, and keeps a cover it has; no other album row and no other
    table changes. *)
Theorem updateAlbumCovers_fills_empty (songid coverHigh coverLow : string)
    (d : DB) (link : BridgeRow) (rest : list BridgeRow) (r : AlbumRow) :
  filter (fun x => song x =? songid) (album_bridge d) = link :: rest ->
  entity link <> "" ->
  NoDup (map album_id (albums d)) ->
  In r (albums d) -> album_id r = entity link ->
  updateAlbumCovers songid coverHigh coverLow d
  = set_albums
      (map (fun x =>
              if album_id x =? entity link then
                {| album_id := album_id x; album_name := album_name x;
                   album_coverPath_low :=
                     if JS.truthy (album_coverPath_low x)
                     then album_coverPath_low x else Some coverLow;
                   album_coverPath_high :=
                     if JS.truthy (album_coverPath_high x)
                     then album_coverPath_high x else Some coverHigh;
                   album_artist := album_artist x;
                   album_song_count := album_song_count x |}
              else x)
         (albums d))
      d.
Proof.
  intros Hlink Hid Hkey Hr Hb. unfold updateAlbumCovers.
  rewrite Hlink. cbn [queryFirstCell].
  assert (T : JS.truthy (Some (entity link)) = true).
  { unfold JS.truthy. apply negb_true_iff, String.eqb_neq, Hid. }
  rewrite T. rewrite <- Hb.
  rewrite (filter_key_unique album_id r (albums d) Hkey Hr).
  cbn [hd_error opt_chain].
  assert (Hx : forall x, In x (albums d) -> (album_id x =? album_id r) = true ->
                         x = r).
  { intros x Hin E. apply String.eqb_eq in E.
    apply (key_unique album_id (albums d)); assumption. }
  assert (Hrow : forall x, In x (albums d) ->
            (if album_id x =? album_id r then
               {| album_id := album_id x; album_name := album_name x;
                  album_coverPath_low :=
                    if JS.truthy (album_coverPath_low x)
                    then album_coverPath_low x else Some coverLow;
                  album_coverPath_high :=
                    if JS.truthy (album_coverPath_high x)
                    then album_coverPath_high x else Some coverHigh;
                  album_artist := album_artist x;
                  album_song_count := album_song_count x |}
             else x)
            = (if album_id x =? album_id r then
                 {| album_id := album_id x; album_name := album_name x;
                    album_coverPath_low :=
                      if JS.truthy (album_coverPath_low r)
                      then album_coverPath_low x else Some coverLow;
                    album_coverPath_high :=
                      if JS.truthy (album_coverPath_high r)
                      then album_coverPath_high x else Some coverHigh;
                    album_artist := album_artist x;
                    album_song_count := album_song_count x |}
               else x)).
  { intros x Hin. destruct (album_id x =? album_id r) eqn:E; [|reflexivity].
    rewrite (Hx x Hin E). reflexivity. }
  rewrite (map_ext_in _ _ _ Hrow). clear Hrow Hx.
  destruct (JS.truthy (album_coverPath_high r)),
           (JS.truthy (album_coverPath_low r)); cbn [negb].
  - match goal with |- _ = set_albums (map ?f ?l) _ =>
      assert (E : map f l = l) end.
    { rewrite <- (map_id (albums d)) at 2. apply map_ext. intros x.
      destruct (album_id x =? album_id r); destruct x; reflexivity. }
    rewrite E. destruct d; reflexivity.
  - unfold set_album_coverPath_low. destruct d; reflexivity.
  - unfold set_album_coverPath_high. destruct d; reflexivity.
  - unfold set_album_coverPath_low, set_album_coverPath_high.
    cbn [albums set_albums]. rewrite map_map.
    replace (map _ (albums d))
      with (map (fun x =>
                   if album_id x =? album_id r then
                     {| album_id := album_id x; album_name := album_name x;
                        album_coverPath_low := Some coverLow;
                        album_coverPath_high := Some coverHigh;
                        album_artist := album_artist x;
                        album_song_count := album_song_count x |}
                   else x) (albums d)).
    + destruct d; reflexivity.
    + apply map_ext. intros x. destruct (album_id x =? album_id r) eqn:E;
        cbn [album_id]; rewrite E; reflexivity.
Qed.

Lemma updateAlbumCovers_fills_empty_witness :
  albums (updateAlbumCovers "s1" "/covers/h.png" "/covers/l.png" db_with_playlist)
  = [ {| album_id := uuid_of_nat 1; album_name := Some "discovery";
         album_coverPath_low := Some "/covers/new_low.png";
         album_coverPath_high := Some "/covers/h.png";
         album_artist := Some "Various"; album_song_count := 0 |} ].
Proof.
  rewrite (updateAlbumCovers_fills_empty "s1" "/covers/h.png" "/covers/l.png"
             db_with_playlist {| song := "s1"; entity := uuid_of_nat 1 |}
             [] album_discovery).
  - reflexivity.
  - reflexivity.
  - discriminate.
  - repeat constructor. simpl. tauto.
  - left. reflexivity.
  - reflexivity.
Defined.

Lemma map_no_match {Row : Type} (key : Row -> string) (f : Row -> Row) v rows :
  count_where key v rows = 0 ->
  map (fun r => if key r =? v then f r else r) rows = rows.
Proof.
  unfold count_where. induction rows as [|r rows IH]; simpl; [reflexivity|].
  destruct (key r =? v); simpl; [discriminate|].
  intros H. rewrite (IH H). reflexivity.
Qed.

(** X16: [updateAlbumCovers] for a song that no row of [album_bridge]
    links to an album, and for a song linked to an identifier that no
    album row carries, changes nothing. *)
Theorem updateAlbumCovers_without_album (songid coverHigh coverLow : string)
    (d : DB) :
  (count_where song songid (album_bridge d) = 0 ->
   updateAlbumCovers songid coverHigh coverLow d = d)
  /\ (forall link rest,
        filter (fun x => song x =? songid) (album_bridge d) = link :: rest ->
        count_where album_id (entity link) (albums d) = 0 ->
        updateAlbumCovers songid coverHigh coverLow d = d).
Proof.
  split.
  - unfold count_where, updateAlbumCovers. intros H.
    apply length_zero_iff_nil in H. rewrite H. reflexivity.
  - intros link rest Hlink Hrow. unfold updateAlbumCovers.
    rewrite Hlink. cbn [queryFirstCell].
    destruct (JS.truthy (Some (entity link))); [|reflexivity].
    pose proof Hrow as Hnone. unfold count_where in Hnone.
    apply length_zero_iff_nil in Hnone. rewrite Hnone.
    cbn [hd_error opt_chain JS.truthy negb].
    unfold set_album_coverPath_high, set_album_coverPath_low.
    cbn [albums set_albums].
    rewrite (map_no_match album_id _ (entity link) (albums d) Hrow).
    rewrite (map_no_match album_id _ (entity link) (albums d) Hrow).
    destruct d; reflexivity.
Qed.

Lemma updateAlbumCovers_without_album_witness :
  updateAlbumCovers "s7" "/covers/h.png" "/covers/l.png" db_with_playlist
  = db_with_playlist
  /\ updateAlbumCovers "s1" "/covers/h.png" "/covers/l.png"
       (set_albums [] db_with_playlist)
     = set_albums [] db_with_playlist.
Proof.
  split.
  - apply (proj1 (updateAlbumCovers_without_album "s7" "/covers/h.png"
                    "/covers/l.png" db_with_playlist)).
    reflexivity.
  - apply (proj2 (updateAlbumCovers_without_album "s1" "/covers/h.png"
                    "/covers/l.png" (set_albums [] db_with_playlist))
             {| song := "s1"; entity := uuid_of_nat 1 |} []);
      reflexivity.
Defined.

(* ================================================================= *)
(** ** The default cover of an artist *)

(** X17: the cover [getDefaultCoverByArtist] returns is the high
    resolution cover of an album linked to a song linked to the artist.
    It is looked for on the first song of the artist alone: an artist
    without bridge rows has none, and neither has an artist whose first
    song has no album row linked, whatever the other songs have. *)
Theorem getDefaultCoverByArtist_first_song (id : string) (d : DB) :
  (forall c,
      getDefaultCoverByArtist id d = Some c ->
      exists la ll r,
        In la (artists_bridge d) /\ entity la = id
        /\ In ll (album_bridge d) /\ song ll = song la
        /\ In r (albums d) /\ album_id r = entity ll
        /\ album_coverPath_high r = Some c)
  /\ (count_where entity id (artists_bridge d) = 0 ->
      getDefaultCoverByArtist id d = None)
  /\ (forall la rest,
        filter (fun r => entity r =? id) (artists_bridge d) = la :: rest ->
        count_where song (song la) (album_bridge d) = 0 ->
        getDefaultCoverByArtist id d = None).
Proof.
  unfold getDefaultCoverByArtist. split; [|split].
  - intros c H.
    destruct (filter (fun r => entity r =? id) (artists_bridge d))
      as [|la rest1] eqn:Ea; [discriminate|].
    cbn [queryFirstCell] in H.
    destruct (filter (fun r => song r =? song la) (album_bridge d))
      as [|ll rest2] eqn:El; [discriminate|].
    cbn [queryFirstCell] in H.
    destruct (filter (fun r => album_id r =? entity ll) (albums d))
      as [|r rest3] eqn:Er; [discriminate|].
    cbn [hd_error opt_chain] in H.
    assert (Hla : In la (la :: rest1)) by (left; reflexivity).
    assert (Hll : In ll (ll :: rest2)) by (left; reflexivity).
    assert (Hr : In r (r :: rest3)) by (left; reflexivity).
    rewrite <- Ea in Hla. rewrite <- El in Hll. rewrite <- Er in Hr.
    apply filter_In in Hla, Hll, Hr.
    destruct Hla as [Hla1 Hla2], Hll as [Hll1 Hll2], Hr as [Hr1 Hr2].
    apply String.eqb_eq in Hla2, Hll2, Hr2.
    exists la, ll, r. repeat split; assumption.
  - unfold count_where. intros H. apply length_zero_iff_nil in H.
    rewrite H. reflexivity.
  - intros la rest Ha Hl. rewrite Ha. cbn [queryFirstCell].
    unfold count_where in Hl. apply length_zero_iff_nil in Hl.
    rewrite Hl. reflexivity.
Qed.

Lemma getDefaultCoverByArtist_first_song_witness :
  (exists la ll r,
      In la (artists_bridge (db (snd (store uuid_of_nat song_one world0))))
      /\ entity la = uuid_of_nat 0
      /\ In ll (album_bridge (db (snd (store uuid_of_nat song_one world0))))
      /\ song ll = song la
      /\ In r (albums (db (snd (store uuid_of_nat song_one world0))))
      /\ album_id r = entity ll
      /\ album_coverPath_high r = Some "/covers/d_high.png")
  /\ getDefaultCoverByArtist "b2" db_shared_artist = None.
Proof.
  split.
  - apply (proj1 (getDefaultCoverByArtist_first_song (uuid_of_nat 0)
                    (db (snd (store uuid_of_nat song_one world0))))).
    reflexivity.
  - apply (proj2 (proj2 (getDefaultCoverByArtist_first_song "b2" db_shared_artist))
             {| song := "s2"; entity := "b2" |} []); reflexivity.
Defined.

(* ================================================================= *)
(** ** Storing a new song: the rows it links *)

Lemma queryFirstCell_In {Row : Type} (key : Row -> string) (f : Row -> bool)
    rows i :
  queryFirstCell (fun r => Some (key r)) (filter f rows) = Some i ->
  In i (map key rows).
Proof.
  destruct (filter f rows) as [|r rest] eqn:E; [discriminate|].
  cbn [queryFirstCell]. intros H. inversion H; subst.
  assert (X : In r (r :: rest)) by (left; reflexivity).
  rewrite <- E in X. apply filter_In in X. apply in_map. tauto.
Qed.

Lemma storeArtists_loop_ids uuid names : forall acc w,
  exists new added,
    fst (storeArtists_loop uuid names acc w) = (acc ++ new)%list
    /\ length new = length names
    /\ artists (db (snd (storeArtists_loop uuid names acc w)))
       = (artists (db w) ++ added)%list
    /\ Forall (fun i =>
                 In i (map artist_id
                         (artists (db (snd (storeArtists_loop uuid names acc w))))))
         new.
Proof.
  induction names as [|a rest IH]; intros acc w; cbn [storeArtists_loop].
  - exists [], []. unfold ret. cbn [fst snd]. rewrite !app_nil_r.
    repeat split. constructor.
  - unfold bind, select, v4, run.
    destruct (queryFirstCell _ _) as [found|] eqn:Q;
      [destruct (JS.truthy (Some found))|]; cbv beta iota.
    + destruct (IH (JS.push acc found) w) as (new & added & H1 & H2 & H3 & H4).
      exists (found :: new), added. unfold JS.push in *. rewrite H1.
      rewrite <- app_assoc. repeat split; [simpl; rewrite H2; reflexivity
                                          | exact H3 |].
      constructor; [|exact H4]. rewrite H3, map_app. apply in_or_app. left.
      apply (queryFirstCell_In artist_id _ _ _ Q).
    + match goal with |- context [storeArtists_loop uuid rest ?acc1 ?w1] =>
        destruct (IH acc1 w1) as (new & added & H1 & H2 & H3 & H4) end.
      exists (uuid (v4_calls w) :: new). eexists.
      unfold JS.push in *. rewrite H1. rewrite <- app_assoc.
      repeat split; [simpl; rewrite H2; reflexivity | |].
      * rewrite H3. cbn [db artists set_artists]. unfold JS.push.
        rewrite <- app_assoc. reflexivity.
      * constructor; [|exact H4]. rewrite H3.
        cbn [db artists set_artists]. unfold JS.push.
        rewrite !map_app. apply in_or_app. left. apply in_or_app. right.
        left. reflexivity.
    + match goal with |- context [storeArtists_loop uuid rest ?acc1 ?w1] =>
        destruct (IH acc1 w1) as (new & added & H1 & H2 & H3 & H4) end.
      exists (uuid (v4_calls w) :: new). eexists.
      unfold JS.push in *. rewrite H1. rewrite <- app_assoc.
      repeat split; [simpl; rewrite H2; reflexivity | |].
      * rewrite H3. cbn [db artists set_artists]. unfold JS.push.
        rewrite <- app_assoc. reflexivity.
      * constructor; [|exact H4]. rewrite H3.
        cbn [db artists set_artists]. unfold JS.push.
        rewrite !map_app. apply in_or_app. left. apply in_or_app. right.
        left. reflexivity.
Qed.

Lemma storeGenre_loop_ids uuid names : forall acc w,
  exists new added,
    fst (storeGenre_loop uuid names acc w) = (acc ++ new)%list
    /\ length new = length names
    /\ genre (db (snd (storeGenre_loop uuid names acc w)))
       = (genre (db w) ++ added)%list
    /\ Forall (fun i =>
                 In i (map genre_id
                         (genre (db (snd (storeGenre_loop uuid names acc w))))))
         new.
Proof.
  induction names as [|a rest IH]; intros acc w; cbn [storeGenre_loop].
  - exists [], []. unfold ret. cbn [fst snd]. rewrite !app_nil_r.
    repeat split. constructor.
  - unfold bind, select, v4, run.
    destruct (queryFirstCell _ _) as [found|] eqn:Q;
      [destruct (JS.truthy (Some found))|]; cbv beta iota.
    + destruct (IH (JS.push acc found) w) as (new & added & H1 & H2 & H3 & H4).
      exists (found :: new), added. unfold JS.push in *. rewrite H1.
      rewrite <- app_assoc. repeat split; [simpl; rewrite H2; reflexivity
                                          | exact H3 |].
      constructor; [|exact H4]. rewrite H3, map_app. apply in_or_app. left.
      apply (queryFirstCell_In genre_id _ _ _ Q).
    + match goal with |- context [storeGenre_loop uuid rest ?acc1 ?w1] =>
        destruct (IH acc1 w1) as (new & added & H1 & H2 & H3 & H4) end.
      exists (uuid (v4_calls w) :: new). eexists.
      unfold JS.push in *. rewrite H1. rewrite <- app_assoc.
      repeat split; [simpl; rewrite H2; reflexivity | |].
      * rewrite H3. cbn [db genre set_genre]. unfold JS.push.
        rewrite <- app_assoc. reflexivity.
      * constructor; [|exact H4]. rewrite H3.
        cbn [db genre set_genre]. unfold JS.push.
        rewrite !map_app. apply in_or_app. left. apply in_or_app. right.
        left. reflexivity.
    + match goal with |- context [storeGenre_loop uuid rest ?acc1 ?w1] =>
        destruct (IH acc1 w1) as (new & added & H1 & H2 & H3 & H4) end.
      exists (uuid (v4_calls w) :: new). eexists.
      unfold JS.push in *. rewrite H1. rewrite <- app_assoc.
      repeat split; [simpl; rewrite H2; reflexivity | |].
      * rewrite H3. cbn [db genre set_genre]. unfold JS.push.
        rewrite <- app_assoc. reflexivity.
      * constructor; [|exact H4]. rewrite H3.
        cbn [db genre set_genre]. unfold JS.push.
        rewrite !map_app. apply in_or_app. left. apply in_or_app. right.
        left. reflexivity.
Qed.

Lemma storeAlbum_id uuid album w :
  match fst (storeAlbum uuid album w) with
  | Some id =>
      JS.truthy (Doc.album_name album) = true
      /\ In id (map album_id (albums (db (snd (storeAlbum uuid album w)))))
  | None => JS.truthy (Doc.album_name album) = false
  end.
Proof.
  unfold storeAlbum.
  destruct (Doc.album_name album) as [name|]; [|reflexivity].
  destruct (JS.truthy (Some name)) eqn:T; [|reflexivity].
  unfold bind, select, v4, run, ret.
  destruct (negb (JS.truthy _)); cbn [fst snd db albums set_albums];
    (split; [reflexivity|]); unfold insert_or_replace_album, JS.push;
    rewrite map_app; apply in_or_app; right; left; reflexivity.
Qed.

Lemma storeArtistBridge_rows ids songID w :
  db (snd (storeArtistBridge ids songID w))
  = set_artists_bridge
      (artists_bridge (db w)
         ++ map (fun i => {| song := songID; entity := i |}) ids)%list
      (db w).
Proof.
  unfold storeArtistBridge, run. cbn [snd db]. generalize (db w) as d.
  induction ids as [|i ids IH]; intros d; simpl.
  - rewrite app_nil_r. destruct d; reflexivity.
  - rewrite IH. cbn [artists_bridge set_artists_bridge]. unfold JS.push.
    rewrite <- app_assoc. destruct d; reflexivity.
Qed.

Lemma storeGenreBridge_rows ids songID w :
  db (snd (storeGenreBridge ids songID w))
  = set_genre_bridge
      (genre_bridge (db w)
         ++ map (fun i => {| song := songID; entity := i |}) ids)%list
      (db w).
Proof.
  unfold storeGenreBridge, run. cbn [snd db]. generalize (db w) as d.
  induction ids as [|i ids IH]; intros d; simpl.
  - rewrite app_nil_r. destruct d; reflexivity.
  - rewrite IH. cbn [genre_bridge set_genre_bridge]. unfold JS.push.
    rewrite <- app_assoc. destruct d; reflexivity.
Qed.

Lemma storeAlbumBridge_rows albumID songID w :
  db (snd (storeAlbumBridge albumID songID w))
  = set_album_bridge
      (album_bridge (db w)
         ++ map (fun i => {| song := songID; entity := i |})
              (linked_album albumID))%list
      (db w).
Proof.
  unfold storeAlbumBridge, linked_album, run, ret.
  destruct albumID as [i|]; [destruct (JS.truthy (Some i))|];
    cbn [snd db map]; rewrite ?app_nil_r; destruct (db w); reflexivity.
Qed.

Lemma bridges_rows artistID albumID genreID songID w :
  db (snd ((storeArtistBridge artistID songID ;;
            storeGenreBridge genreID songID ;;
            storeAlbumBridge albumID songID)%db w))
  = set_album_bridge
      (album_bridge (db w)
         ++ map (fun i => {| song := songID; entity := i |})
              (linked_album albumID))%list
      (set_genre_bridge
         (genre_bridge (db w)
            ++ map (fun i => {| song := songID; entity := i |}) genreID)%list
         (set_artists_bridge
            (artists_bridge (db w)
               ++ map (fun i => {| song := songID; entity := i |}) artistID)%list
            (db w))).
Proof.
  unfold bind.
  destruct (storeArtistBridge artistID songID w) as [u1 wa] eqn:Ea.
  destruct (storeGenreBridge genreID songID wa) as [u2 wg] eqn:Eg.
  pose proof (storeAlbumBridge_rows albumID songID wg) as Hl.
  pose proof (storeGenreBridge_rows genreID songID wa) as Hg.
  pose proof (storeArtistBridge_rows artistID songID w) as Ha.
  rewrite Eg in Hg. rewrite Ea in Ha. cbn [snd] in *.
  rewrite Hl, Hg, Ha. reflexivity.
Qed.

(** What the three resolvers of [store] return: one identifier per artist
    name and per genre name, each carried by a row of the table when
    they are done, and an album identifier carried by a row of [albums]
    when the song has an album with a name. *)
Lemma resolve_ids uuid newDoc w :
  (forall n, uuid n <> "") ->
  let r := resolve uuid newDoc w in
  let artistID := fst (fst (fst r)) in
  let albumID := snd (fst (fst r)) in
  let genreID := snd (fst r) in
  let d' := db (snd r) in
  length artistID
  = length (match Doc.artists newDoc with Some n => n | None => [] end)
  /\ Forall (fun i => In i (map artist_id (artists d'))) artistID
  /\ length genreID
     = length (match Doc.genre newDoc with Some n => n | None => [] end)
  /\ Forall (fun i => In i (map genre_id (genre d'))) genreID
  /\ length (linked_album albumID)
     = (if JS.truthy (opt_chain (Doc.album newDoc) Doc.album_name) then 1 else 0)
  /\ Forall (fun i => In i (map album_id (albums d'))) (linked_album albumID).
Proof.
  intros Huuid. cbv zeta. unfold resolve, bind, ret.
  destruct (store_artistID uuid newDoc w) as [a w1] eqn:E1.
  destruct (store_albumID uuid newDoc w1) as [al w2] eqn:E2.
  destruct (storeGenre uuid (Doc.genre newDoc) w2) as [g w3] eqn:E3.
  cbn [fst snd].
  assert (F2 : db w2 = set_albums (albums (db w2)) (db w1)).
  { unfold store_albumID in E2. destruct (Doc.album newDoc) as [album|].
    - pose proof (storeAlbum_frame uuid album w1) as H.
      rewrite E2 in H. exact H.
    - inversion E2; subst. destruct (db w2); reflexivity. }
  assert (F3 : db w3 = set_genre (genre (db w3)) (db w2)).
  { unfold storeGenre in E3. destruct (Doc.genre newDoc) as [names|].
    - pose proof (storeGenre_loop_frame uuid names [] w2) as H.
      rewrite E3 in H. exact H.
    - inversion E3; subst. destruct (db w3); reflexivity. }
  assert (Ha : artists (db w3) = artists (db w1))
    by (rewrite F3, F2; reflexivity).
  assert (Hl : albums (db w3) = albums (db w2)) by (rewrite F3; reflexivity).
  rewrite Ha, Hl. clear F2 F3 Ha Hl.
  split; [|split; [|split; [|split; [|split]]]].
  - unfold store_artistID in E1. destruct (Doc.artists newDoc) as [names|].
    + destruct (storeArtists_loop_ids uuid names [] w) as (new & ? & H1 & H2 & _).
      unfold storeArtists in E1. rewrite E1 in H1. cbn [fst app] in H1.
      subst a. exact H2.
    + inversion E1. reflexivity.
  - unfold store_artistID in E1. destruct (Doc.artists newDoc) as [names|].
    + destruct (storeArtists_loop_ids uuid names [] w) as (new & ? & H1 & _ & _ & H4).
      unfold storeArtists in E1. rewrite E1 in H1, H4. cbn [fst snd app] in H1, H4.
      subst a. exact H4.
    + inversion E1. constructor.
  - unfold storeGenre in E3. destruct (Doc.genre newDoc) as [names|].
    + destruct (storeGenre_loop_ids uuid names [] w2) as (new & ? & H1 & H2 & _).
      rewrite E3 in H1. cbn [fst app] in H1. subst g. exact H2.
    + inversion E3. reflexivity.
  - unfold storeGenre in E3. destruct (Doc.genre newDoc) as [names|].
    + destruct (storeGenre_loop_ids uuid names [] w2) as (new & ? & H1 & _ & _ & H4).
      rewrite E3 in H1, H4. cbn [fst snd app] in H1, H4. subst g. exact H4.
    + inversion E3. constructor.
  - unfold store_albumID in E2. destruct (Doc.album newDoc) as [album|].
    + cbn [opt_chain]. pose proof (storeAlbum_id uuid album w1) as H.
      rewrite E2 in H. cbn [fst snd] in H. unfold linked_album.
      destruct al as [i|]; [|rewrite H; reflexivity].
      destruct H as [H _]. rewrite H.
      assert (T : JS.truthy (Some i) = true).
      { unfold storeAlbum in E2.
        destruct (Doc.album_name album) as [name|]; [|discriminate].
        rewrite H in E2. unfold bind, select, v4, run, ret in E2.
        destruct (queryFirstCell _ _) as [f|] eqn:Q.
        - destruct (JS.truthy (Some f)) eqn:Tf; cbn [negb] in E2;
            inversion E2; subst; [exact Tf|].
          unfold JS.truthy. apply negb_true_iff, String.eqb_neq, Huuid.
        - cbn [JS.truthy negb] in E2. inversion E2; subst.
          unfold JS.truthy. apply negb_true_iff, String.eqb_neq, Huuid. }
      rewrite T. reflexivity.
    + inversion E2; subst. reflexivity.
  - unfold store_albumID in E2. destruct (Doc.album newDoc) as [album|].
    + pose proof (storeAlbum_id uuid album w1) as H.
      rewrite E2 in H. cbn [fst snd] in H. unfold linked_album.
      destruct al as [i|]; [|constructor].
      destruct (JS.truthy (Some i)); [|constructor].
      constructor; [tauto | constructor].
    + inversion E2; subst. constructor.
Qed.

(** X18: [store] of a song whose identifier is new adds its row to
    [allsongs] and links it: one row of [artists_bridge] per artist name
    and one row of [genre_bridge] per genre name, in the order of the
    names, and one row of [album_bridge] when the song has an album with
    a name, none otherwise.  Every row added names the song and an
    identifier that a row of the entity table carries; [playlist_bridge]
    stays as it is. *)
Theorem store_links_existing_rows (uuid : nat -> string) (newDoc : Doc.Song)
    (w : World) :
  (forall n, uuid n <> "") ->
  count_where _id (Doc._id newDoc) (allsongs (db w)) = 0 ->
  let d' := db (snd (store uuid newDoc w)) in
  let link := fun i => {| song := Doc._id newDoc; entity := i |} in
  exists artistID genreID albumID,
    allsongs d' = JS.push (allsongs (db w)) (marshalSong newDoc)
    /\ artists_bridge d' = (artists_bridge (db w) ++ map link artistID)%list
    /\ length artistID
       = length (match Doc.artists newDoc with Some n => n | None => [] end)
    /\ Forall (fun i => In i (map artist_id (artists d'))) artistID
    /\ genre_bridge d' = (genre_bridge (db w) ++ map link genreID)%list
    /\ length genreID
       = length (match Doc.genre newDoc with Some n => n | None => [] end)
    /\ Forall (fun i => In i (map genre_id (genre d'))) genreID
    /\ album_bridge d' = (album_bridge (db w) ++ map link albumID)%list
    /\ length albumID
       = (if JS.truthy (opt_chain (Doc.album newDoc) Doc.album_name)
          then 1 else 0)
    /\ Forall (fun i => In i (map album_id (albums d'))) albumID
    /\ playlist_bridge d' = playlist_bridge (db w).
Proof.
  intros Huuid Hnew. cbv zeta. rewrite store_resolve.
  pose proof (resolve_ids uuid newDoc w Huuid) as R. cbv zeta in R.
  pose proof (resolve_frame uuid newDoc w) as F. cbv zeta in F.
  destruct (resolve uuid newDoc w) as [[[artistID albumID] genreID] w'].
  cbn [fst snd] in R, F.
  destruct R as (Ra1 & Ra2 & Rg1 & Rg2 & Rl1 & Rl2).
  destruct F as (Fs & Fa & Fl & Fg & Fp).
  rewrite Fs, Hnew. cbn [Nat.eqb]. rewrite bridges_rows.
  cbn [db allsongs artists albums genre artists_bridge album_bridge
       genre_bridge playlist_bridge set_allsongs set_artists_bridge
       set_genre_bridge set_album_bridge].
  exists artistID, genreID, (linked_album albumID).
  rewrite ?Fs, ?Fa, ?Fl, ?Fg, ?Fp. repeat split; assumption.
Qed.

Lemma store_links_existing_rows_witness :
  let d' := db (snd (store uuid_of_nat song_two
                       (snd (store uuid_of_nat song_one world0)))) in
  let d := db (snd (store uuid_of_nat song_one world0)) in
  let link := fun i => {| song := "s2"; entity := i |} in
  exists artistID genreID albumID,
    allsongs d' = JS.push (allsongs d) (marshalSong song_two)
    /\ artists_bridge d' = (artists_bridge d ++ map link artistID)%list
    /\ length artistID = 1
    /\ Forall (fun i => In i (map artist_id (artists d'))) artistID
    /\ genre_bridge d' = (genre_bridge d ++ map link genreID)%list
    /\ length genreID = 1
    /\ Forall (fun i => In i (map genre_id (genre d'))) genreID
    /\ album_bridge d' = (album_bridge d ++ map link albumID)%list
    /\ length albumID = 1
    /\ Forall (fun i => In i (map album_id (albums d'))) albumID
    /\ playlist_bridge d' = playlist_bridge d.
Proof.
  apply (store_links_existing_rows uuid_of_nat song_two
           (snd (store uuid_of_nat song_one world0))).
  - intros n. discriminate.
  - reflexivity.
Defined.

(* ================================================================= *)
(** ** Deduplication of artists and genres *)

Lemma storeArtists_same_identifier_witness :
  fst (storeArtists uuid_of_nat ["Daft Punk"] world0)
  = fst (storeArtists uuid_of_nat ["  daft punk "]
           (snd (storeArtists uuid_of_nat ["Daft Punk"] world0)))
  /\ length (fst (storeArtists uuid_of_nat ["Daft Punk"] world0)) = 1
  /\ length (artists (db (snd (storeArtists uuid_of_nat ["  daft punk "]
                                 (snd (storeArtists uuid_of_nat ["Daft Punk"]
                                         world0))))))
     <= S (length (artists (db world0))).
Proof.
  apply (storeArtists_same_identifier uuid_of_nat world0
           "Daft Punk" "  daft punk ").
  - reflexivity.
  - constructor.
  - intros n. discriminate.
Defined.

(** White space outside ASCII is trimmed like any other: "Air" and the
    same name between U+00A0 and U+2003 are one artist. *)
Example storeArtists_unicode_space :
  fst (storeArtists uuid_of_nat [air_padded]
         (snd (storeArtists uuid_of_nat ["Air"] world0)))
  = fst (storeArtists uuid_of_nat ["Air"] world0)
  /\ map artist_name
       (artists (db (snd (storeArtists uuid_of_nat [air_padded]
                            (snd (storeArtists uuid_of_nat ["Air"] world0))))))
     = [Some "Air"].
Proof. split; reflexivity. Qed.

Lemma storeGenre_one_found uuid n w r rest :
  filter (fun r => SQL.eq_nocase (genre_name r) n) (genre (db w)) = r :: rest ->
  genre_id r <> "" ->
  storeGenre uuid (Some [n]) w = ([genre_id r], w).
Proof.
  intros E Hid. unfold storeGenre. cbn [storeGenre_loop].
  unfold bind, select. rewrite E. cbn [queryFirstCell].
  unfold JS.truthy. apply String.eqb_neq in Hid. rewrite Hid. reflexivity.
Qed.

Lemma storeGenre_one_new uuid n w :
  filter (fun r => SQL.eq_nocase (genre_name r) n) (genre (db w)) = [] ->
  storeGenre uuid (Some [n]) w
  = ([uuid (v4_calls w)],
     {| db := set_genre
                (JS.push (genre (db w))
                   {| genre_id := uuid (v4_calls w); genre_name := Some n;
                      genre_song_count := 0 |})
                (db w);
        v4_calls := S (v4_calls w) |}).
Proof.
  intros E. unfold storeGenre. cbn [storeGenre_loop].
  unfold bind, select. rewrite E. reflexivity.
Qed.

(** X20: genre names that are equal up to ASCII case (white space
    counts) resolve to one identifier and to at most one new row, in a
    table whose identifiers are not empty and with a [v4()] that returns
    none. *)
Theorem storeGenre_same_identifier (uuid : nat -> string) (w : World)
    (n1 n2 : string) :
  SQL.nocase_eqb n1 n2 = true ->
  Forall (fun r => genre_id r <> "") (genre (db w)) ->
  (forall n, uuid n <> "") ->
  let r1 := storeGenre uuid (Some [n1]) w in
  let r2 := storeGenre uuid (Some [n2]) (snd r1) in
  fst r1 = fst r2
  /\ length (fst r1) = 1
  /\ length (genre (db (snd r2))) <= S (length (genre (db w))).
Proof.
  intros Heq Hids Huuid.
  assert (Hsame : forall rows,
            filter (fun r => SQL.eq_nocase (genre_name r) n2) rows
            = filter (fun r => SQL.eq_nocase (genre_name r) n1) rows).
  { intros rows. apply filter_ext. intros r. unfold SQL.eq_nocase.
    destruct (genre_name r) as [v|]; [|reflexivity].
    symmetry. apply nocase_eqb_right. exact Heq. }
  destruct (filter (fun r => SQL.eq_nocase (genre_name r) n1) (genre (db w)))
    as [|r rest] eqn:E.
  - rewrite (storeGenre_one_new uuid n1 w E). cbn [snd fst].
    rewrite (storeGenre_one_found uuid n2 _
               {| genre_id := uuid (v4_calls w); genre_name := Some n1;
                  genre_song_count := 0 |} []).
    + cbn. unfold JS.push. rewrite length_app. simpl. repeat split. lia.
    + rewrite Hsame. cbn [db genre set_genre]. unfold JS.push.
      rewrite filter_app, E. cbn [filter app SQL.eq_nocase genre_name].
      rewrite nocase_eqb_refl. reflexivity.
    + apply Huuid.
  - assert (Hr : genre_id r <> "").
    { rewrite Forall_forall in Hids. apply Hids.
      assert (X : In r (r :: rest)) by (left; reflexivity).
      rewrite <- E in X. apply filter_In in X. tauto. }
    rewrite (storeGenre_one_found uuid n1 w r rest E Hr). cbn [snd fst].
    rewrite (storeGenre_one_found uuid n2 w r rest) by (rewrite ?Hsame; assumption).
    cbn. repeat split. lia.
Qed.

Lemma storeGenre_same_identifier_witness :
  fst (storeGenre uuid_of_nat (Some ["House"]) world0)
  = fst (storeGenre uuid_of_nat (Some ["HOUSE"])
           (snd (storeGenre uuid_of_nat (Some ["House"]) world0)))
  /\ length (fst (storeGenre uuid_of_nat (Some ["House"]) world0)) = 1
  /\ length (genre (db (snd (storeGenre uuid_of_nat (Some ["HOUSE"])
                               (snd (storeGenre uuid_of_nat (Some ["House"])
                                       world0))))))
     <= S (length (genre (db world0))).
Proof.
  apply (storeGenre_same_identifier uuid_of_nat world0 "House" "HOUSE").
  - reflexivity.
  - constructor.
  - intros n. discriminate.
Defined.

Lemma ForallOrdPairs_push {A : Type} (R : A -> A -> Prop) l y :
  ForallOrdPairs R l -> Forall (fun x => R x y) l ->
  ForallOrdPairs R (JS.push l y).
Proof.
  unfold JS.push. induction 1 as [|a l Ha Hl IH]; intros Hy; simpl.
  - repeat constructor.
  - inversion Hy; subst. constructor; [|apply IH; assumption].
    apply Forall_app. split; [exact Ha|]. constructor; [assumption|constructor].
Qed.

Lemma storeArtists_loop_deduplicated uuid names :
  (forall n, uuid n <> "") ->
  forall acc w,
    artists_deduplicated (artists (db w)) ->
    artists_deduplicated (artists (db (snd (storeArtists_loop uuid names acc w)))).
Proof.
  intros Huuid. induction names as [|a rest IH]; intros acc w Hw;
    cbn [storeArtists_loop]; [exact Hw|].
  unfold bind, select, v4, run.
  assert (Hnew : filter (fun r => SQL.eq_nocase (artist_name r) (JS.trim a))
                   (artists (db w)) = [] ->
                 artists_deduplicated
                   (JS.push (artists (db w))
                      {| artist_id := uuid (v4_calls w);
                         artist_name := Some (JS.trim a);
                         artist_coverPath := None; artist_song_count := 0 |})).
  { intros E. destruct Hw as [H1 H2]. split.
    - apply ForallOrdPairs_push; [exact H1|].
      apply Forall_forall. intros r Hr. cbn [artist_name same_name].
      destruct (SQL.eq_nocase (artist_name r) (JS.trim a)) eqn:X; [|reflexivity].
      assert (Y : In r (filter (fun r => SQL.eq_nocase (artist_name r) (JS.trim a))
                          (artists (db w))))
        by (apply filter_In; split; assumption).
      rewrite E in Y. destruct Y.
    - unfold JS.push. apply Forall_app. split; [exact H2|].
      constructor; [apply Huuid | constructor]. }
  destruct (filter (fun r => SQL.eq_nocase (artist_name r) (JS.trim a))
              (artists (db w))) as [|r rows] eqn:E; cbn [queryFirstCell].
  - apply IH. cbn [db artists set_artists]. apply Hnew. reflexivity.
  - assert (T : JS.truthy (Some (artist_id r)) = true).
    { unfold JS.truthy. apply negb_true_iff, String.eqb_neq.
      destruct Hw as [_ H2]. rewrite Forall_forall in H2. apply H2.
      assert (X : In r (r :: rows)) by (left; reflexivity).
      rewrite <- E in X. apply filter_In in X. tauto. }
    rewrite T. apply IH. exact Hw.
Qed.

Lemma store_artists_table uuid newDoc w :
  artists (db (snd (store uuid newDoc w)))
  = artists (db (snd (store_artistID uuid newDoc w))).
Proof.
  rewrite store_resolve.
  assert (R : artists (db (snd (resolve uuid newDoc w)))
              = artists (db (snd (store_artistID uuid newDoc w)))).
  { unfold resolve, bind, ret.
    destruct (store_artistID uuid newDoc w) as [a w1] eqn:E1.
    destruct (store_albumID uuid newDoc w1) as [al w2] eqn:E2.
    destruct (storeGenre uuid (Doc.genre newDoc) w2) as [g w3] eqn:E3.
    cbn [snd].
    assert (F2 : db w2 = set_albums (albums (db w2)) (db w1)).
    { unfold store_albumID in E2. destruct (Doc.album newDoc) as [album|].
      - pose proof (storeAlbum_frame uuid album w1) as H.
        rewrite E2 in H. exact H.
      - inversion E2; subst. destruct (db w2); reflexivity. }
    assert (F3 : db w3 = set_genre (genre (db w3)) (db w2)).
    { unfold storeGenre in E3. destruct (Doc.genre newDoc) as [names|].
      - pose proof (storeGenre_loop_frame uuid names [] w2) as H.
        rewrite E3 in H. exact H.
      - inversion E3; subst. destruct (db w3); reflexivity. }
    rewrite F3, F2. reflexivity. }
  destruct (resolve uuid newDoc w) as [[[artistID albumID] genreID] w'].
  cbn [snd] in R. rewrite <- R.
  destruct (_ =? 0)%nat; [|reflexivity].
  match goal with |- context [snd (?c ?w0)] =>
    destruct (bridges_frame artistID albumID genreID (Doc._id newDoc) w0)
      as (_ & Ha & _) end.
  rewrite Ha. reflexivity.
Qed.

(** X21: [store] keeps the [artists] table deduplicated.  If no two
    artist rows share a name up to ASCII case and no artist identifier is
    empty, the same holds after any [store], whatever the song and
    however often its artist names repeat, as long as [v4()] returns no
    empty identifier. *)
Theorem store_keeps_artists_deduplicated (uuid : nat -> string)
    (newDoc : Doc.Song) (w : World) :
  (forall n, uuid n <> "") ->
  artists_deduplicated (artists (db w)) ->
  artists_deduplicated (artists (db (snd (store uuid newDoc w)))).
Proof.
  intros Huuid Hw. rewrite store_artists_table. unfold store_artistID.
  destruct (Doc.artists newDoc) as [names|]; [|exact Hw].
  apply storeArtists_loop_deduplicated; assumption.
Qed.

Lemma store_keeps_artists_deduplicated_witness :
  artists_deduplicated
    (artists (db (snd (store uuid_of_nat song_spaced
                         (snd (store uuid_of_nat song_one world0)))))).
Proof.
  apply (store_keeps_artists_deduplicated uuid_of_nat song_spaced
           (snd (store uuid_of_nat song_one world0))).
  - intros n. discriminate.
  - split; repeat constructor. discriminate.
Defined.

(* ================================================================= *)
(** ** The WHERE clause of a song query *)

Lemma join_predicates_app connective l1 : forall l2 first,
  join_predicates connective (l1 ++ l2)%list first
  = join_predicates connective l1 first
      ++ join_predicates connective l2
           (first && match l1 with [] => true | _ => false end).
Proof.
  induction l1 as [|[t c] l1 IH]; intros l2 first.
  - simpl. rewrite andb_true_r. reflexivity.
  - cbn [app join_predicates]. rewrite IH, andb_false_r.
    rewrite !append_assoc. reflexivity.
Qed.

Lemma where_props_clause inclusive tableName props : forall st,
  let st' := where_props inclusive tableName props st in
  where_clause st'
  = where_clause st
      ++ join_predicates (if inclusive then "AND" else "OR")
           (map (fun p => (tableName, fst p)) props) (isFirst st)
  /\ isFirst st' = isFirst st && match props with [] => true | _ => false end.
Proof.
  induction props as [|[k v] props IH]; intros st;
    cbn [where_props addANDorOR].
  - split; [|rewrite andb_true_r; reflexivity].
    simpl. induction (where_clause st) as [|c s IHs]; simpl; [|rewrite <- IHs];
      reflexivity.
  - match goal with |- context [where_props _ _ _ ?st1] =>
      destruct (IH st1) as [H1 H2] end.
    cbv zeta in H1, H2. rewrite H1, H2. cbn [where_clause isFirst].
    split; [|rewrite andb_false_r; destruct props; reflexivity].
    cbn [map join_predicates fst negb].
    destruct (isFirst st); cbn [negb]; rewrite !append_assoc; reflexivity.
Qed.

Lemma where_keys_clause inclusive entries : forall st,
  let st' := where_keys inclusive entries st in
  where_clause st'
  = where_clause st
      ++ join_predicates (if inclusive then "AND" else "OR")
           (song_predicates entries) (isFirst st)
  /\ isFirst st'
     = isFirst st && match song_predicates entries with
                     | [] => true | _ => false end.
Proof.
  induction entries as [|[key value] rest IH]; intros st; simpl.
  - split; [|rewrite andb_true_r; reflexivity].
    induction (where_clause st) as [|c s IHs]; simpl; [|rewrite <- IHs];
      reflexivity.
  - destruct (negb (key =? "inclusive") && negb (key =? "sortBy")).
    + match goal with |- context [where_keys _ _ ?st1] =>
        destruct (IH st1) as [H1 H2] end.
      cbv zeta in H1, H2. rewrite H1, H2.
      destruct (where_props_clause inclusive (getTableByProperty key)
                  (song_entries value) st) as [P1 P2].
      cbv zeta in P1, P2. rewrite P1, P2.
      rewrite join_predicates_app, append_assoc.
      destruct (song_entries value) as [|e es]; cbn [map app];
        rewrite ?andb_true_r, ?andb_false_r; split; reflexivity.
    + simpl. apply IH.
Qed.

Lemma song_predicates_values_length options :
  length (song_predicates options) = length (song_predicate_values options).
Proof.
  unfold song_predicates, song_predicate_values.
  induction options as [|[key value] rest IH]; simpl; [reflexivity|].
  rewrite !length_app, IH.
  destruct (negb (key =? "inclusive") && negb (key =? "sortBy"));
    simpl; rewrite ?length_map; reflexivity.
Qed.

(** X22: the WHERE clause of [populateWhereQuery].  Without options, and
    with options that hold no predicate (only [inclusive], [sortBy] or
    empty category objects), the clause and the arguments are empty.
    Otherwise the clause is "WHERE " followed by the predicates
    [table.column LIKE ?] in the order of the options, with AND before
    every predicate but the first when [inclusive] holds and OR when it
    does not, and there are as many arguments as predicates. *)
Theorem populateWhereQuery_clause (options : SongAPIOptions) :
  populateWhereQuery None = ("", [])
  /\ (song_predicates options = [] ->
      populateWhereQuery (Some options) = ("", []))
  /\ (song_predicates options <> [] ->
      populateWhereQuery (Some options)
      = ("WHERE "
           ++ join_predicates (if song_inclusive options then "AND" else "OR")
                (song_predicates options) true,
         map substring_pattern (song_predicate_values options)))
  /\ length (song_predicates options) = length (song_predicate_values options).
Proof.
  split; [reflexivity|].
  pose proof (song_predicates_values_length options) as Hlen.
  destruct (where_keys_clause (song_inclusive options) options
              {| isFirst := true; where_clause := "WHERE "; args := [] |})
    as [Hclause _].
  cbv zeta in Hclause. cbn [where_clause isFirst] in Hclause.
  pose proof (where_keys_args (song_inclusive options) options
                {| isFirst := true; where_clause := "WHERE "; args := [] |}) as Ha.
  cbn [args app] in Ha.
  split; [|split; [|exact Hlen]].
  - intros Hnone. rewrite Hnone in Hlen. cbn [length] in Hlen.
    unfold populateWhereQuery. cbv zeta.
    rewrite Ha, length_map, <- Hlen. reflexivity.
  - intros Hsome. unfold populateWhereQuery. cbv zeta.
    rewrite Ha, length_map, <- Hlen.
    destruct (song_predicates options) as [|p ps]; [contradiction|].
    cbn [length Nat.eqb]. rewrite Hclause. reflexivity.
Qed.

Lemma populateWhereQuery_clause_witness :
  populateWhereQuery (Some [("inclusive", SBool true); ("song", SObject [])])
  = ("", [])
  /\ populateWhereQuery
       (Some [("song", SObject [("title", "love")]);
              ("artist", SObject [("artist_name", "Bob")]);
              ("inclusive", SBool true)])
     = ("WHERE  allsongs.title LIKE ?AND artists.artist_name LIKE ?",
        ["%love%"; "%Bob%"]).
Proof.
  split.
  - apply (proj1 (proj2 (populateWhereQuery_clause
                           [("inclusive", SBool true); ("song", SObject [])]))).
    reflexivity.
  - apply (proj1 (proj2 (proj2 (populateWhereQuery_clause
                           [("song", SObject [("title", "love")]);
                            ("artist", SObject [("artist_name", "Bob")]);
                            ("inclusive", SBool true)])))).
    discriminate.
Defined.

(* ================================================================= *)
(** ** Entity queries that select a whole table *)

Lemma filter_all {A : Type} (l : list A) : filter (fun _ => true) l = l.
Proof. induction l as [|x l IH]; simpl; [|rewrite IH]; reflexivity. Qed.

Lemma run_entity_query_all {Row : Type} table cell
    (title_col : Row -> option string) key pre rest rows :
  Forall (fun e : string * EntityValue => getTableByProperty (fst e) = None) pre ->
  getTableByProperty key = Some table ->
  run_entity_query table cell title_col (pre ++ (key, EBool true) :: rest)%list rows
  = Some (SQL.order_by_asc title_col rows).
Proof.
  intros Hpre Hkey. unfold run_entity_query, getEntityByOptions_state.
  rewrite (entity_keys_skip _ pre _ _ Hpre). cbn [entity_keys]. rewrite Hkey.
  cbn [from_tables predicates JS.push app forallb]. rewrite String.eqb_refl.
  cbn [andb]. unfold like_row. rewrite filter_all. reflexivity.
Qed.

(** X23: the boolean shortcut of [getEntityByOptions].  Options whose
    category key holds [true] select every row of the category's table,
    each once, in ascending order of its title column, whatever keys
    follow in the options; the statement binds no argument. *)
Theorem getEntityByOptions_true_selects_all (pre rest : EntityApiOptions) (d : DB) :
  Forall (fun e => getTableByProperty (fst e) = None) pre ->
  (exists found,
      getEntityByOptions_albums (pre ++ ("album", EBool true) :: rest)%list d
      = Some found
      /\ Permutation found (albums d)
      /\ Sorted (fun a b => SQL.key_leb (album_name a) (album_name b) = true) found)
  /\ (exists found,
        getEntityByOptions_artists (pre ++ ("artist", EBool true) :: rest)%list d
        = Some found
        /\ Permutation found (artists d)
        /\ Sorted (fun a b => SQL.key_leb (artist_name a) (artist_name b) = true)
             found)
  /\ (exists found,
        getEntityByOptions_genre (pre ++ ("genre", EBool true) :: rest)%list d
        = Some found
        /\ Permutation found (genre d)
        /\ Sorted (fun a b => SQL.key_leb (genre_name a) (genre_name b) = true)
             found)
  /\ (forall key,
        In key ["album"; "artist"; "genre"; "playlist"] ->
        snd (getEntityByOptions_query (pre ++ (key, EBool true) :: rest)%list) = []).
Proof.
  intros Hpre. split; [|split; [|split]].
  - eexists. split; [apply run_entity_query_all; [exact Hpre|reflexivity]|].
    split; [apply order_by_asc_perm | apply order_by_asc_sorted].
  - eexists. split; [apply run_entity_query_all; [exact Hpre|reflexivity]|].
    split; [apply order_by_asc_perm | apply order_by_asc_sorted].
  - eexists. split; [apply run_entity_query_all; [exact Hpre|reflexivity]|].
    split; [apply order_by_asc_perm | apply order_by_asc_sorted].
  - intros key Hkey. unfold getEntityByOptions_query, getEntityByOptions_state.
    cbn [snd]. rewrite (entity_keys_skip _ pre _ _ Hpre).
    simpl in Hkey. destruct Hkey as [<-|[<-|[<-|[<-|[]]]]]; reflexivity.
Qed.

Lemma getEntityByOptions_true_selects_all_witness :
  exists found,
    getEntityByOptions_artists
      [("inclusive", EBool true); ("artist", EBool true)] db_shared_artist
    = Some found
    /\ Permutation found (artists db_shared_artist)
    /\ Sorted (fun a b => SQL.key_leb (artist_name a) (artist_name b) = true)
         found.
Proof.
  apply (proj1 (proj2 (getEntityByOptions_true_selects_all
                         [("inclusive", EBool true)] [] db_shared_artist
                         ltac:(repeat constructor)))).
Defined.

(* ================================================================= *)
(** ** Storing the same song again *)

Lemma filter_first_app {A : Type} (f : A -> bool) l r rest extra :
  filter f l = r :: rest -> filter f (l ++ extra) = r :: (rest ++ filter f extra).
Proof. intros H. rewrite filter_app, H. reflexivity. Qed.

(** A second run of the loop of [storeArtists] over the same names, on
    any later state of the table, finds every name and inserts
    nothing. *)
Lemma storeArtists_loop_again uuid names :
  (forall n, uuid n <> "") ->
  forall acc w,
    Forall (fun r => artist_id r <> "") (artists (db w)) ->
    exists new,
      fst (storeArtists_loop uuid names acc w) = (acc ++ new)%list
      /\ forall acc2 w2 extra,
           artists (db w2)
           = (artists (db (snd (storeArtists_loop uuid names acc w))) ++ extra)%list ->
           storeArtists_loop uuid names acc2 w2 = ((acc2 ++ new)%list, w2).
Proof.
  intros Huuid. induction names as [|a rest IH]; intros acc w Hw.
  - exists []. split; [symmetry; apply app_nil_r|].
    intros acc2 w2 extra _. cbn [storeArtists_loop]. unfold ret.
    rewrite app_nil_r. reflexivity.
  - cbn [storeArtists_loop]. unfold bind, select, v4, run.
    destruct (filter (fun r => SQL.eq_nocase (artist_name r) (JS.trim a))
                (artists (db w))) as [|r rows] eqn:E; cbn [queryFirstCell].
    + (* no row of the name: one is inserted *)
      match goal with |- context [storeArtists_loop uuid rest ?acc1 ?w1] =>
        destruct (IH acc1 w1) as (new & H1 & H2);
        [|destruct (storeArtists_loop_ids uuid rest acc1 w1)
            as (? & added & _ & _ & Hadd & _)] end.
      { cbn [db artists set_artists]. unfold JS.push. apply Forall_app.
        split; [exact Hw|]. constructor; [apply Huuid|constructor]. }
      exists (uuid (v4_calls w) :: new). unfold JS.push in *.
      rewrite H1, <- app_assoc. split; [reflexivity|].
      intros acc2 w2 extra Hw2.
      assert (T : JS.truthy (Some (uuid (v4_calls w))) = true).
      { unfold JS.truthy. apply negb_true_iff, String.eqb_neq, Huuid. }
      rewrite Hadd in Hw2. cbn [db artists set_artists] in Hw2.
      rewrite <- !app_assoc in Hw2. rewrite Hw2, filter_app, E.
      cbn [app filter SQL.eq_nocase artist_name]. rewrite nocase_eqb_refl.
      cbn [queryFirstCell artist_id]. rewrite T.
      rewrite (H2 (acc2 ++ [uuid (v4_calls w)])%list w2 extra).
      * rewrite <- app_assoc. reflexivity.
      * rewrite Hadd. cbn [db artists set_artists].
        rewrite <- !app_assoc. exact Hw2.
    + (* a row of the name *)
      assert (T : JS.truthy (Some (artist_id r)) = true).
      { unfold JS.truthy. apply negb_true_iff, String.eqb_neq.
        rewrite Forall_forall in Hw. apply Hw.
        assert (X : In r (r :: rows)) by (left; reflexivity).
        rewrite <- E in X. apply filter_In in X. tauto. }
      rewrite T.
      destruct (IH (JS.push acc (artist_id r)) w Hw) as (new & H1 & H2).
      destruct (storeArtists_loop_ids uuid rest (JS.push acc (artist_id r)) w)
        as (? & added & _ & _ & Hadd & _).
      exists (artist_id r :: new). unfold JS.push in *.
      rewrite H1, <- app_assoc. split; [reflexivity|].
      intros acc2 w2 extra Hw2.
      rewrite Hadd, <- app_assoc in Hw2.
      rewrite Hw2, (filter_first_app _ _ _ _ _ E). cbn [queryFirstCell]. rewrite T.
      rewrite (H2 (acc2 ++ [artist_id r])%list w2 extra).
      * rewrite <- app_assoc. reflexivity.
      * rewrite Hadd, <- app_assoc. exact Hw2.
Qed.

Lemma storeGenre_loop_again uuid names :
  (forall n, uuid n <> "") ->
  forall acc w,
    Forall (fun r => genre_id r <> "") (genre (db w)) ->
    exists new,
      fst (storeGenre_loop uuid names acc w) = (acc ++ new)%list
      /\ forall acc2 w2 extra,
           genre (db w2)
           = (genre (db (snd (storeGenre_loop uuid names acc w))) ++ extra)%list ->
           storeGenre_loop uuid names acc2 w2 = ((acc2 ++ new)%list, w2).
Proof.
  intros Huuid. induction names as [|a rest IH]; intros acc w Hw.
  - exists []. split; [symmetry; apply app_nil_r|].
    intros acc2 w2 extra _. cbn [storeGenre_loop]. unfold ret.
    rewrite app_nil_r. reflexivity.
  - cbn [storeGenre_loop]. unfold bind, select, v4, run.
    destruct (filter (fun r => SQL.eq_nocase (genre_name r) a) (genre (db w)))
      as [|r rows] eqn:E; cbn [queryFirstCell].
    + match goal with |- context [storeGenre_loop uuid rest ?acc1 ?w1] =>
        destruct (IH acc1 w1) as (new & H1 & H2);
        [|destruct (storeGenre_loop_ids uuid rest acc1 w1)
            as (? & added & _ & _ & Hadd & _)] end.
      { cbn [db genre set_genre]. unfold JS.push. apply Forall_app.
        split; [exact Hw|]. constructor; [apply Huuid|constructor]. }
      exists (uuid (v4_calls w) :: new). unfold JS.push in *.
      rewrite H1, <- app_assoc. split; [reflexivity|].
      intros acc2 w2 extra Hw2.
      assert (T : JS.truthy (Some (uuid (v4_calls w))) = true).
      { unfold JS.truthy. apply negb_true_iff, String.eqb_neq, Huuid. }
      rewrite Hadd in Hw2. cbn [db genre set_genre] in Hw2.
      rewrite <- !app_assoc in Hw2. rewrite Hw2, filter_app, E.
      cbn [app filter SQL.eq_nocase genre_name]. rewrite nocase_eqb_refl.
      cbn [queryFirstCell genre_id]. rewrite T.
      rewrite (H2 (acc2 ++ [uuid (v4_calls w)])%list w2 extra).
      * rewrite <- app_assoc. reflexivity.
      * rewrite Hadd. cbn [db genre set_genre].
        rewrite <- !app_assoc. exact Hw2.
    + assert (T : JS.truthy (Some (genre_id r)) = true).
      { unfold JS.truthy. apply negb_true_iff, String.eqb_neq.
        rewrite Forall_forall in Hw. apply Hw.
        assert (X : In r (r :: rows)) by (left; reflexivity).
        rewrite <- E in X. apply filter_In in X. tauto. }
      rewrite T.
      destruct (IH (JS.push acc (genre_id r)) w Hw) as (new & H1 & H2).
      destruct (storeGenre_loop_ids uuid rest (JS.push acc (genre_id r)) w)
        as (? & added & _ & _ & Hadd & _).
      exists (genre_id r :: new). unfold JS.push in *.
      rewrite H1, <- app_assoc. split; [reflexivity|].
      intros acc2 w2 extra Hw2.
      rewrite Hadd, <- app_assoc in Hw2.
      rewrite Hw2, (filter_first_app _ _ _ _ _ E). cbn [queryFirstCell]. rewrite T.
      rewrite (H2 (acc2 ++ [genre_id r])%list w2 extra).
      * rewrite <- app_assoc. reflexivity.
      * rewrite Hadd, <- app_assoc. exact Hw2.
Qed.

Lemma delete_where_twice {Row : Type} (key : Row -> string) v rows :
  delete_where key v (delete_where key v rows) = delete_where key v rows.
Proof.
  apply delete_where_absent. apply count_where_delete_where.
Qed.

Lemma filter_delete_where_none {Row : Type} (f : Row -> bool)
    (key : Row -> string) v rows :
  filter f rows = [] -> filter f (delete_where key v rows) = [].
Proof.
  intros H. unfold delete_where. rewrite filter_filter_comm, H. reflexivity.
Qed.

Lemma world_same_albums (w : World) rows :
  albums (db w) = rows ->
  {| db := set_albums rows (db w); v4_calls := v4_calls w |} = w.
Proof. intros <-. destruct w as [[] n]; reflexivity. Qed.

(** A second [storeAlbum] of the same album, on the table the first one
    left, returns the same identifier and changes nothing. *)
Lemma storeAlbum_again uuid album name w :
  (forall n, uuid n <> "") ->
  Doc.album_name album = Some name -> name <> "" ->
  JS.trim name = name ->
  album_name_settled name (albums (db w)) ->
  forall w2,
    albums (db w2) = albums (db (snd (storeAlbum uuid album w))) ->
    storeAlbum uuid album w2 = (fst (storeAlbum uuid album w), w2).
Proof.
  intros Huuid Hname Hne Htrim Hset w2 Hw2.
  assert (Tn : JS.truthy (Some name) = true).
  { unfold JS.truthy. apply negb_true_iff, String.eqb_neq, Hne. }
  assert (Hnew : forall id,
            filter (fun r => SQL.eq_nocase (album_name r) (JS.trim name))
              [ {| album_id := id; album_name := Doc.album_name album;
                   album_coverPath_low := Doc.album_coverPath_low album;
                   album_coverPath_high := Doc.album_coverPath_high album;
                   album_artist := Doc.album_artist album;
                   album_song_count := 0 |} ]
            = [ {| album_id := id; album_name := Doc.album_name album;
                   album_coverPath_low := Doc.album_coverPath_low album;
                   album_coverPath_high := Doc.album_coverPath_high album;
                   album_artist := Doc.album_artist album;
                   album_song_count := 0 |} ]).
  { intros id. cbn [filter album_name]. rewrite Hname. cbn [SQL.eq_nocase].
    rewrite Htrim, nocase_eqb_refl. reflexivity. }
  assert (Hagain : forall id,
            id <> "" ->
            filter (fun r => SQL.eq_nocase (album_name r) (JS.trim name))
              (delete_where album_id id (albums (db w))) = [] ->
            albums (db w2) = insert_or_replace_album id album (albums (db w)) ->
            storeAlbum uuid album w2 = (Some id, w2)).
  { intros id Hid Hnone Hrows.
    assert (Q : queryFirstCell (fun r => Some (album_id r))
                  (filter (fun r => SQL.eq_nocase (album_name r) (JS.trim name))
                     (albums (db w2))) = Some id).
    { rewrite Hrows. unfold insert_or_replace_album, JS.push.
      rewrite filter_app, Hnone, Hnew. reflexivity. }
    assert (T : JS.truthy (Some id) = true).
    { unfold JS.truthy. apply negb_true_iff, String.eqb_neq, Hid. }
    unfold storeAlbum. rewrite Hname, Tn.
    unfold bind, select, run, ret. rewrite Q.
    rewrite T. cbn [negb]. f_equal. apply world_same_albums.
    rewrite Hrows. symmetry.
    unfold insert_or_replace_album, JS.push, delete_where.
    rewrite filter_app. cbn [filter album_id]. rewrite String.eqb_refl.
    cbn [negb]. rewrite app_nil_r.
    fold (delete_where album_id id (albums (db w))).
    fold (delete_where album_id id (delete_where album_id id (albums (db w)))).
    rewrite delete_where_twice. reflexivity. }
  unfold storeAlbum in Hw2 |- * at 2. rewrite Hname, Tn in *.
  unfold bind, select, v4, run, ret in Hw2 |- *.
  destruct (filter (fun r => SQL.eq_nocase (album_name r) (JS.trim name))
              (albums (db w))) as [|r0 rest] eqn:E; cbn [queryFirstCell] in *.
  - cbn [JS.truthy negb fst snd db albums set_albums] in *.
    apply Hagain; [apply Huuid | | exact Hw2].
    apply filter_delete_where_none. exact E.
  - assert (Hr0 : In r0 (albums (db w))
                  /\ SQL.eq_nocase (album_name r0) (JS.trim name) = true).
    { assert (X : In r0 (r0 :: rest)) by (left; reflexivity).
      rewrite <- E in X. apply filter_In in X. exact X. }
    destruct Hr0 as [Hin0 Hm0].
    destruct (Hset r0 r0 Hin0 Hin0 Hm0 Hm0) as [Hid0 _].
    assert (T : JS.truthy (Some (album_id r0)) = true).
    { unfold JS.truthy. apply negb_true_iff, String.eqb_neq, Hid0. }
    rewrite T in *. cbn [negb fst snd db albums set_albums] in *.
    apply Hagain; [exact Hid0 | | exact Hw2].
    destruct (filter _ (delete_where album_id (album_id r0) (albums (db w))))
      as [|x xs] eqn:X; [reflexivity|].
    exfalso.
    assert (Hx : In x (x :: xs)) by (left; reflexivity).
    rewrite <- X in Hx. apply filter_In in Hx. destruct Hx as [Hx1 Hx2].
    unfold delete_where in Hx1. apply filter_In in Hx1.
    destruct Hx1 as [Hx1 Hx3].
    destruct (Hset r0 x Hin0 Hx1 Hm0 Hx2) as [_ Hsame].
    rewrite Hsame, String.eqb_refl in Hx3. discriminate.
Qed.

Lemma resolve_again uuid newDoc w :
  (forall n, uuid n <> "") ->
  ready_for newDoc (db w) ->
  forall wx,
    artists (db wx) = artists (db (snd (resolve uuid newDoc w))) ->
    albums (db wx) = albums (db (snd (resolve uuid newDoc w))) ->
    genre (db wx) = genre (db (snd (resolve uuid newDoc w))) ->
    resolve uuid newDoc wx = (fst (resolve uuid newDoc w), wx).
Proof.
  intros Huuid (Ra & Rg & Rl) wx. unfold resolve, bind, ret.
  destruct (store_artistID uuid newDoc w) as [a w1] eqn:E1.
  destruct (store_albumID uuid newDoc w1) as [al w2] eqn:E2.
  destruct (storeGenre uuid (Doc.genre newDoc) w2) as [g w3] eqn:E3.
  cbn [fst snd].
  assert (F1 : db w1 = set_artists (artists (db w1)) (db w)).
  { unfold store_artistID in E1. destruct (Doc.artists newDoc) as [names|].
    - pose proof (storeArtists_loop_frame uuid names [] w) as H.
      unfold storeArtists in E1. rewrite E1 in H. exact H.
    - inversion E1; subst. destruct (db w1); reflexivity. }
  assert (F2 : db w2 = set_albums (albums (db w2)) (db w1)).
  { unfold store_albumID in E2. destruct (Doc.album newDoc) as [album|].
    - pose proof (storeAlbum_frame uuid album w1) as H.
      rewrite E2 in H. exact H.
    - inversion E2; subst. destruct (db w2); reflexivity. }
  assert (F3 : db w3 = set_genre (genre (db w3)) (db w2)).
  { unfold storeGenre in E3. destruct (Doc.genre newDoc) as [names|].
    - pose proof (storeGenre_loop_frame uuid names [] w2) as H.
      rewrite E3 in H. exact H.
    - inversion E3; subst. destruct (db w3); reflexivity. }
  assert (Ha : artists (db w3) = artists (db w1)) by (rewrite F3, F2; reflexivity).
  assert (Hl : albums (db w3) = albums (db w2)) by (rewrite F3; reflexivity).
  assert (Hl1 : albums (db w1) = albums (db w)) by (rewrite F1; reflexivity).
  assert (Hg2 : genre (db w2) = genre (db w)) by (rewrite F2, F1; reflexivity).
  rewrite Ha, Hl. intros Hxa Hxl Hxg.
  assert (A : store_artistID uuid newDoc wx = (a, wx)).
  { unfold store_artistID in *. destruct (Doc.artists newDoc) as [names|].
    - destruct (storeArtists_loop_again uuid names Huuid [] w Ra)
        as (new & H1 & H2).
      unfold storeArtists in *. rewrite E1 in H1, H2. cbn [fst snd] in H1, H2.
      rewrite H1. apply H2 with (extra := []). rewrite app_nil_r. exact Hxa.
    - inversion E1; subst. reflexivity. }
  rewrite A.
  assert (L : store_albumID uuid newDoc wx = (al, wx)).
  { unfold store_albumID in *. destruct (Doc.album newDoc) as [album|].
    - cbn [opt_chain] in Rl.
      destruct (Doc.album_name album) as [name|] eqn:Hname.
      + destruct Rl as [Htrim Hset].
        destruct (String.eqb_spec name "") as [->|Hne].
        * unfold storeAlbum in *. rewrite Hname in *.
          cbn [JS.truthy String.eqb negb] in *. inversion E2; subst.
          reflexivity.
        * pose proof (storeAlbum_again uuid album name w1 Huuid Hname Hne Htrim)
            as H.
          rewrite Hl1, E2 in H. cbn [fst snd] in H. apply H; assumption.
      + unfold storeAlbum in *. rewrite Hname in *. inversion E2; subst.
        reflexivity.
    - inversion E2; subst. reflexivity. }
  rewrite L.
  assert (G : storeGenre uuid (Doc.genre newDoc) wx = (g, wx)).
  { unfold storeGenre in *. destruct (Doc.genre newDoc) as [names|].
    - rewrite <- Hg2 in Rg.
      destruct (storeGenre_loop_again uuid names Huuid [] w2 Rg)
        as (new & H1 & H2).
      rewrite E3 in H1, H2. cbn [fst snd] in H1, H2.
      rewrite H1. apply H2 with (extra := []). rewrite app_nil_r. exact Hxg.
    - inversion E3; subst. reflexivity. }
  rewrite G. reflexivity.
Qed.

Lemma store_tables uuid newDoc w :
  let d' := db (snd (store uuid newDoc w)) in
  let dr := db (snd (resolve uuid newDoc w)) in
  artists d' = artists dr /\ albums d' = albums dr /\ genre d' = genre dr.
Proof.
  cbv zeta. rewrite store_resolve.
  destruct (resolve uuid newDoc w) as [[[artistID albumID] genreID] w'].
  cbn [snd]. destruct (_ =? 0)%nat; [|repeat split].
  match goal with |- context [snd (?c ?w0)] =>
    destruct (bridges_frame artistID albumID genreID (Doc._id newDoc) w0)
      as (_ & Ha & Hl & Hg) end.
  rewrite Ha, Hl, Hg. repeat split.
Qed.

(** X24: store is idempotent on a library that is ready for the song.
    When no artist and no genre has an empty identifier and the album
    name of the song, if any, has no white space around it and is
    settled, a second [store] of the same song returns with the world as
    the first one left it: no row is added, changed or reordered and
    [v4()] is not called. *)
Theorem store_same_song_again (uuid : nat -> string) (newDoc : Doc.Song)
    (w : World) :
  (forall n, uuid n <> "") ->
  ready_for newDoc (db w) ->
  store uuid newDoc (snd (store uuid newDoc w))
  = (tt, snd (store uuid newDoc w)).
Proof.
  intros Huuid Hready.
  destruct (store_tables uuid newDoc w) as (Ta & Tl & Tg). cbv zeta in *.
  pose proof (resolve_again uuid newDoc w Huuid Hready
                (snd (store uuid newDoc w)) Ta Tl Tg) as R.
  assert (Hstored : count_where _id (Doc._id newDoc)
                      (allsongs (db (snd (store uuid newDoc w)))) <> 0).
  { destruct (store_allsongs uuid newDoc w) as [Hnew Hold]. cbv zeta in *.
    destruct (count_where _id (Doc._id newDoc) (allsongs (db w))) as [|n] eqn:E.
    - rewrite (Hnew eq_refl), count_where_push, E.
      cbn [marshalSong _id]. rewrite String.eqb_refl. discriminate.
    - destruct (Hold (Nat.neq_succ_0 n)) as (Hs & _). rewrite Hs, E.
      discriminate. }
  rewrite (store_resolve uuid newDoc (snd (store uuid newDoc w))), R.
  destruct (fst (resolve uuid newDoc w)) as [[a al] g].
  apply Nat.eqb_neq in Hstored. rewrite Hstored. reflexivity.
Qed.

Lemma store_same_song_again_witness :
  store uuid_of_nat song_one (snd (store uuid_of_nat song_one world0))
  = (tt, snd (store uuid_of_nat song_one world0)).
Proof.
  apply (store_same_song_again uuid_of_nat song_one world0).
  - intros n. discriminate.
  - split; [constructor | split; [constructor|]].
    split; [reflexivity|]. intros r r' [].
Defined.

(** An album name with white space before it is not ready: the album is
    looked up under the trimmed name and stored under the name as given,
    so that the second [store] of the song inserts a second album row. *)
Example store_nbsp_album_again :
  ~ ready_for song_nbsp (db (snd (store uuid_of_nat song_nbsp world0)))
  /\ length (albums (db (snd (store uuid_of_nat song_nbsp world0)))) = 1
  /\ length (albums (db (snd (store uuid_of_nat song_nbsp
                                (snd (store uuid_of_nat song_nbsp world0))))))
     = 2.
Proof.
  split; [|split; reflexivity].
  intros (_ & _ & H & _). discriminate H.
Qed.

(* ================================================================= *)
(** ** What the predicates of a query match *)

Lemma to_lower_continuation (c : ascii) :
  SQL.is_continuation (SQL.to_lower c) = SQL.is_continuation c.
Proof. destruct c as [[] [] [] [] [] [] [] []]; reflexivity. Qed.

Lemma nocase_eqb_sym a : forall b, SQL.nocase_eqb a b = SQL.nocase_eqb b a.
Proof.
  induction a as [|x a IH]; intros [|y b]; simpl; try reflexivity.
  rewrite IH, Ascii.eqb_sym. reflexivity.
Qed.

Lemma like_any_end (k : string -> bool) :
  k "" = true -> forall text inside, SQL.like_any k text inside = true.
Proof.
  intros Hk. induction text as [|c text IH]; intros inside; cbn [SQL.like_any].
  - exact Hk.
  - destruct (inside && SQL.is_continuation c); [apply IH|].
    rewrite IH. apply orb_true_r.
Qed.

Lemma like_any_found (k : string -> bool) (s : string) :
  starts_character s = true -> k s = true ->
  forall before inside, SQL.like_any k (before ++ s) inside = true.
Proof.
  intros Hs Hk. induction before as [|c before IH]; intros inside.
  - cbn [append]. destruct s as [|y s']; cbn [SQL.like_any]; [exact Hk|].
    simpl in Hs. apply negb_true_iff in Hs. rewrite Hs, andb_false_r, Hk.
    reflexivity.
  - cbn [append SQL.like_any].
    destruct (inside && SQL.is_continuation c); [apply IH|].
    rewrite IH. apply orb_true_r.
Qed.

Lemma like_any_inv (k : string -> bool) : forall text inside,
  SQL.like_any k text inside = true ->
  exists before s, text = before ++ s /\ k s = true.
Proof.
  induction text as [|c text IH]; intros inside H; cbn [SQL.like_any] in H.
  - exists "", "". split; [reflexivity | exact H].
  - destruct (inside && SQL.is_continuation c).
    + destruct (IH _ H) as (before & s & -> & Hk).
      exists (String c before), s. split; [reflexivity | exact Hk].
    + apply orb_prop in H. destruct H as [H|H].
      * exists "", (String c text). split; [reflexivity | exact H].
      * destruct (IH _ H) as (before & s & -> & Hk).
        exists (String c before), s. split; [reflexivity | exact Hk].
Qed.

(** Without wild cards LIKE compares the whole text, up to ASCII case. *)
Lemma like_plain value :
  no_wildcard value = true ->
  forall text, SQL.like value text = SQL.nocase_eqb value text.
Proof.
  induction value as [|c value IH]; intros Hw text.
  - destruct text; reflexivity.
  - cbn [no_wildcard] in Hw. apply andb_prop in Hw. destruct Hw as [Hw Hrest].
    apply andb_prop in Hw. destruct Hw as [H1 H2].
    apply negb_true_iff in H1, H2.
    cbn [SQL.like SQL.nocase_eqb]. rewrite H1, H2.
    destruct text as [|x text]; [reflexivity|].
    rewrite (IH Hrest). reflexivity.
Qed.

Lemma like_prefix value :
  no_wildcard value = true ->
  forall text,
    SQL.like (value ++ "%") text = true
    <-> exists found rest, text = found ++ rest /\ SQL.nocase_eqb value found = true.
Proof.
  induction value as [|c value IH]; intros Hw text.
  - cbn [append]. split.
    + intros _. exists "", text. split; reflexivity.
    + intros _. cbn [SQL.like]. cbn. apply like_any_end. reflexivity.
  - cbn [no_wildcard] in Hw. apply andb_prop in Hw. destruct Hw as [Hw Hrest].
    apply andb_prop in Hw. destruct Hw as [H1 H2].
    apply negb_true_iff in H1, H2.
    cbn [append SQL.like]. rewrite H1, H2. split.
    + destruct text as [|x text]; [discriminate|].
      intros H. apply andb_prop in H. destruct H as [Hc Hl].
      apply (IH Hrest) in Hl. destruct Hl as (found & rest & -> & Hn).
      exists (String x found), rest. split; [reflexivity|].
      cbn [SQL.nocase_eqb]. rewrite Hc, Hn. reflexivity.
    + intros (found & rest & -> & Hn).
      destruct found as [|x found]; [discriminate Hn|].
      cbn [SQL.nocase_eqb] in Hn. apply andb_prop in Hn. destruct Hn as [Hc Hn].
      cbn [append]. rewrite Hc. cbn [andb].
      apply (IH Hrest). exists found, rest. split; [reflexivity | exact Hn].
Qed.

(** The wrapped pattern [%value%] finds the value anywhere in the text. *)
Lemma like_substring_pattern value text :
  no_wildcard value = true -> starts_character value = true ->
  (SQL.like (substring_pattern value) text = true
   <-> exists before found rest,
         text = before ++ found ++ rest /\ SQL.nocase_eqb value found = true).
Proof.
  intros Hw Hs. unfold substring_pattern. cbn [append SQL.like]. cbn [Ascii.eqb Bool.eqb].
  split.
  - intros H. apply like_any_inv in H. destruct H as (before & s & -> & H).
    apply (like_prefix value Hw) in H. destruct H as (found & rest & -> & Hn).
    exists before, found, rest. split; [reflexivity | exact Hn].
  - intros (before & found & rest & -> & Hn).
    destruct value as [|c value].
    + apply like_any_end. cbn. reflexivity.
    + apply like_any_found.
      * destruct found as [|x found]; [discriminate Hn|].
        cbn [SQL.nocase_eqb] in Hn. apply andb_prop in Hn. destruct Hn as [Hc _].
        apply Ascii.eqb_eq in Hc. cbn [append starts_character].
        cbn [starts_character] in Hs.
        rewrite <- to_lower_continuation, <- Hc, to_lower_continuation.
        exact Hs.
      * apply (like_prefix (String c value) Hw).
        exists found, rest. split; [reflexivity | exact Hn].
Qed.

(* ================================================================= *)
(** ** The text of the queries *)

Lemma populateWhereQuery_text options :
  populateWhereQuery (Some options)
  = (song_where options, map substring_pattern (song_predicate_values options)).
Proof.
  pose proof (song_predicates_values_length options) as Hlen.
  destruct (where_keys_clause (song_inclusive options) options
              {| isFirst := true; where_clause := "WHERE "; args := [] |})
    as [Hclause _].
  cbv zeta in Hclause. cbn [where_clause isFirst] in Hclause.
  pose proof (where_keys_args (song_inclusive options) options
                {| isFirst := true; where_clause := "WHERE "; args := [] |}) as Ha.
  cbn [args app] in Ha.
  unfold populateWhereQuery, song_where. cbv zeta.
  rewrite Ha, length_map, <- Hlen, Hclause.
  destruct (song_predicates options) as [|p ps] eqn:E.
  - cbn [length Nat.eqb]. apply f_equal.
    destruct (song_predicate_values options); [reflexivity | discriminate Hlen].
  - reflexivity.
Qed.

Lemma entity_props_where inclusive props : forall st,
  e_where (entity_props inclusive props st)
  = e_where st
      ++ join_entity_predicates (if inclusive then "AND" else "OR")
           (map fst props) (e_isFirst st).
Proof.
  induction props as [|[k v] props IH]; intros st;
    cbn [entity_props addANDorOR map fst join_entity_predicates].
  - induction (e_where st) as [|c s IHs]; simpl; [|rewrite <- IHs]; reflexivity.
  - rewrite IH. cbn [e_where e_isFirst].
    destruct (e_isFirst st); cbn [negb]; rewrite !append_assoc; reflexivity.
Qed.

Lemma getEntityByOptions_query_text pre key table props rest :
  Forall (fun e : string * EntityValue => getTableByProperty (fst e) = None) pre ->
  getTableByProperty key = Some table ->
  getEntityByOptions_query (pre ++ (key, EObject props) :: rest)%list
  = ("SELECT * FROM " ++ table ++ " " ++ " "
       ++ entity_where
            (entity_inclusive (pre ++ (key, EObject props) :: rest)%list) props
       ++ " ORDER BY " ++ table ++ "." ++ template (getTitleColByProperty key)
       ++ " ASC",
     map snd props).
Proof.
  intros Hpre Hkey. unfold getEntityByOptions_query, getEntityByOptions_state.
  rewrite (entity_keys_skip _ pre _ _ Hpre). cbn [entity_keys]. rewrite Hkey.
  match goal with |- context [entity_props ?i _ ?st1] =>
    remember st1 as s1 eqn:Es;
    destruct (entity_props_fields i props s1) as (Ha & _ & Ho & _ & Hq);
    pose proof (entity_props_where i props s1) as Hw
  end.
  rewrite Ha, Ho, Hq, Hw. subst s1.
  cbn [e_args orderBy query e_where e_isFirst app template].
  rewrite length_map. unfold entity_where.
  destruct props as [|p props]; cbn [length Nat.ltb Nat.leb map];
    rewrite !append_assoc; reflexivity.
Qed.

(** One predicate on a column of the table, with a value that holds no
    wild card: the rows whose column is the value, up to ASCII case. *)
Lemma run_entity_query_one {Row : Type} table cell
    (title_col : Row -> option string) key column col value rows :
  getTableByProperty key = Some table ->
  (key =? "inclusive") = false ->
  cell column = Some col ->
  no_wildcard value = true ->
  run_entity_query table cell title_col [(key, EObject [(column, value)])] rows
  = Some (SQL.order_by_asc title_col
            (filter (fun r => SQL.eq_nocase (col r) value) rows)).
Proof.
  intros Hkey Hincl Hcell Hw.
  unfold run_entity_query, getEntityByOptions_state, entity_inclusive.
  cbn [entity_keys lookup]. rewrite Hkey, Hincl.
  cbn [entity_props addANDorOR from_tables predicates JS.push app forallb fst].
  rewrite String.eqb_refl, Hcell. cbn [andb]. do 2 f_equal.
  apply filter_ext. intros r. unfold like_row. cbn [existsb fst snd].
  rewrite Hcell, orb_false_r. unfold SQL.like_text, SQL.eq_nocase.
  destruct (col r) as [v|]; [|reflexivity].
  rewrite (like_plain value Hw), nocase_eqb_sym. reflexivity.
Qed.

(** C6 (as the code has it).  A song query carries one predicate
    [table.column LIKE ?] for every value the caller gives and binds the
    value wrapped as [%value%]; an entity query carries one predicate
    [column LIKE ?] for every value of its category object and binds the
    value as the caller gave it.  For a value that holds no wild card the
    wrapped pattern matches the texts that contain the value, and the
    unwrapped one only the text that is the value, both up to ASCII case;
    so an entity query on one column finds the rows whose column is the
    value.  Of the four queries of [searchAll], the song query matches
    the term within [allsongs.path], and the album, artist and genre
    queries match it against the whole name. *)
Theorem query_arguments :
  (forall gc lj ex options exclude,
      getSongByOptions_query gc lj ex (Some options) exclude
      = ("SELECT *, " ++ gc ++ " FROM allsongs" ++ newline
           ++ "      " ++ lj ++ newline
           ++ "        " ++ song_where options ++ newline
           ++ "        "
           ++ ex (match song_predicates options with [] => true | _ => false end)
                exclude
           ++ " GROUP BY allsongs._id " ++ addOrderClause (song_sortBy (Some options)),
         map substring_pattern (song_predicate_values options))
      /\ length (song_predicates options) = length (song_predicate_values options))
  /\ (forall options,
        snd (getEntityByOptions_query options) = entity_predicate_values options)
  /\ (forall pre key table props rest,
        Forall (fun e => getTableByProperty (fst e) = None) pre ->
        getTableByProperty key = Some table ->
        getEntityByOptions_query (pre ++ (key, EObject props) :: rest)%list
        = ("SELECT * FROM " ++ table ++ " " ++ " "
             ++ entity_where
                  (entity_inclusive (pre ++ (key, EObject props) :: rest)%list)
                  props
             ++ " ORDER BY " ++ table ++ "."
             ++ template (getTitleColByProperty key) ++ " ASC",
           map snd props))
  /\ (forall value text,
        no_wildcard value = true -> starts_character value = true ->
        (SQL.like (substring_pattern value) text = true
         <-> exists before found rest,
               text = before ++ found ++ rest
               /\ SQL.nocase_eqb value found = true))
  /\ (forall value text,
        no_wildcard value = true ->
        SQL.like value text = SQL.nocase_eqb value text)
  /\ (forall column value d,
        no_wildcard value = true ->
        (forall col, album_cell column = Some col ->
           getEntityByOptions_albums [("album", EObject [(column, value)])] d
           = Some (SQL.order_by_asc album_name
                     (filter (fun r => SQL.eq_nocase (col r) value) (albums d))))
        /\ (forall col, artist_cell column = Some col ->
              getEntityByOptions_artists [("artist", EObject [(column, value)])] d
              = Some (SQL.order_by_asc artist_name
                        (filter (fun r => SQL.eq_nocase (col r) value) (artists d))))
        /\ (forall col, genre_cell column = Some col ->
              getEntityByOptions_genre [("genre", EObject [(column, value)])] d
              = Some (SQL.order_by_asc genre_name
                        (filter (fun r => SQL.eq_nocase (col r) value) (genre d)))))
  /\ (forall gc lj ex term exclude,
        searchAll_queries gc lj ex term exclude
        = [ ("SELECT *, " ++ gc ++ " FROM allsongs" ++ newline
               ++ "      " ++ lj ++ newline
               ++ "        " ++ "WHERE  allsongs.path LIKE ?" ++ newline
               ++ "        " ++ ex false exclude ++ " GROUP BY allsongs._id ",
             [substring_pattern term]);
            ("SELECT * FROM albums  WHERE  album_name LIKE ? ORDER BY albums.album_name ASC",
             [term]);
            ("SELECT * FROM artists  WHERE  artist_name LIKE ? ORDER BY artists.artist_name ASC",
             [term]);
            ("SELECT * FROM genre  WHERE  genre_name LIKE ? ORDER BY genre.genre_name ASC",
             [term]) ]).
Proof.
  split; [|split; [|split; [|split; [|split; [|split]]]]].
  - intros gc lj ex options exclude. split;
      [|apply song_predicates_values_length].
    unfold getSongByOptions_query. rewrite populateWhereQuery_text.
    rewrite length_map, <- song_predicates_values_length.
    destruct (song_predicates options); reflexivity.
  - intros options. unfold getEntityByOptions_query, getEntityByOptions_state.
    cbn [snd]. apply (entity_keys_args (entity_inclusive options) options).
  - intros pre key table props rest Hpre Hkey.
    apply getEntityByOptions_query_text; assumption.
  - intros value text Hw Hs. apply like_substring_pattern; assumption.
  - intros value text Hw. apply like_plain. exact Hw.
  - intros column value d Hw. split; [|split]; intros col Hcell.
    + apply (run_entity_query_one "albums" album_cell album_name "album"
               column col value (albums d)); try reflexivity; assumption.
    + apply (run_entity_query_one "artists" artist_cell artist_name "artist"
               column col value (artists d)); try reflexivity; assumption.
    + apply (run_entity_query_one "genre" genre_cell genre_name "genre"
               column col value (genre d)); try reflexivity; assumption.
  - intros. reflexivity.
Qed.

Lemma query_arguments_witness :
  getEntityByOptions_query
    [("inclusive", EBool true);
     ("album", EObject [("album_name", "x"); ("album_id", "y")])]
  = ("SELECT * FROM albums  WHERE  album_name LIKE ?AND album_id LIKE ? ORDER BY albums.album_name ASC",
     ["x"; "y"])
  /\ (SQL.like "%ABC%" "xabcy" = true
      <-> exists before found rest,
            "xabcy" = before ++ found ++ rest
            /\ SQL.nocase_eqb "ABC" found = true)
  /\ SQL.like "ABC" "xABCy" = false
  /\ getEntityByOptions_albums [("album", EObject [("album_name", "XABCY")])] db_xABCy
     = Some [album_xABCy].
Proof.
  destruct query_arguments as (_ & _ & Htext & Hsub & Hwhole & Hrun & _).
  split; [|split; [|split]].
  - apply (Htext [("inclusive", EBool true)] "album" "albums"
             [("album_name", "x"); ("album_id", "y")] []).
    + repeat constructor.
    + reflexivity.
  - apply (Hsub "ABC" "xabcy"); reflexivity.
  - rewrite (Hwhole "ABC" "xABCy" eq_refl). reflexivity.
  - apply (proj1 (Hrun "album_name" "XABCY" db_xABCy eq_refl) album_name eq_refl).
Defined.
